(** * OVS exporter: PMD diagnostic-text extraction and snapshot cache

    A shallow embedding of the Go package [ovs_exporter]:
    - [parsePmdPerfOutput], [GetPmdPerfMetrics]        (pmd_metrics.go)
    - [parseEnhancedPmdOutput], [enrichWithStats],
      [GetEnhancedPmdMetrics], [GetDropCounters]       (enhanced PMD metrics)
    - [CollectPMDMetrics], [collectBasicPMDMetrics],
      [collectDropCounters]                            (PMD collector)
    - [GatherMetrics], [Collect], [IncrementErrorCounter],
      [NewExporter], [Describe]                        (exporter)
    - [GetSystemIDFromDatabase], [GetSystemIDFromFile],
      [GetSystemID]                                    (system id)

    Go strings are byte strings ([string]); [uint64] and [int64] values are
    integers in [Z] with their wrap-around written out; [float64] values
    are IEEE-754 binary64 numbers ([spec_float] at precision 53); Go maps
    are [gmap]s; slices are lists (a nil slice and an empty slice are both
    the empty list: the code only ever takes their [len] and ranges over
    them). *)

From Stdlib Require Import ZArith Ascii String List Bool Lia SpecFloat.
From stdpp Require Import base tactics option list gmap strings.

Local Open Scope string_scope.
Local Open Scope Z_scope.

(** ** Machine integers *)

Module U64.
Definition modulus : Z := 2 ^ 64.
Definition max : Z := modulus - 1.
Definition wrap (z : Z) : Z := z mod modulus.
Definition add (a b : Z) : Z := wrap (a + b).
Definition sub (a b : Z) : Z := wrap (a - b).
End U64.

Module I64.
Definition min : Z := - 2 ^ 63.
Definition max : Z := 2 ^ 63 - 1.
(** Two's complement wrap-around of a signed 64-bit result. *)
Definition wrap (z : Z) : Z := (z + 2 ^ 63) mod 2 ^ 64 - 2 ^ 63.
Definition add (a b : Z) : Z := wrap (a + b).
Definition mul (a b : Z) : Z := wrap (a * b).
Definition in_range (z : Z) : Prop := min <= z <= max.
End I64.

(** ** Byte strings *)

Definition is_digit (c : ascii) : bool :=
  let n := nat_of_ascii c in (48 <=? n)%nat && (n <=? 57)%nat.

Definition digit_val (c : ascii) : Z := Z.of_nat (nat_of_ascii c) - 48.

Fixpoint str_len (s : string) : nat :=
  match s with
  | EmptyString => 0
  | String _ s' => S (str_len s')
  end.

Fixpoint str_take (n : nat) (s : string) : string :=
  match n, s with
  | S n', String c s' => String c (str_take n' s')
  | _, _ => EmptyString
  end.

Fixpoint str_prefix (p s : string) : bool :=
  match p, s with
  | EmptyString, _ => true
  | String a p', String b s' => if Ascii.eqb a b then str_prefix p' s' else false
  | String _ _, EmptyString => false
  end.

(** [strings.Contains(s, substr)]. *)
Fixpoint Contains (s substr : string) : bool :=
  if str_prefix substr s then true
  else match s with
       | EmptyString => false
       | String _ s' => Contains s' substr
       end.

Fixpoint str_repeat (c : ascii) (n : nat) : string :=
  match n with
  | O => EmptyString
  | S n' => String c (str_repeat c n')
  end.

(** ** [float64]

    Binary64 numbers and the operations the package uses on them.  All
    arithmetic is round-to-nearest-even, as on the Go targets. *)

Module F64.
Definition t := spec_float.
Definition prec : Z := 53.
Definition emax : Z := 1024.

Definition zero : t := S754_zero false.
Definition mul : t -> t -> t := SFmul prec emax.
Definition div : t -> t -> t := SFdiv prec emax.
Definition ltb : t -> t -> bool := SFltb.

(** The float nearest to the integer [n]: Go's [float64(n)]. *)
Definition of_Z (n : Z) : t := binary_normalize prec emax n 0 false.

(** The float nearest to the rational [n / d] for [n >= 0], [d > 0]. *)
Definition of_ratio (n d : Z) : t :=
  match n, d with
  | Zpos pn, Zpos pd => div (S754_finite false pn 0) (S754_finite false pd 0)
  | _, _ => zero
  end.

(** The integer part of a finite float, truncated toward zero. *)
Definition trunc (f : t) : option Z :=
  match f with
  | S754_zero _ => Some 0
  | S754_finite s m e =>
      let a := if 0 <=? e then Zpos m * 2 ^ e else Zpos m / 2 ^ (- e) in
      Some (if s then - a else a)
  | _ => None
  end.

(** Go's conversion [uint64(f)].  For a value whose integer part lies in
    [0, 2^64) the result is that integer part.  Outside that range the
    language leaves the result to the implementation; the definition
    gives the result of the amd64 code generator (the build default of
    the repository), which converts through the signed instruction and
    patches the sign bit. *)
Definition to_uint64 (f : t) : Z :=
  match trunc f with
  | Some z =>
      if (0 <=? z) && (z <? 2 ^ 64) then z
      else if (- 2 ^ 63 <? z) && (z <? 0) then z + 2 ^ 64
      else 2 ^ 63
  | None => 2 ^ 63
  end.

Definition million : t := of_Z 1000000.
Definition hundred : t := of_Z 100.
End F64.

Abbreviation float64 := F64.t.

(** ** [strconv] *)

(** [strconv.ParseUint(s, 10, 64)]: a non-empty string of decimal digits
    whose value fits 64 bits; everything else is an error. *)
Fixpoint digits_value (acc : Z) (s : string) : option Z :=
  match s with
  | EmptyString => Some acc
  | String c s' =>
      if is_digit c then digits_value (10 * acc + digit_val c) s' else None
  end.

Definition ParseUint (s : string) : option Z :=
  match s with
  | EmptyString => None
  | _ => match digits_value 0 s with
         | Some v => if v <=? U64.max then Some v else None
         | None => None
         end
  end.

(** [strconv.ParseFloat(s, 64)] on the inputs the package gives it.  Every
    call site passes a capture of the class [[\d.]+], so the only syntax
    that can occur is decimal digits with dots: the mantissa scan of
    [strconv] accepts digits around at most one dot, with at least one
    digit, and stops at a second dot, which leaves unread input and makes
    the call fail.  Signs, exponents, hexadecimal mantissas, underscores
    and the words inf and nan cannot reach the function and are rejected
    here.  The value is the binary64 number nearest to the decimal number;
    a value that rounds to infinity is the range error. *)
Record mantissa := { m_int : Z; m_frac : Z; m_dot : bool; m_digits : bool }.

Fixpoint read_mantissa (st : mantissa) (s : string) : option mantissa :=
  match s with
  | EmptyString => Some st
  | String c s' =>
      if Ascii.eqb c "." then
        if m_dot st then None
        else read_mantissa {| m_int := m_int st; m_frac := m_frac st;
                              m_dot := true; m_digits := m_digits st |} s'
      else if is_digit c then
        read_mantissa {| m_int := 10 * m_int st + digit_val c;
                         m_frac := if m_dot st then m_frac st + 1 else m_frac st;
                         m_dot := m_dot st; m_digits := true |} s'
      else None
  end.

Definition ParseFloat (s : string) : option float64 :=
  match read_mantissa {| m_int := 0; m_frac := 0; m_dot := false; m_digits := false |} s with
  | Some st =>
      if m_digits st then
        match F64.of_ratio (m_int st) (10 ^ m_frac st) with
        | S754_infinity _ => None
        | S754_nan => None
        | f => Some f
        end
      else None
  | None => None
  end.

(** ** [bufio.Scanner] with the default split function [ScanLines]

    The scanner cuts the input at every newline, drops one trailing
    carriage return from each line and delivers a final unterminated line
    when it is not empty.  Its buffer grows to [MaxScanTokenSize] bytes and
    no further: a line of that many bytes or more makes [Scan] return
    false for good (the error [ErrTooLong], which none of the callers
    reads), so that line and everything after it are never delivered. *)

Definition newline : ascii := ascii_of_nat 10.
Definition carriage_return : ascii := ascii_of_nat 13.

Fixpoint split_lines (s : string) : list string :=
  match s with
  | EmptyString => []
  | String c s' =>
      if Ascii.eqb c newline then EmptyString :: split_lines s'
      else match split_lines s' with
           | [] => [String c EmptyString]
           | l :: ls => String c l :: ls
           end
  end.

Fixpoint dropCR (s : string) : string :=
  match s with
  | EmptyString => EmptyString
  | String c EmptyString =>
      if Ascii.eqb c carriage_return then EmptyString else s
  | String c s' => String c (dropCR s')
  end.

Definition MaxScanTokenSize : nat := 64 * 1024.

Definition fits_buffer (line : string) : bool :=
  (str_len line <? MaxScanTokenSize)%nat.

Fixpoint scan_tokens (ls : list string) : list string :=
  match ls with
  | [] => []
  | l :: ls' => if fits_buffer l then dropCR l :: scan_tokens ls' else []
  end.

(** The lines the loop [for scanner.Scan() { line := scanner.Text() ... }]
    visits, in order. *)
Definition scanLines (input : string) : list string :=
  scan_tokens (split_lines input).

(** ** [regexp]

    The patterns of the package use literals, the classes [\d], [\s],
    [\S], [\w], [[\d.]] and [.], greedy repetition of one class, optional
    and capturing groups, alternation and, once, [^].  The matcher below
    is the backtracking search whose first result Go's [regexp] returns
    (leftmost match, and among those the one preferred by greedy
    repetition and by the left alternative).  It works on bytes; every
    pattern anchors the ends of its repetitions on ASCII text, so the
    result is the same as on runes. *)

Inductive cclass :=
| Digit       (* \d *)
| Space       (* \s *)
| NotSpace    (* \S *)
| Word        (* \w *)
| DigitDot    (* [\d.] *)
| AnyChar.    (* . *)

Definition is_space (c : ascii) : bool :=
  let n := nat_of_ascii c in
  (n =? 9)%nat || (n =? 10)%nat || (n =? 12)%nat || (n =? 13)%nat || (n =? 32)%nat.

Definition is_word (c : ascii) : bool :=
  let n := nat_of_ascii c in
  is_digit c || ((65 <=? n)%nat && (n <=? 90)%nat)
  || ((97 <=? n)%nat && (n <=? 122)%nat) || (n =? 95)%nat.

Definition in_class (k : cclass) (c : ascii) : bool :=
  match k with
  | Digit => is_digit c
  | Space => is_space c
  | NotSpace => negb (is_space c)
  | Word => is_word c
  | DigitDot => is_digit c || Ascii.eqb c "."
  | AnyChar => negb (Ascii.eqb c newline)
  end.

Inductive regex :=
| Bol                            (* ^ *)
| Lit (s : string)               (* literal text *)
| Plus (k : cclass)              (* k+ *)
| Star (k : cclass)              (* k* *)
| Seq (r1 r2 : regex)
| Alt (r1 r2 : regex)            (* r1|r2 *)
| Opt (r : regex)                (* (?:r)? *)
| Grp (i : nat) (r : regex).     (* the i-th capturing group *)

Fixpoint cat (rs : list regex) : regex :=
  match rs with
  | [] => Lit EmptyString
  | [r] => r
  | r :: rs' => Seq r (cat rs')
  end.

Fixpoint groups (r : regex) : nat :=
  match r with
  | Seq r1 r2 | Alt r1 r2 => groups r1 + groups r2
  | Opt r1 => groups r1
  | Grp _ r1 => S (groups r1)
  | _ => 0
  end.

Fixpoint str_drop (n : nat) (s : string) : string :=
  match n, s with
  | S n', String _ s' => str_drop n' s'
  | _, _ => s
  end.

Section Matcher.
Context {R : Type}.
(** A continuation receives the position reached, the text left and the
    captures made so far. *)
Definition kont := nat -> string -> list string -> option R.

Fixpoint star (k : cclass) (pos : nat) (s : string) (caps : list string)
    (next : kont) : option R :=
  match s with
  | String a s' =>
      if in_class k a then
        match star k (S pos) s' caps next with
        | Some r => Some r
        | None => next pos s caps
        end
      else next pos s caps
  | EmptyString => next pos s caps
  end.

Fixpoint rx (r : regex) (pos : nat) (s : string) (caps : list string)
    (next : kont) : option R :=
  match r with
  | Bol => if (pos =? 0)%nat then next pos s caps else None
  | Lit l =>
      if str_prefix l s
      then next (pos + str_len l)%nat (str_drop (str_len l) s) caps
      else None
  | Plus k =>
      match s with
      | String a s' => if in_class k a then star k (S pos) s' caps next else None
      | EmptyString => None
      end
  | Star k => star k pos s caps next
  | Seq r1 r2 => rx r1 pos s caps (fun pos' s' caps' => rx r2 pos' s' caps' next)
  | Alt r1 r2 =>
      match rx r1 pos s caps next with
      | Some x => Some x
      | None => rx r2 pos s caps next
      end
  | Opt r1 =>
      match rx r1 pos s caps next with
      | Some x => Some x
      | None => next pos s caps
      end
  | Grp i r1 =>
      rx r1 pos s caps
        (fun pos' s' caps' => next pos' s' (<[i := str_take (pos' - pos) s]> caps'))
  end.
End Matcher.

Fixpoint find_from (re : regex) (pos : nat) (s : string) : option (list string) :=
  match rx re pos s (replicate (S (groups re)) EmptyString)
          (fun pos' _ caps => Some (<[0%nat := str_take (pos' - pos) s]> caps)) with
  | Some m => Some m
  | None =>
      match s with
      | EmptyString => None
      | String _ s' => find_from re (S pos) s'
      end
  end.

(** [re.FindStringSubmatch(s)]: [None] is Go's nil result. *)
Definition FindStringSubmatch (re : regex) (s : string) : option (list string) :=
  find_from re 0 s.

(** [matches[i]]. *)
Definition sub (matches : list string) (i : nat) : string :=
  default EmptyString (matches !! i).

(** ** Helpers shared by the two parsers

    Every field block of the parsers has the shape
    [if matches := re.FindStringSubmatch(line); matches != nil {
       if val, err := strconv.ParseX(matches[i], ...); err == nil { field = val } }]. *)

Section FieldBlocks.
Context {T : Type}.

Definition when_match (re : regex) (body : list string -> T -> T)
    (line : string) (m : T) : T :=
  match FindStringSubmatch re line with
  | Some matches => body matches m
  | None => m
  end.

Definition on_uint (s : string) (assign : Z -> T -> T) (m : T) : T :=
  match ParseUint s with
  | Some val => assign val m
  | None => m
  end.

Definition on_float (s : string) (assign : float64 -> T -> T) (m : T) : T :=
  match ParseFloat s with
  | Some val => assign val m
  | None => m
  end.

(** The blocks of one loop iteration, run in source order. *)
Definition run_blocks (blocks : list (string -> T -> T)) (line : string) (m : T) : T :=
  fold_left (fun acc block => block line acc) blocks m.
End FieldBlocks.

(** [with_field ctor projs r target v] builds the struct [r] with the
    field [target] replaced by [v]. *)
Ltac with_field ctor projs r target v :=
  lazymatch projs with
  | (?rest, ?p) =>
      let c := with_field ctor rest r target v in
      lazymatch p with
      | target => constr:(c v)
      | _ => constr:(c (p r))
      end
  | tt => ctor
  end.

(** The thread-header pattern, the same in both parsers. *)
Definition pmdHeaderRe : regex :=
  cat [Lit "pmd thread numa_id "; Grp 1 (Plus Digit); Lit " core_id ";
       Grp 2 (Plus Digit); Lit ":"].

(** [uint64(val * 1000000)]: Mcycles to cycles. *)
Definition mcycles (val : float64) : Z := F64.to_uint64 (F64.mul val F64.million).

(** ** pmd_metrics.go *)

Module Perf.
Record PmdPerformanceMetrics := {
  PmdID : string;
  NumaID : string;
  Iterations : Z;
  BusyCycles : Z;
  CyclesPerIteration : float64;
  PacketsPerIteration : float64;
  CyclesPerPacket : float64;
  PacketsPerBatch : float64;
  MaxVhostQueueLength : Z;
  Upcalls : Z;
  UpcallCycles : Z;
  TxRetries : Z;
  TxContention : Z;
  TxIrqs : Z
}.
Abbreviation T := PmdPerformanceMetrics.

Abbreviation fields :=
  (tt, PmdID, NumaID, Iterations, BusyCycles, CyclesPerIteration,
   PacketsPerIteration, CyclesPerPacket, PacketsPerBatch,
   MaxVhostQueueLength, Upcalls, UpcallCycles, TxRetries, TxContention,
   TxIrqs).

Ltac upd r f v :=
  let t := with_field Build_PmdPerformanceMetrics constr:(fields) r f v in exact t.

Definition set_Iterations (v : Z) (m : T) : T := ltac:(upd m Iterations v).
Definition set_BusyCycles (v : Z) (m : T) : T := ltac:(upd m BusyCycles v).
Definition set_CyclesPerIteration (v : float64) (m : T) : T := ltac:(upd m CyclesPerIteration v).
Definition set_PacketsPerIteration (v : float64) (m : T) : T := ltac:(upd m PacketsPerIteration v).
Definition set_CyclesPerPacket (v : float64) (m : T) : T := ltac:(upd m CyclesPerPacket v).
Definition set_PacketsPerBatch (v : float64) (m : T) : T := ltac:(upd m PacketsPerBatch v).
Definition set_MaxVhostQueueLength (v : Z) (m : T) : T := ltac:(upd m MaxVhostQueueLength v).
Definition set_Upcalls (v : Z) (m : T) : T := ltac:(upd m Upcalls v).
Definition set_UpcallCycles (v : Z) (m : T) : T := ltac:(upd m UpcallCycles v).
Definition set_TxRetries (v : Z) (m : T) : T := ltac:(upd m TxRetries v).
Definition set_TxContention (v : Z) (m : T) : T := ltac:(upd m TxContention v).
Definition set_TxIrqs (v : Z) (m : T) : T := ltac:(upd m TxIrqs v).

(** [&PmdPerformanceMetrics{NumaID: matches[1], PmdID: matches[2]}]. *)
Definition fresh (matches : list string) : T :=
  {| PmdID := sub matches 2; NumaID := sub matches 1;
     Iterations := 0; BusyCycles := 0;
     CyclesPerIteration := F64.zero; PacketsPerIteration := F64.zero;
     CyclesPerPacket := F64.zero; PacketsPerBatch := F64.zero;
     MaxVhostQueueLength := 0; Upcalls := 0; UpcallCycles := 0;
     TxRetries := 0; TxContention := 0; TxIrqs := 0 |}.

Definition iterationsRe : regex :=
  cat [Lit "iterations:"; Plus Space; Grp 1 (Plus Digit); Plus Space;
       Lit "("; Plus DigitDot; Plus Space; Lit "us/it)"].
Definition busyCyclesRe : regex :=
  cat [Lit "busy cycles:"; Plus Space; Grp 1 (Plus DigitDot); Lit "%";
       Star AnyChar; Lit "("; Grp 2 (Plus DigitDot); Lit " Mcycles";
       Star AnyChar; Lit ")"].
Definition cyclesPerItRe : regex :=
  cat [Lit "cycles/it:"; Plus Space; Grp 1 (Plus DigitDot); Plus Space;
       Lit "("; Grp 2 (Plus DigitDot); Lit " Mcycles)"].
Definition pktsPerItRe : regex :=
  cat [Lit "pkts/it:"; Plus Space; Grp 1 (Plus DigitDot)].
Definition cyclesPerPktRe : regex :=
  cat [Lit "cycles/pkt:"; Plus Space; Grp 1 (Plus DigitDot)].
Definition pktsPerBatchRe : regex :=
  cat [Lit "avg pkts/batch:"; Plus Space; Grp 1 (Plus DigitDot)].
Definition maxVhostQRe : regex :=
  cat [Lit "avg max vhost qlen:"; Plus Space; Grp 1 (Plus Digit)].
Definition upcallsRe : regex :=
  cat [Lit "upcalls:"; Plus Space; Grp 1 (Plus Digit); Plus Space; Lit "(";
       Grp 2 (Plus DigitDot); Lit " us"; Plus Space; Grp 3 (Plus DigitDot);
       Lit " Mcycles)"].
Definition txRetriesRe : regex :=
  cat [Lit "vhost tx retries:"; Plus Space; Grp 1 (Plus Digit)].
Definition txContentionRe : regex :=
  cat [Lit "vhost tx contention:"; Plus Space; Grp 1 (Plus Digit)].
Definition txIrqsRe : regex :=
  cat [Lit "vhost tx irqs:"; Plus Space; Grp 1 (Plus Digit)].

(** The field blocks of the loop body, in source order. *)
Definition blocks : list (string -> T -> T) :=
  [ when_match iterationsRe (fun matches => on_uint (sub matches 1) set_Iterations);
    when_match busyCyclesRe (fun matches =>
      on_float (sub matches 2) (fun val => set_BusyCycles (mcycles val)));
    when_match cyclesPerItRe (fun matches => on_float (sub matches 1) set_CyclesPerIteration);
    when_match pktsPerItRe (fun matches => on_float (sub matches 1) set_PacketsPerIteration);
    when_match cyclesPerPktRe (fun matches => on_float (sub matches 1) set_CyclesPerPacket);
    when_match pktsPerBatchRe (fun matches => on_float (sub matches 1) set_PacketsPerBatch);
    when_match maxVhostQRe (fun matches => on_uint (sub matches 1) set_MaxVhostQueueLength);
    when_match upcallsRe (fun matches m =>
      let m := on_uint (sub matches 1) set_Upcalls m in
      on_float (sub matches 3) (fun val => set_UpcallCycles (mcycles val)) m);
    when_match txRetriesRe (fun matches => on_uint (sub matches 1) set_TxRetries);
    when_match txContentionRe (fun matches => on_uint (sub matches 1) set_TxContention);
    when_match txIrqsRe (fun matches => on_uint (sub matches 1) set_TxIrqs) ].

(** The loop state: the slice [metrics] and the pointer [currentMetric]
    ([None] is nil). *)
Record state := { metrics : list T; currentMetric : option T }.

Definition flush (st : state) : list T :=
  match currentMetric st with
  | Some m => metrics st ++ [m]
  | None => metrics st
  end.

(** One iteration of [for scanner.Scan()]. *)
Definition step (st : state) (line : string) : state :=
  match FindStringSubmatch pmdHeaderRe line with
  | Some matches =>
      {| metrics := flush st; currentMetric := Some (fresh matches) |}
  | None =>
      match currentMetric st with
      | None => st
      | Some m =>
          {| metrics := metrics st; currentMetric := Some (run_blocks blocks line m) |}
      end
  end.

Definition init : state := {| metrics := []; currentMetric := None |}.
End Perf.

(** The Go error value: [None] is the nil error, [Some msg] an error whose
    [Error()] text is [msg]. *)
Definition error := option string.

Definition parsePmdPerfOutput (output : string) : list Perf.T * error :=
  (Perf.flush (fold_left Perf.step (scanLines output) Perf.init), None).

(** ** Enhanced PMD metrics *)

(** [strings.ToLower] on the ASCII letters; its argument is a capture of
    [\w+], which holds ASCII only. *)
Definition lower_ascii (c : ascii) : ascii :=
  let n := nat_of_ascii c in
  if (65 <=? n)%nat && (n <=? 90)%nat then ascii_of_nat (n + 32) else c.

Fixpoint ToLower (s : string) : string :=
  match s with
  | EmptyString => EmptyString
  | String c s' => String (lower_ascii c) (ToLower s')
  end.

Module Enh.
Record EnhancedPmdMetrics := {
  (* Core identification *)
  PmdID : string;
  NumaID : string;
  CoreID : string;
  (* CPU Utilization *)
  CPUUtilization : float64;
  IdleCycles : Z;
  BusyCycles : Z;
  TotalCycles : Z;
  (* Iteration metrics *)
  Iterations : Z;
  SleepIterations : Z;
  BusyIterations : Z;
  CyclesPerIteration : float64;
  UsPerIteration : float64;
  (* Packet processing *)
  PacketsPerIteration : float64;
  CyclesPerPacket : float64;
  PacketsPerBatch : float64;
  TotalPackets : Z;
  (* RX Batch Statistics *)
  RxBatches : Z;
  RxPackets : Z;
  AvgRxBatchSize : float64;
  MaxRxBatchSize : Z;
  (* TX Batch Statistics *)
  TxBatches : Z;
  TxPackets : Z;
  AvgTxBatchSize : float64;
  (* vHost Queue Metrics *)
  MaxVhostQueueLength : Z;
  AvgVhostQueueLength : float64;
  VhostQueueFull : Z;
  (* Upcall metrics *)
  Upcalls : Z;
  UpcallCycles : Z;
  AvgUpcallCycles : float64;
  (* vHost specific *)
  VhostTxRetries : Z;
  VhostTxContention : Z;
  VhostTxIrqs : Z;
  (* Hit/Miss Statistics *)
  ExactMatchHit : Z;
  MaskedHit : Z;
  Miss : Z;
  Lost : Z;
  (* Histogram data *)
  CyclesHistogram : gmap string Z;
  PacketsHistogram : gmap string Z;
  BatchSizeHistogram : gmap string Z;
  (* Suspicious iterations *)
  SuspiciousIterations : Z;
  SuspiciousPercent : float64
}.
Abbreviation T := EnhancedPmdMetrics.

Abbreviation fields :=
  (tt, PmdID, NumaID, CoreID, CPUUtilization, IdleCycles, BusyCycles,
   TotalCycles, Iterations, SleepIterations, BusyIterations,
   CyclesPerIteration, UsPerIteration, PacketsPerIteration,
   CyclesPerPacket, PacketsPerBatch, TotalPackets, RxBatches, RxPackets,
   AvgRxBatchSize, MaxRxBatchSize, TxBatches, TxPackets, AvgTxBatchSize,
   MaxVhostQueueLength, AvgVhostQueueLength, VhostQueueFull, Upcalls,
   UpcallCycles, AvgUpcallCycles, VhostTxRetries, VhostTxContention,
   VhostTxIrqs, ExactMatchHit, MaskedHit, Miss, Lost, CyclesHistogram,
   PacketsHistogram, BatchSizeHistogram, SuspiciousIterations,
   SuspiciousPercent).

Ltac upd r f v :=
  let t := with_field Build_EnhancedPmdMetrics constr:(fields) r f v in exact t.

Definition set_CPUUtilization (v : float64) (m : T) : T := ltac:(upd m CPUUtilization v).
Definition set_IdleCycles (v : Z) (m : T) : T := ltac:(upd m IdleCycles v).
Definition set_BusyCycles (v : Z) (m : T) : T := ltac:(upd m BusyCycles v).
Definition set_TotalCycles (v : Z) (m : T) : T := ltac:(upd m TotalCycles v).
Definition set_Iterations (v : Z) (m : T) : T := ltac:(upd m Iterations v).
Definition set_SleepIterations (v : Z) (m : T) : T := ltac:(upd m SleepIterations v).
Definition set_BusyIterations (v : Z) (m : T) : T := ltac:(upd m BusyIterations v).
Definition set_CyclesPerIteration (v : float64) (m : T) : T := ltac:(upd m CyclesPerIteration v).
Definition set_UsPerIteration (v : float64) (m : T) : T := ltac:(upd m UsPerIteration v).
Definition set_PacketsPerIteration (v : float64) (m : T) : T := ltac:(upd m PacketsPerIteration v).
Definition set_CyclesPerPacket (v : float64) (m : T) : T := ltac:(upd m CyclesPerPacket v).
Definition set_PacketsPerBatch (v : float64) (m : T) : T := ltac:(upd m PacketsPerBatch v).
Definition set_TotalPackets (v : Z) (m : T) : T := ltac:(upd m TotalPackets v).
Definition set_RxBatches (v : Z) (m : T) : T := ltac:(upd m RxBatches v).
Definition set_RxPackets (v : Z) (m : T) : T := ltac:(upd m RxPackets v).
Definition set_AvgRxBatchSize (v : float64) (m : T) : T := ltac:(upd m AvgRxBatchSize v).
Definition set_MaxRxBatchSize (v : Z) (m : T) : T := ltac:(upd m MaxRxBatchSize v).
Definition set_TxBatches (v : Z) (m : T) : T := ltac:(upd m TxBatches v).
Definition set_TxPackets (v : Z) (m : T) : T := ltac:(upd m TxPackets v).
Definition set_AvgTxBatchSize (v : float64) (m : T) : T := ltac:(upd m AvgTxBatchSize v).
Definition set_MaxVhostQueueLength (v : Z) (m : T) : T := ltac:(upd m MaxVhostQueueLength v).
Definition set_AvgVhostQueueLength (v : float64) (m : T) : T := ltac:(upd m AvgVhostQueueLength v).
Definition set_VhostQueueFull (v : Z) (m : T) : T := ltac:(upd m VhostQueueFull v).
Definition set_Upcalls (v : Z) (m : T) : T := ltac:(upd m Upcalls v).
Definition set_UpcallCycles (v : Z) (m : T) : T := ltac:(upd m UpcallCycles v).
Definition set_AvgUpcallCycles (v : float64) (m : T) : T := ltac:(upd m AvgUpcallCycles v).
Definition set_VhostTxRetries (v : Z) (m : T) : T := ltac:(upd m VhostTxRetries v).
Definition set_VhostTxContention (v : Z) (m : T) : T := ltac:(upd m VhostTxContention v).
Definition set_VhostTxIrqs (v : Z) (m : T) : T := ltac:(upd m VhostTxIrqs v).
Definition set_ExactMatchHit (v : Z) (m : T) : T := ltac:(upd m ExactMatchHit v).
Definition set_MaskedHit (v : Z) (m : T) : T := ltac:(upd m MaskedHit v).
Definition set_Miss (v : Z) (m : T) : T := ltac:(upd m Miss v).
Definition set_Lost (v : Z) (m : T) : T := ltac:(upd m Lost v).
Definition set_CyclesHistogram (v : gmap string Z) (m : T) : T := ltac:(upd m CyclesHistogram v).
Definition set_PacketsHistogram (v : gmap string Z) (m : T) : T := ltac:(upd m PacketsHistogram v).
Definition set_BatchSizeHistogram (v : gmap string Z) (m : T) : T := ltac:(upd m BatchSizeHistogram v).
Definition set_SuspiciousIterations (v : Z) (m : T) : T := ltac:(upd m SuspiciousIterations v).
Definition set_SuspiciousPercent (v : float64) (m : T) : T := ltac:(upd m SuspiciousPercent v).

(** The struct literal of the header branch: identity from the captures,
    three fresh maps, every other field at its zero value. *)
Definition fresh (matches : list string) : T :=
  {| PmdID := sub matches 2; NumaID := sub matches 1; CoreID := sub matches 2;
     CPUUtilization := F64.zero; IdleCycles := 0; BusyCycles := 0; TotalCycles := 0;
     Iterations := 0; SleepIterations := 0; BusyIterations := 0;
     CyclesPerIteration := F64.zero; UsPerIteration := F64.zero;
     PacketsPerIteration := F64.zero; CyclesPerPacket := F64.zero;
     PacketsPerBatch := F64.zero; TotalPackets := 0;
     RxBatches := 0; RxPackets := 0; AvgRxBatchSize := F64.zero; MaxRxBatchSize := 0;
     TxBatches := 0; TxPackets := 0; AvgTxBatchSize := F64.zero;
     MaxVhostQueueLength := 0; AvgVhostQueueLength := F64.zero; VhostQueueFull := 0;
     Upcalls := 0; UpcallCycles := 0; AvgUpcallCycles := F64.zero;
     VhostTxRetries := 0; VhostTxContention := 0; VhostTxIrqs := 0;
     ExactMatchHit := 0; MaskedHit := 0; Miss := 0; Lost := 0;
     CyclesHistogram := ∅; PacketsHistogram := ∅; BatchSizeHistogram := ∅;
     SuspiciousIterations := 0; SuspiciousPercent := F64.zero |}.

(* CPU and iteration patterns *)
Definition cpuUtilRe : regex :=
  cat [Alt (Lit "cpu") (Lit "processor"); Lit " utilization:"; Plus Space;
       Grp 1 (Plus DigitDot); Lit "%"].
Definition idleCyclesRe : regex :=
  cat [Lit "idle cycles:"; Plus Space; Grp 1 (Plus DigitDot); Lit "%";
       Star AnyChar; Lit "("; Grp 2 (Plus DigitDot); Lit " Mcycles"].
Definition busyCyclesRe : regex :=
  cat [Lit "busy cycles:"; Plus Space; Grp 1 (Plus DigitDot); Lit "%";
       Star AnyChar; Lit "("; Grp 2 (Plus DigitDot); Lit " Mcycles"].
Definition iterationsRe : regex :=
  cat [Lit "iterations:"; Plus Space; Grp 1 (Plus Digit); Plus Space;
       Lit "("; Grp 2 (Plus DigitDot); Lit " us/it)"].
Definition sleepIterRe : regex :=
  cat [Lit "sleep iterations:"; Plus Space; Grp 1 (Plus Digit); Plus Space;
       Lit "("; Grp 2 (Plus DigitDot); Lit "%"].
(* Packet processing patterns *)
Definition cyclesPerItRe : regex := Perf.cyclesPerItRe.
Definition pktsPerItRe : regex := Perf.pktsPerItRe.
Definition cyclesPerPktRe : regex := Perf.cyclesPerPktRe.
Definition pktsPerBatchRe : regex := Perf.pktsPerBatchRe.
(* RX/TX batch patterns *)
Definition rxBatchRe : regex :=
  cat [Lit "rx batches:"; Plus Space; Grp 1 (Plus Digit); Star AnyChar;
       Lit "avg:"; Plus Space; Grp 2 (Plus DigitDot); Star AnyChar;
       Lit "max:"; Plus Space; Grp 3 (Plus Digit)].
Definition txBatchRe : regex :=
  cat [Lit "tx batches:"; Plus Space; Grp 1 (Plus Digit); Star AnyChar;
       Lit "avg:"; Plus Space; Grp 2 (Plus DigitDot)].
Definition rxPacketsRe : regex :=
  cat [Lit "rx packets:"; Plus Space; Grp 1 (Plus Digit)].
Definition txPacketsRe : regex :=
  cat [Lit "tx packets:"; Plus Space; Grp 1 (Plus Digit)].
(* vHost queue patterns *)
Definition maxVhostQRe : regex :=
  cat [Opt (Lit "avg "); Lit "max vhost qlen:"; Plus Space; Grp 1 (Plus Digit)].
Definition avgVhostQRe : regex :=
  cat [Lit "avg vhost qlen:"; Plus Space; Grp 1 (Plus DigitDot)].
Definition vhostFullRe : regex :=
  cat [Lit "vhost queue full:"; Plus Space; Grp 1 (Plus Digit)].
(* Upcall patterns *)
Definition upcallsRe : regex := Perf.upcallsRe.
Definition avgUpcallRe : regex :=
  cat [Lit "avg upcall cycles:"; Plus Space; Grp 1 (Plus DigitDot)].
(* vHost TX patterns *)
Definition txRetriesRe : regex := Perf.txRetriesRe.
Definition txContentionRe : regex := Perf.txContentionRe.
Definition txIrqsRe : regex := Perf.txIrqsRe.
(* Hit/Miss patterns *)
Definition exactHitRe : regex :=
  cat [Lit "exact match hit:"; Plus Space; Grp 1 (Plus Digit)].
Definition maskedHitRe : regex :=
  cat [Lit "masked hit:"; Plus Space; Grp 1 (Plus Digit)].
Definition missRe : regex := cat [Lit "miss:"; Plus Space; Grp 1 (Plus Digit)].
Definition lostRe : regex := cat [Lit "lost:"; Plus Space; Grp 1 (Plus Digit)].
(* Suspicious iterations *)
Definition suspiciousRe : regex :=
  cat [Lit "suspicious iterations:"; Plus Space; Grp 1 (Plus Digit); Plus Space;
       Lit "("; Grp 2 (Plus DigitDot); Lit "%)"].
(* Histogram patterns *)
Definition histogramRe : regex := cat [Grp 1 (Plus Word); Lit " histogram:"].
Definition histogramEntryRe : regex :=
  cat [Plus Space;
       Grp 1 (Alt (cat [Plus Digit; Lit "-"; Plus Digit]) (cat [Plus Digit; Lit "+"]));
       Lit ":"; Plus Space; Grp 2 (Plus Digit)].

(** The field blocks of the loop body, in source order, up to the
    histogram blocks. *)
Definition blocks : list (string -> T -> T) :=
  [ when_match cpuUtilRe (fun matches => on_float (sub matches 1) set_CPUUtilization);
    when_match idleCyclesRe (fun matches =>
      on_float (sub matches 2) (fun val => set_IdleCycles (mcycles val)));
    when_match busyCyclesRe (fun matches m =>
      let m := on_float (sub matches 1) set_CPUUtilization m in
      on_float (sub matches 2) (fun val => set_BusyCycles (mcycles val)) m);
    when_match iterationsRe (fun matches m =>
      let m := on_uint (sub matches 1) set_Iterations m in
      on_float (sub matches 2) set_UsPerIteration m);
    when_match sleepIterRe (fun matches =>
      on_uint (sub matches 1) (fun val m =>
        let m := set_SleepIterations val m in
        set_BusyIterations (U64.sub (Iterations m) val) m));
    when_match cyclesPerItRe (fun matches => on_float (sub matches 1) set_CyclesPerIteration);
    when_match pktsPerItRe (fun matches => on_float (sub matches 1) set_PacketsPerIteration);
    when_match cyclesPerPktRe (fun matches => on_float (sub matches 1) set_CyclesPerPacket);
    when_match pktsPerBatchRe (fun matches => on_float (sub matches 1) set_PacketsPerBatch);
    when_match rxBatchRe (fun matches m =>
      let m := on_uint (sub matches 1) set_RxBatches m in
      let m := on_float (sub matches 2) set_AvgRxBatchSize m in
      on_uint (sub matches 3) set_MaxRxBatchSize m);
    when_match rxPacketsRe (fun matches => on_uint (sub matches 1) set_RxPackets);
    when_match txBatchRe (fun matches m =>
      let m := on_uint (sub matches 1) set_TxBatches m in
      on_float (sub matches 2) set_AvgTxBatchSize m);
    when_match txPacketsRe (fun matches => on_uint (sub matches 1) set_TxPackets);
    when_match maxVhostQRe (fun matches => on_uint (sub matches 1) set_MaxVhostQueueLength);
    when_match avgVhostQRe (fun matches => on_float (sub matches 1) set_AvgVhostQueueLength);
    when_match vhostFullRe (fun matches => on_uint (sub matches 1) set_VhostQueueFull);
    when_match upcallsRe (fun matches m =>
      let m := on_uint (sub matches 1) set_Upcalls m in
      on_float (sub matches 3) (fun val => set_UpcallCycles (mcycles val)) m);
    when_match avgUpcallRe (fun matches => on_float (sub matches 1) set_AvgUpcallCycles);
    when_match txRetriesRe (fun matches => on_uint (sub matches 1) set_VhostTxRetries);
    when_match txContentionRe (fun matches => on_uint (sub matches 1) set_VhostTxContention);
    when_match txIrqsRe (fun matches => on_uint (sub matches 1) set_VhostTxIrqs);
    when_match exactHitRe (fun matches => on_uint (sub matches 1) set_ExactMatchHit);
    when_match maskedHitRe (fun matches => on_uint (sub matches 1) set_MaskedHit);
    when_match missRe (fun matches => on_uint (sub matches 1) set_Miss);
    when_match lostRe (fun matches => on_uint (sub matches 1) set_Lost);
    when_match suspiciousRe (fun matches m =>
      let m := on_uint (sub matches 1) set_SuspiciousIterations m in
      on_float (sub matches 2) set_SuspiciousPercent m) ].

(** [currentHistogram] points at one of the three maps of the current
    record, or is nil. *)
Inductive histogram := CyclesH | PacketsH | BatchSizeH.

Definition select_histogram (histogramType : string) : option histogram :=
  if String.eqb histogramType "cycles" then Some CyclesH
  else if String.eqb histogramType "packets" then Some PacketsH
  else if String.eqb histogramType "batch" then Some BatchSizeH
  else None.

(** [( *currentHistogram)[key] = val]. *)
Definition histogram_store (h : histogram) (key : string) (val : Z) (m : T) : T :=
  match h with
  | CyclesH => set_CyclesHistogram (<[key := val]> (CyclesHistogram m)) m
  | PacketsH => set_PacketsHistogram (<[key := val]> (PacketsHistogram m)) m
  | BatchSizeH => set_BatchSizeHistogram (<[key := val]> (BatchSizeHistogram m)) m
  end.

Record state := {
  metrics : list T;
  currentMetric : option T;
  currentHistogram : option histogram
}.

(** The append of the header branch: [metrics = append(metrics, *currentMetric)]. *)
Definition flush (st : state) : list T :=
  match currentMetric st with
  | Some m => metrics st ++ [m]
  | None => metrics st
  end.

(** One iteration of [for scanner.Scan()]. *)
Definition step (st : state) (line : string) : state :=
  match FindStringSubmatch pmdHeaderRe line with
  | Some matches =>
      {| metrics := flush st; currentMetric := Some (fresh matches);
         currentHistogram := None |}
  | None =>
      match currentMetric st with
      | None => st
      | Some m0 =>
          let m := run_blocks blocks line m0 in
          match FindStringSubmatch histogramRe line with
          | Some matches =>
              {| metrics := metrics st; currentMetric := Some m;
                 currentHistogram := select_histogram (ToLower (sub matches 1)) |}
          | None =>
              match currentHistogram st with
              | Some h =>
                  {| metrics := metrics st;
                     currentMetric :=
                       Some (when_match histogramEntryRe (fun matches =>
                               on_uint (sub matches 2) (histogram_store h (sub matches 1)))
                               line m);
                     currentHistogram := Some h |}
              | None =>
                  {| metrics := metrics st; currentMetric := Some m;
                     currentHistogram := None |}
              end
          end
      end
  end.

(** The block after the loop: "Calculate total cycles and packets if not
      set", applied to the record that is current at end of input. *)
Definition derive (m : T) : T :=
  let m := if TotalCycles m =? 0
           then set_TotalCycles (U64.add (BusyCycles m) (IdleCycles m)) m else m in
  if (TotalPackets m =? 0) && (0 <? Iterations m)
  then set_TotalPackets
         (F64.to_uint64 (F64.mul (F64.of_Z (Iterations m)) (PacketsPerIteration m))) m
  else m.

Definition finish (st : state) : list T :=
  match currentMetric st with
  | Some m => metrics st ++ [derive m]
  | None => metrics st
  end.

Definition init : state :=
  {| metrics := []; currentMetric := None; currentHistogram := None |}.
End Enh.

Definition parseEnhancedPmdOutput (output : string) : list Enh.T :=
  Enh.finish (fold_left Enh.step (scanLines output) Enh.init).

(** [enrichWithStats]: the body holds comments only.  The slice argument
    shares its backing array with the caller's slice; the function returns
    that array's contents after the call. *)
Definition enrichWithStats (metrics : list Enh.T) (statsOutput : string) : list Enh.T :=
  metrics.

(** ** What the package reaches outside itself

    Commands run through [os/exec], the wall clock and the OVSDB client
    are effects on a host state [OS], passed explicitly. *)

(** The two results of [cmd.Output()]. *)
Record cmd_output := { stdout : string; cmd_err : error }.

(** [time.Duration] is an [int64] count of nanoseconds. *)
Definition Second : Z := 1000000000.

(** A [time.Time] wall-clock reading, as the nanoseconds elapsed since the
    Unix epoch. *)
Record Time := { UnixNano : Z }.

(** [t.Unix()]: the whole seconds since the epoch. *)
Definition Unix (t : Time) : Z := UnixNano t / Second.

(** [t.Add(d)].  (The library adds the whole seconds and the nanosecond
    rest of [d] separately and carries between them, which gives this
    instant; its saturation at the ends of the representable years is out
    of reach of a clock reading and is left out.) *)
Definition Time_Add (t : Time) (d : Z) : Time := {| UnixNano := UnixNano t + d |}.

(** Prometheus constant metrics. *)
Inductive ValueType := CounterValue | GaugeValue.
Record Desc := { fqName : string; variableLabels : list string }.
Record Metric := {
  desc : Desc;
  valueType : ValueType;
  value : float64;
  labelValues : list string
}.

Definition namespace : string := "ovs".

(** [prometheus.NewDesc(prometheus.BuildFQName(namespace, "", name), help, labels, nil)]. *)
Definition NewDesc (name : string) (labels : list string) : Desc :=
  {| fqName := namespace ++ "_" ++ name; variableLabels := labels |}.

(** Every call site passes as many label values as the descriptor has
    labels, so [MustNewConstMetric] never panics there. *)
Definition MustNewConstMetric (d : Desc) (vt : ValueType) (v : float64)
    (labels : list string) : Metric :=
  {| desc := d; valueType := vt; value := v; labelValues := labels |}.

(** The value of a label of a metric, by label name. *)
Fixpoint label_lookup (names values : list string) (name : string) : option string :=
  match names, values with
  | n :: names', v :: values' =>
      if String.eqb n name then Some v else label_lookup names' values' name
  | _, _ => None
  end.

Definition label (m : Metric) (name : string) : option string :=
  label_lookup (variableLabels (desc m)) (labelValues m) name.

Definition pmd_labels : list string := ["system_id"; "pmd_id"; "numa_id"].

Definition up := NewDesc "up" [].
Definition info := NewDesc "info"
  ["system_id"; "rundir"; "hostname"; "system_type"; "system_version";
   "ovs_version"; "db_version"].
Definition requestErrors := NewDesc "failed_requests_total" ["system_id"].
Definition requestsTotal := NewDesc "requests_total" ["system_id"].
Definition nextPoll := NewDesc "next_poll_timestamp_seconds" ["system_id"].
Definition pmdCyclesPerIteration := NewDesc "pmd_cycles_per_iteration" pmd_labels.
Definition pmdPacketsPerIteration := NewDesc "pmd_packets_per_iteration" pmd_labels.
Definition pmdCyclesPerPacket := NewDesc "pmd_cycles_per_packet" pmd_labels.
Definition pmdPacketsPerBatch := NewDesc "pmd_packets_per_batch" pmd_labels.
Definition pmdMaxVhostQueueLength := NewDesc "pmd_max_vhost_queue_length" pmd_labels.
Definition pmdUpcalls := NewDesc "pmd_upcalls_total" pmd_labels.
Definition pmdUpcallCycles := NewDesc "pmd_upcall_cycles_total" pmd_labels.
Definition vhostTxRetries := NewDesc "vhost_tx_retries_total" pmd_labels.
Definition vhostTxContention := NewDesc "vhost_tx_contention_total" pmd_labels.
Definition vhostTxIrqs := NewDesc "vhost_tx_irqs_total" pmd_labels.
Definition pmdIterations := NewDesc "pmd_iterations_total" pmd_labels.
Definition pmdBusyCycles := NewDesc "pmd_busy_cycles_total" pmd_labels.
Definition pmdCPUUtilization := NewDesc "pmd_cpu_utilization_ratio"
  ["system_id"; "pmd_id"; "numa_id"; "core_id"].
Definition pmdIdleCycles := NewDesc "pmd_idle_cycles_total" pmd_labels.
Definition pmdSleepIterations := NewDesc "pmd_sleep_iterations_total" pmd_labels.
Definition pmdRxBatches := NewDesc "pmd_rx_batches_total" pmd_labels.
Definition pmdRxPackets := NewDesc "pmd_rx_packets_total" pmd_labels.
Definition pmdAvgRxBatchSize := NewDesc "pmd_avg_rx_batch_size" pmd_labels.
Definition pmdMaxRxBatchSize := NewDesc "pmd_max_rx_batch_size" pmd_labels.
Definition pmdTxBatches := NewDesc "pmd_tx_batches_total" pmd_labels.
Definition pmdTxPackets := NewDesc "pmd_tx_packets_total" pmd_labels.
Definition pmdAvgTxBatchSize := NewDesc "pmd_avg_tx_batch_size" pmd_labels.
Definition pmdAvgVhostQueueLength := NewDesc "pmd_avg_vhost_queue_length" pmd_labels.
Definition pmdVhostQueueFull := NewDesc "pmd_vhost_queue_full_total" pmd_labels.
Definition pmdExactMatchHit := NewDesc "pmd_exact_match_hit_total" pmd_labels.
Definition pmdMaskedHit := NewDesc "pmd_masked_hit_total" pmd_labels.
Definition pmdMiss := NewDesc "pmd_miss_total" pmd_labels.
Definition pmdLost := NewDesc "pmd_lost_total" pmd_labels.
Definition pmdSuspiciousIterations := NewDesc "pmd_suspicious_iterations_total" pmd_labels.
Definition pmdSuspiciousPercent := NewDesc "pmd_suspicious_iterations_ratio" pmd_labels.
Definition datapathDrops := NewDesc "datapath_drops_total" ["system_id"; "drop_reason"].

(** The fields of [e.Client] the collectors read. *)
Record ClientInfo := {
  System_ID : string;
  System_RunDir : string;
  System_Hostname : string;
  System_Type : string;
  System_Version : string;
  Vswitch_Version : string;
  Vswitch_Schema_Version : string
}.

(** What the sub-collections of [GatherMetrics] that query the OVSDB
    client (system info, processes, log files, coverage, memory, datapath,
    interfaces, ports) leave behind: the metrics they append, how often
    they call [IncrementErrorCounter] and [IncrementRequestCounter], the
    final [upValue] and the client fields.  None of them returns from
    [GatherMetrics] or touches another field of the exporter. *)
Record client_report := {
  rep_metrics : list Metric;
  rep_errors : Z;
  rep_requests : Z;
  rep_up : Z;
  rep_client : ClientInfo
}.

Class Host (OS : Type) := {
  (** [exec.Command(name, arg...).Output()] *)
  Output : string -> list string -> OS -> cmd_output * OS;
  (** [time.Now()] *)
  Now : OS -> Time * OS;
  (** the OVSDB sub-collections of one rebuild *)
  ClientCollect : OS -> client_report * OS;
  (** The flow-cache block of [CollectPMDMetrics] reads fields of the
      record (EMC, SMC and megaflow counters) that the struct declaration
      in the sources does not have; the metrics it appends for one record
      are taken as given. *)
  FlowCacheBlock : string -> Enh.T -> list Metric
}.

(** [fmt.Errorf(prefix + ": %w", err)]. *)
Definition wrap_error (prefix msg : string) : string := prefix ++ ": " ++ msg.

(** The 24 drop counters [GetDropCounters] extracts. *)
Definition dropTypes : list string :=
  [ "datapath_drop_upcall_error";
    "datapath_drop_lock_error";
    "datapath_drop_rx_invalid_packet";
    "datapath_drop_meter";
    "datapath_drop_userspace_action_error";
    "datapath_drop_tunnel_push_error";
    "datapath_drop_tunnel_pop_error";
    "datapath_drop_recirc_error";
    "datapath_drop_invalid_port";
    "datapath_drop_invalid_tnl_port";
    "datapath_drop_sample_error";
    "datapath_drop_nsh_decap_error";
    "drop_action_of_pipeline";
    "drop_action_bridge_not_found";
    "drop_action_recursion_too_deep";
    "drop_action_too_many_resubmit";
    "drop_action_stack_too_deep";
    "drop_action_no_recirculation";
    "drop_action_recirculation_conflict";
    "drop_action_too_many_mpls_labels";
    "drop_action_invalid_tunnel_metadata";
    "drop_action_unsupported_packet_type";
    "drop_action_congestion";
    "drop_action_forwarding_disabled" ].

(** [dropTypeMap]: the list above turned into a [map[string]bool]. *)
Definition dropTypeMap : gmap string bool :=
  fold_left (fun acc dt => <[dt := true]> acc) dropTypes ∅.

(** [dropTypeMap[eventName]]: a missing key reads as false. *)
Definition is_drop_type (eventName : string) : bool :=
  default false (dropTypeMap !! eventName).

Definition coverageRe : regex :=
  cat [Bol; Grp 1 (Plus NotSpace); Plus Space; Grp 2 (Plus Digit)].

(** [strings.TrimSpace].  The ASCII fast path of the library is written
    out; as soon as the scan from either end meets a byte outside ASCII
    the library switches to trimming Unicode white space rune by rune,
    which is taken as given ([TrimFunc_IsSpace], [TrimRightFunc_IsSpace]). *)
Definition asciiSpace (c : ascii) : bool :=
  let n := nat_of_ascii c in
  (n =? 9)%nat || (n =? 10)%nat || (n =? 11)%nat || (n =? 12)%nat
  || (n =? 13)%nat || (n =? 32)%nat.

Definition RuneSelf : nat := 128.

Section TrimSpace.
Variable TrimFunc_IsSpace : string -> string.
Variable TrimRightFunc_IsSpace : string -> string.

(** The scan from the end: the text without its trailing ASCII spaces,
    and whether the scan stopped at a byte outside ASCII. *)
Fixpoint trim_right (s : string) : string * bool :=
  match s with
  | EmptyString => (EmptyString, false)
  | String c s' =>
      match trim_right s' with
      | (EmptyString, _) =>
          if (RuneSelf <=? nat_of_ascii c)%nat then (String c EmptyString, true)
          else if asciiSpace c then (EmptyString, false)
          else (String c EmptyString, false)
      | (t, unicode) => (String c t, unicode)
      end
  end.

Fixpoint TrimSpace (s : string) : string :=
  match s with
  | EmptyString => EmptyString
  | String c s' =>
      if (RuneSelf <=? nat_of_ascii c)%nat then TrimFunc_IsSpace s
      else if asciiSpace c then TrimSpace s'
      else match trim_right s with
           | (t, true) => TrimRightFunc_IsSpace t
           | (t, false) => t
           end
  end.
End TrimSpace.

(** ** The exporter *)

Record Exporter := {
  Client : ClientInfo;
  pollInterval : Z;
  errors : Z;
  totalRequests : Z;
  nextCollectionTicker : Z;
  metrics : list Metric
}.

Abbreviation exporter_fields :=
  (tt, Client, pollInterval, errors, totalRequests, nextCollectionTicker, metrics).

Ltac upd_exporter r f v :=
  let t := with_field Build_Exporter constr:(exporter_fields) r f v in exact t.

Definition set_Client (v : ClientInfo) (e : Exporter) : Exporter := ltac:(upd_exporter e Client v).
Definition set_errors (v : Z) (e : Exporter) : Exporter := ltac:(upd_exporter e errors v).
Definition set_totalRequests (v : Z) (e : Exporter) : Exporter := ltac:(upd_exporter e totalRequests v).
Definition set_nextCollectionTicker (v : Z) (e : Exporter) : Exporter :=
  ltac:(upd_exporter e nextCollectionTicker v).
Definition set_metrics (v : list Metric) (e : Exporter) : Exporter := ltac:(upd_exporter e metrics v).

(** [e.metrics = append(e.metrics, m)]. *)
Definition append_metric (m : Metric) (e : Exporter) : Exporter :=
  set_metrics (metrics e ++ [m]) e.

Definition append_metrics (ms : list Metric) (e : Exporter) : Exporter :=
  set_metrics (metrics e ++ ms) e.

(** [atomic.AddInt64(&e.errors, 1)] under [errorsLocker]. *)
Definition IncrementErrorCounter (e : Exporter) : Exporter :=
  set_errors (I64.add (errors e) 1) e.

Definition IncrementRequestCounter (e : Exporter) : Exporter :=
  set_totalRequests (I64.add (totalRequests e) 1) e.

Definition SetPollInterval (i : Z) (e : Exporter) : Exporter :=
  ltac:(upd_exporter e pollInterval i).

Definition ovs_appctl : string := "ovs-appctl".

Section Collectors.
Context {OS : Type} `{Host OS}.
Variable TrimFunc_IsSpace : string -> string.
Variable TrimRightFunc_IsSpace : string -> string.

(** [GetPmdPerfMetrics] *)
Definition GetPmdPerfMetrics (os : OS) : (list Perf.T * error) * OS :=
  let '(out, os) := Output ovs_appctl ["dpif-netdev/pmd-perf-show"] os in
  match cmd_err out with
  | Some msg =>
      if Contains msg "exit status" then (([], None), os)
      else (([], Some (wrap_error "failed to execute pmd-perf-show" msg)), os)
  | None => (parsePmdPerfOutput (stdout out), os)
  end.

(** [GetPmdStatsMetrics] *)
Definition GetPmdStatsMetrics (os : OS) : (list Perf.T * error) * OS :=
  let '(out, os) := Output ovs_appctl ["dpif-netdev/pmd-stats-show"] os in
  match cmd_err out with
  | Some msg =>
      if Contains msg "exit status" then (([], None), os)
      else (([], Some (wrap_error "failed to execute pmd-stats-show" msg)), os)
  | None => (parsePmdPerfOutput (stdout out), os)
  end.

(** [GetEnhancedPmdMetrics] *)
Definition GetEnhancedPmdMetrics (os : OS) : (list Enh.T * error) * OS :=
  let '(out, os) := Output ovs_appctl ["dpif-netdev/pmd-perf-show"] os in
  match cmd_err out with
  | Some msg =>
      if Contains msg "exit status" then (([], None), os)
      else (([], Some (wrap_error "failed to execute pmd-perf-show" msg)), os)
  | None =>
      let metrics := parseEnhancedPmdOutput (stdout out) in
      let '(statsOut, os) := Output ovs_appctl ["dpif-netdev/pmd-stats-show"] os in
      let metrics :=
        match cmd_err statsOut with
        | None => enrichWithStats metrics (stdout statsOut)
        | Some _ => metrics
        end in
      ((metrics, None), os)
  end.

(** One iteration of the scan loop of [GetDropCounters]. *)
Definition drop_step (dropCounters : gmap string Z) (text : string) : gmap string Z :=
  let line := TrimSpace TrimFunc_IsSpace TrimRightFunc_IsSpace text in
  match FindStringSubmatch coverageRe line with
  | Some matches =>
      let eventName := sub matches 1 in
      if is_drop_type eventName then
        match ParseUint (sub matches 2) with
        | Some val => <[eventName := val]> dropCounters
        | None => dropCounters
        end
      else dropCounters
  | None => dropCounters
  end.

Definition parseDropCounters (output : string) : gmap string Z :=
  fold_left drop_step (scanLines output) ∅.

(** [GetDropCounters]; the nil map of the error return is the empty map. *)
Definition GetDropCounters (os : OS) : (gmap string Z * error) * OS :=
  let '(out, os) := Output ovs_appctl ["coverage/show"] os in
  match cmd_err out with
  | Some msg => ((∅, Some (wrap_error "failed to get coverage" msg)), os)
  | None => ((parseDropCounters (stdout out), None), os)
  end.

(** [collectDropCounters].  The failure branch logs at debug level and
    returns.  Go ranges over a map in an order of its choosing; here the
    entries are visited in the order of [map_to_list]. *)
Definition collectDropCounters (e : Exporter) (os : OS) : Exporter * OS :=
  let '((dropCounters, err), os) := GetDropCounters os in
  match err with
  | Some _ => (e, os)
  | None =>
      (fold_left (fun e '(dropReason, count) =>
         append_metric (MustNewConstMetric datapathDrops CounterValue (F64.of_Z count)
                          [System_ID (Client e); dropReason]) e)
         (map_to_list dropCounters) e, os)
  end.

(** [collectBasicPMDMetrics]: the metrics of one record, then the function. *)
Definition basic_metrics (id : string) (pmd : Perf.T) : list Metric :=
  let l := [id; Perf.PmdID pmd; Perf.NumaID pmd] in
  [ MustNewConstMetric pmdCyclesPerIteration GaugeValue (Perf.CyclesPerIteration pmd) l;
    MustNewConstMetric pmdPacketsPerIteration GaugeValue (Perf.PacketsPerIteration pmd) l;
    MustNewConstMetric pmdCyclesPerPacket GaugeValue (Perf.CyclesPerPacket pmd) l;
    MustNewConstMetric pmdPacketsPerBatch GaugeValue (Perf.PacketsPerBatch pmd) l;
    MustNewConstMetric pmdMaxVhostQueueLength GaugeValue (F64.of_Z (Perf.MaxVhostQueueLength pmd)) l;
    MustNewConstMetric pmdUpcalls CounterValue (F64.of_Z (Perf.Upcalls pmd)) l;
    MustNewConstMetric pmdUpcallCycles CounterValue (F64.of_Z (Perf.UpcallCycles pmd)) l;
    MustNewConstMetric vhostTxRetries CounterValue (F64.of_Z (Perf.TxRetries pmd)) l;
    MustNewConstMetric vhostTxContention CounterValue (F64.of_Z (Perf.TxContention pmd)) l;
    MustNewConstMetric vhostTxIrqs CounterValue (F64.of_Z (Perf.TxIrqs pmd)) l;
    MustNewConstMetric pmdIterations CounterValue (F64.of_Z (Perf.Iterations pmd)) l;
    MustNewConstMetric pmdBusyCycles CounterValue (F64.of_Z (Perf.BusyCycles pmd)) l ].

Definition collectBasicPMDMetrics (e : Exporter) (os : OS) : Exporter * OS :=
  let '((pmdMetrics, err), os) := GetPmdPerfMetrics os in
  match err, pmdMetrics with
  | Some _, _ => (e, os)
  | None, [] => (e, os)
  | None, _ =>
      (fold_left (fun e pmd => append_metrics (basic_metrics (System_ID (Client e)) pmd) e)
         pmdMetrics e, os)
  end.

(** [CollectPMDMetrics]: the metrics of one record (one pass of the loop
    body), then the function. *)
Definition record_metrics (id : string) (pmd : Enh.T) : list Metric :=
  let l := [id; Enh.PmdID pmd; Enh.NumaID pmd] in
  [ MustNewConstMetric pmdCPUUtilization GaugeValue
      (F64.div (Enh.CPUUtilization pmd) F64.hundred)
      [id; Enh.PmdID pmd; Enh.NumaID pmd; Enh.CoreID pmd];
    MustNewConstMetric pmdIdleCycles CounterValue (F64.of_Z (Enh.IdleCycles pmd)) l;
    MustNewConstMetric pmdSleepIterations CounterValue (F64.of_Z (Enh.SleepIterations pmd)) l;
    MustNewConstMetric pmdCyclesPerIteration GaugeValue (Enh.CyclesPerIteration pmd) l;
    MustNewConstMetric pmdPacketsPerIteration GaugeValue (Enh.PacketsPerIteration pmd) l;
    MustNewConstMetric pmdCyclesPerPacket GaugeValue (Enh.CyclesPerPacket pmd) l;
    MustNewConstMetric pmdPacketsPerBatch GaugeValue (Enh.PacketsPerBatch pmd) l;
    MustNewConstMetric pmdRxBatches CounterValue (F64.of_Z (Enh.RxBatches pmd)) l;
    MustNewConstMetric pmdRxPackets CounterValue (F64.of_Z (Enh.RxPackets pmd)) l;
    MustNewConstMetric pmdAvgRxBatchSize GaugeValue (Enh.AvgRxBatchSize pmd) l;
    MustNewConstMetric pmdMaxRxBatchSize GaugeValue (F64.of_Z (Enh.MaxRxBatchSize pmd)) l;
    MustNewConstMetric pmdTxBatches CounterValue (F64.of_Z (Enh.TxBatches pmd)) l;
    MustNewConstMetric pmdTxPackets CounterValue (F64.of_Z (Enh.TxPackets pmd)) l;
    MustNewConstMetric pmdAvgTxBatchSize GaugeValue (Enh.AvgTxBatchSize pmd) l;
    MustNewConstMetric pmdMaxVhostQueueLength GaugeValue (F64.of_Z (Enh.MaxVhostQueueLength pmd)) l;
    MustNewConstMetric pmdAvgVhostQueueLength GaugeValue (Enh.AvgVhostQueueLength pmd) l;
    MustNewConstMetric pmdVhostQueueFull CounterValue (F64.of_Z (Enh.VhostQueueFull pmd)) l;
    MustNewConstMetric pmdUpcalls CounterValue (F64.of_Z (Enh.Upcalls pmd)) l;
    MustNewConstMetric pmdUpcallCycles CounterValue (F64.of_Z (Enh.UpcallCycles pmd)) l;
    MustNewConstMetric vhostTxRetries CounterValue (F64.of_Z (Enh.VhostTxRetries pmd)) l;
    MustNewConstMetric vhostTxContention CounterValue (F64.of_Z (Enh.VhostTxContention pmd)) l;
    MustNewConstMetric vhostTxIrqs CounterValue (F64.of_Z (Enh.VhostTxIrqs pmd)) l;
    MustNewConstMetric pmdIterations CounterValue (F64.of_Z (Enh.Iterations pmd)) l;
    MustNewConstMetric pmdBusyCycles CounterValue (F64.of_Z (Enh.BusyCycles pmd)) l;
    MustNewConstMetric pmdExactMatchHit CounterValue (F64.of_Z (Enh.ExactMatchHit pmd)) l;
    MustNewConstMetric pmdMaskedHit CounterValue (F64.of_Z (Enh.MaskedHit pmd)) l;
    MustNewConstMetric pmdMiss CounterValue (F64.of_Z (Enh.Miss pmd)) l;
    MustNewConstMetric pmdLost CounterValue (F64.of_Z (Enh.Lost pmd)) l ]
  ++ (if 0 <? Enh.SuspiciousIterations pmd then
        [ MustNewConstMetric pmdSuspiciousIterations CounterValue
            (F64.of_Z (Enh.SuspiciousIterations pmd)) l;
          MustNewConstMetric pmdSuspiciousPercent GaugeValue
            (F64.div (Enh.SuspiciousPercent pmd) F64.hundred) l ]
      else []).

Definition enhanced_metrics (id : string) (pmd : Enh.T) : list Metric :=
  record_metrics id pmd ++ FlowCacheBlock id pmd.

Definition CollectPMDMetrics (e : Exporter) (os : OS) : Exporter * OS :=
  let '((enhancedMetrics, err), os) := GetEnhancedPmdMetrics os in
  match err, enhancedMetrics with
  | Some _, _ => collectBasicPMDMetrics e os
  | None, [] => (e, os)
  | None, _ =>
      let e := fold_left (fun e pmd =>
                 append_metrics (enhanced_metrics (System_ID (Client e)) pmd) e)
                 enhancedMetrics e in
      collectDropCounters e os
  end.

(** The sub-collections of [GatherMetrics], from the clearing of
    [e.metrics] to the append of the next-poll metric, in the order of
    the source. *)
Definition collect_all (e : Exporter) (os : OS) : Exporter * OS :=
  (* if len(e.metrics) > 0 { e.metrics = e.metrics[:0] } *)
  let e := if (0 <? length (metrics e))%nat then set_metrics [] e else e in
  let '(rep, os) := ClientCollect os in
  let e := set_Client (rep_client rep) e in
  let e := set_errors (I64.wrap (errors e + rep_errors rep)) e in
  let e := set_totalRequests (I64.wrap (totalRequests e + rep_requests rep)) e in
  let e := append_metrics (rep_metrics rep) e in
  let id := System_ID (Client e) in
  let e := append_metric (MustNewConstMetric up GaugeValue (F64.of_Z (rep_up rep)) []) e in
  let e := append_metric (MustNewConstMetric info GaugeValue (F64.of_Z 1)
             [id; System_RunDir (Client e); System_Hostname (Client e);
              System_Type (Client e); System_Version (Client e);
              Vswitch_Version (Client e); Vswitch_Schema_Version (Client e)]) e in
  let e := append_metric (MustNewConstMetric requestErrors CounterValue
             (F64.of_Z (errors e)) [id]) e in
  let e := append_metric (MustNewConstMetric requestsTotal CounterValue
             (F64.of_Z (totalRequests e)) [id]) e in
  let '(e, os) := CollectPMDMetrics e os in
  (append_metric (MustNewConstMetric nextPoll GaugeValue
                    (F64.of_Z (nextCollectionTicker e)) [id]) e, os).

(** [time.Now().Add(time.Duration(e.pollInterval) * time.Second).Unix()] *)
Definition next_ticker (now : Time) (e : Exporter) : Z :=
  Unix (Time_Add now (I64.mul (pollInterval e) Second)).

(** The part of [GatherMetrics] behind the ticker test.  The exclusive
    lock taken there is part of the thread model further down. *)
Definition rebuild (e : Exporter) (os : OS) : Exporter * OS :=
  let '(e, os) := collect_all e os in
  let '(now, os) := Now os in
  (set_nextCollectionTicker (next_ticker now e) e, os).

(** [GatherMetrics] *)
Definition GatherMetrics (e : Exporter) (os : OS) : Exporter * OS :=
  let '(now, os) := Now os in
  if Unix now <? nextCollectionTicker e then (e, os)
  else rebuild e os.

(** [Collect]: the metrics sent on the channel, in order. *)
Definition Collect (e : Exporter) (os : OS) : list Metric * (Exporter * OS) :=
  let '(e, os) := GatherMetrics e os in
  let id := System_ID (Client e) in
  if (length (metrics e) =? 0)%nat then
    ([ MustNewConstMetric up GaugeValue (F64.of_Z 0) [];
       MustNewConstMetric info GaugeValue (F64.of_Z 1)
         [id; System_RunDir (Client e); System_Hostname (Client e);
          System_Type (Client e); System_Version (Client e);
          Vswitch_Version (Client e); Vswitch_Schema_Version (Client e)];
       MustNewConstMetric requestErrors CounterValue (F64.of_Z (errors e)) [id];
       MustNewConstMetric requestsTotal CounterValue (F64.of_Z (totalRequests e)) [id];
       MustNewConstMetric nextPoll GaugeValue (F64.of_Z (nextCollectionTicker e)) [id] ],
     (e, os))
  else (metrics e, (e, os)).
End Collectors.

(** ** A scripted host

    A host whose commands answer from a fixed table, whose clock reads a
    prepared list of instants (the last one repeats) and which keeps a log
    of every source it was asked to run.  It instantiates [Host] for the
    concrete runs below. *)

Inductive source := Command (argv : list string) | Ovsdb.

Record Sim := {
  sim_clock : list Time;
  sim_commands : list string -> cmd_output;
  sim_client : client_report;
  sim_log : list source
}.

Definition sim_run (name : string) (args : list string) (os : Sim) : cmd_output * Sim :=
  (sim_commands os args,
   {| sim_clock := sim_clock os; sim_commands := sim_commands os;
      sim_client := sim_client os; sim_log := Command (name :: args) :: sim_log os |}).

Definition sim_now (os : Sim) : Time * Sim :=
  match sim_clock os with
  | [] => ({| UnixNano := 0 |}, os)
  | [t] => (t, os)
  | t :: ts =>
      (t, {| sim_clock := ts; sim_commands := sim_commands os;
             sim_client := sim_client os; sim_log := sim_log os |})
  end.

Definition sim_collect (os : Sim) : client_report * Sim :=
  (sim_client os,
   {| sim_clock := sim_clock os; sim_commands := sim_commands os;
      sim_client := sim_client os; sim_log := Ovsdb :: sim_log os |}).

#[export] Instance sim_host : Host Sim := {|
  Output := sim_run;
  Now := sim_now;
  ClientCollect := sim_collect;
  FlowCacheBlock := fun _ _ => []
|}.

Definition ok (text : string) : cmd_output := {| stdout := text; cmd_err := None |}.
Definition failed (msg : string) : cmd_output := {| stdout := ""; cmd_err := Some msg |}.

Definition no_client : ClientInfo :=
  {| System_ID := "sys"; System_RunDir := ""; System_Hostname := "";
     System_Type := ""; System_Version := ""; Vswitch_Version := "";
     Vswitch_Schema_Version := "" |}.

Definition quiet_report : client_report :=
  {| rep_metrics := []; rep_errors := 0; rep_requests := 0; rep_up := 1;
     rep_client := no_client |}.

Definition at_second (s : Z) : Time := {| UnixNano := s * Second |}.

(** ** Threads

    [Collect] is called from several goroutines at once.  The model keeps
    what they share (the slice [e.metrics], the ticker and the embedded
    [sync.RWMutex]) and, for each call, how far it has come.  A rebuild
    clears the slice in place, appends to it metric by metric and sets the
    ticker, all under the write lock; the reader part of [Collect] takes
    the read lock and sends what the slice holds.  [Lock] needs the mutex
    free of readers and writer, [RLock] needs it free of a writer.  The
    clock only moves forward. *)

Inductive pc :=
| AtTicker                            (* GatherMetrics entered *)
| AtLock                            (* at e.Lock() *)
| Refilling (todo : list Metric)    (* write lock held, metrics left to append *)
| AtRLock                           (* at e.RLock() *)
| Sending                           (* read lock held *)
| Returned (sent : list Metric).    (* Collect returned *)

Record RWMutex := { writer : bool; readers : nat }.

Record config := {
  c_now : Z;
  c_interval : Z;
  c_ticker : Z;
  c_metrics : list Metric;
  c_lock : RWMutex;
  c_rebuilds : list (list Metric);  (* results of the finished rebuilds, newest first *)
  c_threads : list pc
}.

Definition with_thread (c : config) (i : nat) (p : pc) : list pc := <[i := p]> (c_threads c).

Inductive thread_step (i : nat) : config -> config -> Prop :=
| ticker_ahead c :
    c_threads c !! i = Some AtTicker ->
    c_now c < c_ticker c ->
    thread_step i c
      {| c_now := c_now c; c_interval := c_interval c; c_ticker := c_ticker c;
         c_metrics := c_metrics c; c_lock := c_lock c; c_rebuilds := c_rebuilds c;
         c_threads := with_thread c i AtRLock |}
| ticker_due c :
    c_threads c !! i = Some AtTicker ->
    ¬ c_now c < c_ticker c ->
    thread_step i c
      {| c_now := c_now c; c_interval := c_interval c; c_ticker := c_ticker c;
         c_metrics := c_metrics c; c_lock := c_lock c; c_rebuilds := c_rebuilds c;
         c_threads := with_thread c i AtLock |}
| lock_and_clear c built :
    c_threads c !! i = Some AtLock ->
    c_lock c = {| writer := false; readers := 0 |} ->
    thread_step i c
      {| c_now := c_now c; c_interval := c_interval c; c_ticker := c_ticker c;
         c_metrics := []; c_lock := {| writer := true; readers := 0 |};
         c_rebuilds := c_rebuilds c;
         c_threads := with_thread c i (Refilling built) |}
| append_one c m todo :
    c_threads c !! i = Some (Refilling (m :: todo)) ->
    thread_step i c
      {| c_now := c_now c; c_interval := c_interval c; c_ticker := c_ticker c;
         c_metrics := c_metrics c ++ [m]; c_lock := c_lock c;
         c_rebuilds := c_rebuilds c;
         c_threads := with_thread c i (Refilling todo) |}
| tick_and_unlock c :
    c_threads c !! i = Some (Refilling []) ->
    thread_step i c
      {| c_now := c_now c; c_interval := c_interval c;
         c_ticker := c_now c + c_interval c;
         c_metrics := c_metrics c; c_lock := {| writer := false; readers := 0 |};
         c_rebuilds := c_metrics c :: c_rebuilds c;
         c_threads := with_thread c i AtRLock |}
| rlock c :
    c_threads c !! i = Some AtRLock ->
    writer (c_lock c) = false ->
    thread_step i c
      {| c_now := c_now c; c_interval := c_interval c; c_ticker := c_ticker c;
         c_metrics := c_metrics c;
         c_lock := {| writer := false; readers := S (readers (c_lock c)) |};
         c_rebuilds := c_rebuilds c;
         c_threads := with_thread c i Sending |}
| send_and_runlock c :
    c_threads c !! i = Some Sending ->
    thread_step i c
      {| c_now := c_now c; c_interval := c_interval c; c_ticker := c_ticker c;
         c_metrics := c_metrics c;
         c_lock := {| writer := writer (c_lock c); readers := pred (readers (c_lock c)) |};
         c_rebuilds := c_rebuilds c;
         c_threads := with_thread c i (Returned (c_metrics c)) |}.

Inductive step : config -> config -> Prop :=
| step_thread i c c' : thread_step i c c' -> step c c'
| step_clock c :
    step c {| c_now := c_now c + 1; c_interval := c_interval c; c_ticker := c_ticker c;
              c_metrics := c_metrics c; c_lock := c_lock c; c_rebuilds := c_rebuilds c;
              c_threads := c_threads c |}.

(** [n] calls of [Collect] about to start, on an exporter that holds the
    result [snapshot] of its last rebuild. *)
Definition start (now interval ticker : Z) (snapshot : list Metric) (n : nat) : config :=
  {| c_now := now; c_interval := interval; c_ticker := ticker;
     c_metrics := snapshot; c_lock := {| writer := false; readers := 0 |};
     c_rebuilds := [snapshot]; c_threads := replicate n AtTicker |}.

Definition refilling (p : pc) : Prop := ∃ todo, p = Refilling todo.

(** A call is blocked when it has not returned and cannot move. *)
Definition blocked (i : nat) (c : config) : Prop :=
  (∃ p, c_threads c !! i = Some p ∧ ∀ sent, p ≠ Returned sent) ∧
  ∀ c', ¬ thread_step i c c'.

(** ** [NewExporter] *)

(** [NewExporter].  The struct literal sets [timeout] only, so the
    counters, the poll interval and the ticker start at zero and the
    metrics slice is nil; [client] is what [ovsdb.NewOvsClient()] returns.
    ([timeout] and [logger] are not read by the functions modelled here.) *)
Definition NewExporter (client : ClientInfo) : Exporter :=
  {| Client := client; pollInterval := 0; errors := 0; totalRequests := 0;
     nextCollectionTicker := 0; metrics := [] |}.

(** ** The system id

    [GetSystemIDFromDatabase], [GetSystemIDFromFile] and [GetSystemID]. *)

(** The double quote. *)
Definition quote : ascii := ascii_of_nat 34.

(** [strings.Trim(s, cutset)] for a cutset of one ASCII byte: the library
    strips that byte from the right end, then from the left end. *)
Fixpoint trimLeftByte (s : string) (c : ascii) : string :=
  match s with
  | String a s' => if Ascii.eqb a c then trimLeftByte s' c else s
  | EmptyString => EmptyString
  end.

Fixpoint trimRightByte (s : string) (c : ascii) : string :=
  match s with
  | EmptyString => EmptyString
  | String a s' =>
      match trimRightByte s' c with
      | EmptyString => if Ascii.eqb a c then EmptyString else String a EmptyString
      | t => String a t
      end
  end.

Definition Trim_byte (s : string) (c : ascii) : string :=
  trimLeftByte (trimRightByte s c) c.

(** What [os.Open] and the reads behind it give: the bytes of the file up
    to its end or up to the first failing read, and the error of that
    read ([None] at a plain end of file).  A read of an [os.File] returns
    bytes or an error, never both, so the scanner has delivered every
    complete line before it meets the error. *)
Record file := { file_bytes : string; file_err : error }.

Class Files (OS : Type) := {
  (** [os.Open(path)], the reads of the scanner and the deferred
      [Close]: the file, or the text of the error of [Open] *)
  Open : string -> OS -> (file + string) * OS
}.

(** The text ends inside a line: it is not empty and its last byte is no
    newline. *)
Fixpoint unterminated (s : string) : bool :=
  match s with
  | EmptyString => false
  | String c EmptyString => negb (Ascii.eqb c newline)
  | String _ s' => unterminated s'
  end.

Definition ErrTooLong : string := "bufio.Scanner: token too long".
Definition default_system_id_path : string := "/etc/openvswitch/system-id.conf".
Definition ovs_vsctl : string := "ovs-vsctl".
Definition get_system_id : list string :=
  ["get"; "Open_vSwitch"; "."; "external-ids:system-id"].

Definition is_empty (s : string) : bool :=
  match s with EmptyString => true | _ => false end.

(** [e.Client.System.ID = systemID] *)
Definition set_System_ID (systemID : string) (e : Exporter) : Exporter :=
  set_Client {| System_ID := systemID;
                System_RunDir := System_RunDir (Client e);
                System_Hostname := System_Hostname (Client e);
                System_Type := System_Type (Client e);
                System_Version := System_Version (Client e);
                Vswitch_Version := Vswitch_Version (Client e);
                Vswitch_Schema_Version := Vswitch_Schema_Version (Client e) |} e.

Section SystemID.
Context {OS : Type} `{Host OS} `{Files OS}.
Variable TrimFunc_IsSpace : string -> string.
Variable TrimRightFunc_IsSpace : string -> string.

(** [GetSystemIDFromDatabase] *)
Definition GetSystemIDFromDatabase (os : OS) : (string * error) * OS :=
  let '(out, os) := Output ovs_vsctl get_system_id os in
  match cmd_err out with
  | Some msg => ((EmptyString, Some (wrap_error "failed to get system-id from database" msg)), os)
  | None =>
      let systemID := TrimSpace TrimFunc_IsSpace TrimRightFunc_IsSpace (stdout out) in
      let systemID := Trim_byte systemID quote in
      if is_empty systemID then ((EmptyString, Some "system-id is empty in database"), os)
      else ((systemID, None), os)
  end.

(** The loop [for scanner.Scan() { systemID = TrimSpace(scanner.Text());
    if systemID != "" { break } }] over the lines left, and what
    [scanner.Err()] returns behind it.  [open_end] says that the last of
    the lines has no newline behind it: the scanner delivers it only after
    the read that ended the file, so the error of that read, if any, is
    set by then. *)
Fixpoint scan_system_id (ls : list string) (open_end : bool) (read_err : error)
    : string * error :=
  match ls with
  | [] => (EmptyString, read_err)
  | l :: ls' =>
      if fits_buffer l then
        let systemID := TrimSpace TrimFunc_IsSpace TrimRightFunc_IsSpace (dropCR l) in
        if is_empty systemID then scan_system_id ls' open_end read_err
        else (systemID, match ls' with
                        | [] => if open_end then read_err else None
                        | _ => None
                        end)
      else (EmptyString, Some ErrTooLong)
  end.

(** [GetSystemIDFromFile] *)
Definition GetSystemIDFromFile (filepath : string) (os : OS) : (string * error) * OS :=
  let '(opened, os) := Open filepath os in
  match opened with
  | inr msg => ((EmptyString, Some (wrap_error "failed to open system-id file" msg)), os)
  | inl f =>
      let '(systemID, err) :=
        scan_system_id (split_lines (file_bytes f)) (unterminated (file_bytes f))
                       (file_err f) in
      match err with
      | Some msg => ((EmptyString, Some (wrap_error "error reading system-id file" msg)), os)
      | None =>
          if is_empty systemID then ((EmptyString, Some "system-id is empty in file"), os)
          else ((systemID, None), os)
      end
  end.

(** [GetSystemID].  [configured] is
    [e.Client.Database.Vswitch.File.SystemID.Path]. *)
Definition GetSystemID (configured : string) (e : Exporter) (os : OS)
    : error * (Exporter * OS) :=
  let '((systemID, err), os) := GetSystemIDFromDatabase os in
  if match err with None => true | Some _ => false end && negb (is_empty systemID) then
    (None, (set_System_ID systemID e, os))
  else
    let systemIDPath :=
      if is_empty configured then default_system_id_path else configured in
    let '((systemID, err), os) := GetSystemIDFromFile systemIDPath os in
    match err with
    | Some msg =>
        (Some (wrap_error "failed to get system-id from both database and file" msg),
         (e, os))
    | None => (None, (set_System_ID systemID e, os))
    end.
End SystemID.

(** A scripted host with files. *)
Record Disk := {
  disk_host : Sim;
  disk_files : string -> file + string;
  disk_opened : list string
}.

Definition with_host (d : Disk) (s : Sim) : Disk :=
  {| disk_host := s; disk_files := disk_files d; disk_opened := disk_opened d |}.

#[export] Instance disk_host_host : Host Disk := {|
  Output := fun name args d =>
    let '(out, s) := sim_run name args (disk_host d) in (out, with_host d s);
  Now := fun d => let '(t, s) := sim_now (disk_host d) in (t, with_host d s);
  ClientCollect := fun d => let '(r, s) := sim_collect (disk_host d) in (r, with_host d s);
  FlowCacheBlock := fun _ _ => []
|}.

#[export] Instance disk_files_files : Files Disk := {|
  Open := fun path d =>
    (disk_files d path,
     {| disk_host := disk_host d; disk_files := disk_files d;
        disk_opened := path :: disk_opened d |})
|}.

Definition plain_file (bytes : string) : file + string :=
  inl {| file_bytes := bytes; file_err := None |}.

(** A host whose database command answers [db] and whose files all read
    [conf]. *)
Definition disk (db : cmd_output) (conf : file + string) : Disk :=
  {| disk_host := {| sim_clock := []; sim_commands := fun _ => db;
                     sim_client := quiet_report; sim_log := [] |};
     disk_files := fun _ => conf; disk_opened := [] |}.

(** ** [Describe]

    The descriptors of the exporter that the PMD collector does not use,
    and the list [Describe] sends, in the order of the source. *)

Definition pid := NewDesc "pid" ["system_id"; "component"; "user"; "group"].
Definition logFileSize := NewDesc "log_file_size_bytes"
  ["system_id"; "component"; "filename"].
Definition dbFileSize := NewDesc "db_file_size_bytes"
  ["system_id"; "component"; "filename"].
Definition logEventStat := NewDesc "log_events"
  ["system_id"; "component"; "severity"; "source"].
Definition networkPortUp := NewDesc "network_port_up" ["system_id"; "component"; "usage"].
Definition covAvg := NewDesc "coverage_avg" ["system_id"; "component"; "event"; "interval"].
Definition covTotal := NewDesc "coverage_total" ["system_id"; "component"; "event"].
Definition memUsage := NewDesc "memory_usage_bytes" ["system_id"; "component"; "facility"].
Definition dpInterface := NewDesc "dp_interface"
  ["system_id"; "datapath"; "bridge"; "name"; "ofport"; "index"; "port_type"].
Definition dpBridgeInterfaceTotal := NewDesc "dp_bridge_interfaces"
  ["system_id"; "datapath"; "bridge"].
Definition dpLookupsHit := NewDesc "dp_lookups_hit_total" ["system_id"; "datapath"].
Definition dpFlowsTotal := NewDesc "dp_flows" ["system_id"; "datapath"].
Definition dpLookupsMissed := NewDesc "dp_lookups_missed_total" ["system_id"; "datapath"].
Definition dpMasksHit := NewDesc "dp_masks_hit_total" ["system_id"; "datapath"].
Definition dpMasksTotal := NewDesc "dp_masks_total" ["system_id"; "datapath"].
Definition dpMasksHitRatio := NewDesc "dp_masks_hit_ratio" ["system_id"; "datapath"].
Definition dpLookupsLost := NewDesc "dp_lookups_lost_total" ["system_id"; "datapath"].
Definition interfaceMain := NewDesc "interface" ["system_id"; "uuid"; "name"].
Definition interfaceAdminState := NewDesc "interface_admin_state" ["system_id"; "uuid"].
Definition interfaceLinkState := NewDesc "interface_link_state" ["system_id"; "uuid"].
Definition interfaceIngressPolicingBurst := NewDesc "interface_ingress_policing_burst_kilobits"
  ["system_id"; "uuid"].
Definition interfaceIngressPolicingRate := NewDesc "interface_ingress_policing_rate_kilobits_per_second"
  ["system_id"; "uuid"].
Definition interfaceMacInUse := NewDesc "interface_mac_in_use"
  ["system_id"; "uuid"; "mac_address"].
Definition interfaceMtu := NewDesc "interface_mtu_bytes" ["system_id"; "uuid"].
Definition interfaceDuplex := NewDesc "interface_duplex" ["system_id"; "uuid"].
Definition interfaceOfPort := NewDesc "interface_openflow_port" ["system_id"; "uuid"].
Definition interfaceIfIndex := NewDesc "interface_index" ["system_id"; "uuid"].
Definition interfaceLocalIndex := NewDesc "interface_local_index" ["system_id"; "uuid"].
Definition interfaceStatRxCrcError := NewDesc "interface_rx_crc_errors_total"
  ["system_id"; "uuid"].
Definition interfaceStatRxDropped := NewDesc "interface_rx_dropped_total"
  ["system_id"; "uuid"].
Definition interfaceStatRxFrameError := NewDesc "interface_rx_frame_errors_total"
  ["system_id"; "uuid"].
Definition interfaceStatRxOverrunError := NewDesc "interface_rx_overrun_errors_total"
  ["system_id"; "uuid"].
Definition interfaceStatRxErrorsTotal := NewDesc "interface_rx_errors_total"
  ["system_id"; "uuid"].
Definition interfaceStatRxMissedErrors := NewDesc "interface_rx_missed_errors_total"
  ["system_id"; "uuid"].
Definition interfaceStatRxPackets := NewDesc "interface_rx_packets_total"
  ["system_id"; "uuid"].
Definition interfaceStatRxBytes := NewDesc "interface_rx_bytes" ["system_id"; "uuid"].
Definition interfaceStatTxPackets := NewDesc "interface_tx_packets_total"
  ["system_id"; "uuid"].
Definition interfaceStatTxBytes := NewDesc "interface_tx_bytes" ["system_id"; "uuid"].
Definition interfaceStatTxDropped := NewDesc "interface_tx_dropped_total"
  ["system_id"; "uuid"].
Definition interfaceStatTxErrorsTotal := NewDesc "interface_tx_errors_total"
  ["system_id"; "uuid"].
Definition interfaceStatCollisions := NewDesc "interface_collisions_total"
  ["system_id"; "uuid"].
Definition interfaceLinkResets := NewDesc "interface_link_resets_total"
  ["system_id"; "uuid"].
Definition interfaceLinkSpeed := NewDesc "interface_link_speed_bits_per_second"
  ["system_id"; "uuid"].
Definition interfaceStatusKeyValuePair := NewDesc "interface_status"
  ["system_id"; "uuid"; "key"; "value"].
Definition interfaceOptionsKeyValuePair := NewDesc "interface_options"
  ["system_id"; "uuid"; "key"; "value"].
Definition interfaceExternalIdKeyValuePair := NewDesc "interface_external_ids"
  ["system_id"; "uuid"; "key"; "value"].
Definition interfaceStateMulticastPackets := NewDesc "interface_rx_multicast_packets_total"
  ["system_id"; "uuid"].
Definition emcHitRate := NewDesc "flow_cache_emc_hit_ratio" pmd_labels.
Definition emcHits := NewDesc "flow_cache_emc_hits_total" pmd_labels.
Definition emcInserts := NewDesc "flow_cache_emc_inserts_total" pmd_labels.
Definition smcHitRate := NewDesc "flow_cache_smc_hit_ratio" pmd_labels.
Definition smcHits := NewDesc "flow_cache_smc_hits_total" pmd_labels.
Definition megaflowHitRate := NewDesc "flow_cache_megaflow_hit_ratio" pmd_labels.
Definition megaflowHits := NewDesc "flow_cache_megaflow_hits_total" pmd_labels.
Definition megaflowMisses := NewDesc "flow_cache_megaflow_misses_total" pmd_labels.
Definition flowCacheLookups := NewDesc "flow_cache_lookups_total" pmd_labels.

Definition Describe : list Desc :=
  [ up; info; requestErrors; requestsTotal; nextPoll; pid; logFileSize; dbFileSize;
    logEventStat; networkPortUp; covAvg; covTotal; memUsage; dpInterface;
    dpBridgeInterfaceTotal; dpLookupsHit; dpFlowsTotal; dpLookupsMissed; dpMasksHit;
    dpMasksTotal; dpMasksHitRatio; dpLookupsLost; interfaceMain; interfaceAdminState;
    interfaceLinkState; interfaceIngressPolicingBurst; interfaceIngressPolicingRate;
    interfaceMacInUse; interfaceMtu; interfaceDuplex; interfaceOfPort;
    interfaceIfIndex; interfaceLocalIndex; interfaceStatRxCrcError;
    interfaceStatRxDropped; interfaceStatRxFrameError; interfaceStatRxOverrunError;
    interfaceStatRxErrorsTotal; interfaceStatRxMissedErrors; interfaceStatRxPackets;
    interfaceStatRxBytes; interfaceStatTxPackets; interfaceStatTxBytes;
    interfaceStatTxDropped; interfaceStatTxErrorsTotal; interfaceStatCollisions;
    interfaceLinkResets; interfaceLinkSpeed; interfaceStatusKeyValuePair;
    interfaceOptionsKeyValuePair; interfaceExternalIdKeyValuePair;
    interfaceStateMulticastPackets; pmdCyclesPerIteration; pmdPacketsPerIteration;
    pmdCyclesPerPacket; pmdPacketsPerBatch; pmdMaxVhostQueueLength; pmdUpcalls;
    pmdUpcallCycles; vhostTxRetries; vhostTxContention; vhostTxIrqs; pmdIterations;
    pmdBusyCycles; pmdCPUUtilization; pmdIdleCycles; pmdSleepIterations; pmdRxBatches;
    pmdRxPackets; pmdAvgRxBatchSize; pmdMaxRxBatchSize; pmdTxBatches; pmdTxPackets;
    pmdAvgTxBatchSize; pmdAvgVhostQueueLength; pmdVhostQueueFull; pmdExactMatchHit;
    pmdMaskedHit; pmdMiss; pmdLost; pmdSuspiciousIterations; pmdSuspiciousPercent;
    datapathDrops; emcHitRate; emcHits; emcInserts; smcHitRate; smcHits;
    megaflowHitRate; megaflowHits; megaflowMisses; flowCacheLookups ].

(** ** The vocabulary of the properties *)

(** The lines of a text: the pieces between its newlines, each without a
    trailing carriage return. *)
Definition text_lines (text : string) : list string := map dropCR (split_lines text).

(** The capture groups of the thread-header lines among [ls], in order. *)
Definition header_captures (ls : list string) : list (list string) :=
  omap (FindStringSubmatch pmdHeaderRe) ls.

(** The identity a header line gives to a record of [parsePmdPerfOutput]:
    [NumaID] from the first capture, [PmdID] from the second. *)
Definition perf_header (matches : list string) : string * string :=
  (sub matches 1, sub matches 2).

Definition perf_identity (m : Perf.T) : string * string :=
  (Perf.NumaID m, Perf.PmdID m).

(** The same for [parseEnhancedPmdOutput]: [NumaID] from the first
    capture, [PmdID] and [CoreID] from the second. *)
Definition enh_header (matches : list string) : string * string * string :=
  (sub matches 1, sub matches 2, sub matches 2).

Definition enh_identity (m : Enh.T) : string * string * string :=
  (Enh.NumaID m, Enh.PmdID m, Enh.CoreID m).

(** What the field blocks of the enhanced parser never assign. *)
Definition enh_frame (m : Enh.T) : string * string * string * Z * Z :=
  (Enh.NumaID m, Enh.CoreID m, Enh.PmdID m, Enh.TotalCycles m, Enh.TotalPackets m).

(** Every line of the text fits the buffer of the scanner. *)
Definition short_lines (text : string) : Prop :=
  Forall (fun l => fits_buffer l = true) (split_lines text).

Definition nl : string := String newline EmptyString.

Local Open Scope list_scope.

(** A field block keeps the projection [proj] of the record. *)
Definition keeps {T A : Type} (proj : T -> A) (f : T -> T) : Prop :=
  ∀ m, proj (f m) = proj m.

(** The identities the header lines among [ls] give, under the reading
    [ident] of the captures. *)
Definition identities {I : Type} (ident : list string -> I) (ls : list string) : list I :=
  ident <$> header_captures ls.

(** A record as the scan loop holds it: [PmdID] and [CoreID] agree and the
    two derived fields are still zero. *)
Definition underived (m : Enh.T) : Prop :=
  Enh.PmdID m = Enh.CoreID m ∧ Enh.TotalCycles m = 0 ∧ Enh.TotalPackets m = 0.

(** The invariant of the scan loop of the enhanced parser. *)
Definition enh_inv (st : Enh.state) : Prop :=
  Forall underived (Enh.flush st) ∧
  (Enh.currentMetric st = None -> Enh.metrics st = []).

(** [short_lines], decided. *)
Definition short_linesb (text : string) : bool := forallb fits_buffer (split_lines text).

(** A line reports the counter [k] with value [v]: after trimming, its
    leading token is [k] and the digits after the blanks read [v]. *)
Definition reports (tf trf : string -> string) (text k : string) (v : Z) : Prop :=
  ∃ matches, FindStringSubmatch coverageRe (TrimSpace tf trf text) = Some matches ∧
             sub matches 1 = k ∧ ParseUint (sub matches 2) = Some v.

(** The leading token of a line, when the line has the shape of a counter
    line. *)
Definition leading_token (tf trf : string -> string) (text : string) : option string :=
  (fun matches => sub matches 1) <$> FindStringSubmatch coverageRe (TrimSpace tf trf text).

(** Everything of the exporter but its metrics. *)
Definition exporter_rest (e : Exporter) : ClientInfo * Z * Z * Z * Z :=
  (Client e, pollInterval e, errors e, totalRequests e, nextCollectionTicker e).

(** [e'] is [e] with metrics appended and nothing else changed. *)
Definition extends (e e' : Exporter) : Prop :=
  exporter_rest e' = exporter_rest e ∧ ∃ ms, metrics e' = metrics e ++ ms.

(** The poll interval, in nanoseconds, fits [time.Duration]. *)
Definition interval_fits (p : Z) : Prop := I64.in_range (p * Second).

(** The number of calls that hold the read lock. *)
Fixpoint sending (ts : list pc) : nat :=
  match ts with
  | [] => 0
  | Sending :: ts' => S (sending ts')
  | _ :: ts' => sending ts'
  end.

Definition is_sending (p : pc) : nat := match p with Sending => 1 | _ => 0 end.

(** The invariant of the thread model. *)
Record thread_inv (c : config) : Prop := {
  inv_readers : readers (c_lock c) = sending (c_threads c);
  inv_writer : writer (c_lock c) = true -> readers (c_lock c) = 0%nat;
  inv_published : writer (c_lock c) = false -> head (c_rebuilds c) = Some (c_metrics c);
  inv_refilling : ∀ i todo, c_threads c !! i = Some (Refilling todo) ->
                            writer (c_lock c) = true;
  inv_unique : ∀ i j todo todo', c_threads c !! i = Some (Refilling todo) ->
                                 c_threads c !! j = Some (Refilling todo') -> i = j;
  inv_returned : ∀ i sent, c_threads c !! i = Some (Returned sent) ->
                           sent ∈ c_rebuilds c
}.

Definition m_up (v : Z) : Metric := MustNewConstMetric up GaugeValue (F64.of_Z v) [].

(** One call that finds the ticker ahead, takes the read lock and sends
    the list of the last rebuild. *)
Definition one_reader_done : config :=
  {| c_now := 5; c_interval := 10; c_ticker := 10; c_metrics := [m_up 1];
     c_lock := {| writer := false; readers := 0 |}; c_rebuilds := [[m_up 1]];
     c_threads := [Returned [m_up 1]] |}.

(** ** Sample inputs *)

(** The sample of the package's own test: two threads. *)
Definition two_threads : string :=
  "pmd thread numa_id 0 core_id 2:
  iterations:        12345678 (123.45 us/it)
  busy cycles:       75.2% (2345.67 Mcycles, 1234 us/it)
  cycles/it:         1234567.8 (123.45 Mcycles)
  pkts/it:           234.5
  cycles/pkt:        5678.9
  avg pkts/batch:    32.1
  avg max vhost qlen: 128
  upcalls:           1234 (567.8 us 89.0 Mcycles)
  vhost tx retries:  567
  vhost tx contention: 89
  vhost tx irqs:     123

pmd thread numa_id 1 core_id 4:
  iterations:        87654321 (234.56 us/it)
  busy cycles:       82.3% (3456.78 Mcycles, 2345 us/it)
  cycles/it:         2345678.9 (234.56 Mcycles)
  pkts/it:           345.6
  cycles/pkt:        6789.0
  avg pkts/batch:    64.2
  avg max vhost qlen: 256
  upcalls:           2345 (678.9 us 123.4 Mcycles)
  vhost tx retries:  678
  vhost tx contention: 123
  vhost tx irqs:     234".

Definition invalid_output : string :=
  "This is not valid PMD output
Some random text here".

(** A line of 128 KiB before a thread header. *)
Definition long_line_then_header : string :=
  (str_repeat "x" (2 * MaxScanTokenSize) ++ nl
   ++ "pmd thread numa_id 0 core_id 1:" ++ nl)%string.

(** Two threads with the same counters. *)
Definition twin_threads : string :=
  "pmd thread numa_id 0 core_id 1:
  iterations: 100 (1.0 us/it)
  busy cycles: 60.0% (3.0 Mcycles)
  idle cycles: 40.0% (2.0 Mcycles)
  pkts/it: 2.5
pmd thread numa_id 0 core_id 2:
  iterations: 100 (1.0 us/it)
  busy cycles: 60.0% (3.0 Mcycles)
  idle cycles: 40.0% (2.0 Mcycles)
  pkts/it: 2.5
".

Definition one_thread : string :=
  "pmd thread numa_id 0 core_id 2:
  iterations: 100 (1.0 us/it)
  cycles/it: 500.0 (0.05 Mcycles)
".

(** The secondary command reports another iteration count for the same
    thread. *)
Definition one_thread_stats : string :=
  "pmd thread numa_id 0 core_id 2:
  iterations: 999 (9.0 us/it)
".

Definition coverage_sample : string :=
  ("datapath_drop_meter 42" ++ nl ++ "other_counter 7" ++ nl)%string.

Definition answers (perf stats coverage : cmd_output) (args : list string) : cmd_output :=
  match args with
  | [a] =>
      if String.eqb a "dpif-netdev/pmd-perf-show" then perf
      else if String.eqb a "dpif-netdev/pmd-stats-show" then stats
      else if String.eqb a "coverage/show" then coverage
      else failed "exit status 2"
  | _ => failed "exit status 2"
  end.

Definition sim (clock : list Z) (perf stats coverage : cmd_output) : Sim :=
  {| sim_clock := at_second <$> clock; sim_commands := answers perf stats coverage;
     sim_client := quiet_report; sim_log := [] |}.

Definition exporter0 (interval : Z) : Exporter :=
  {| Client := no_client; pollInterval := interval; errors := 0; totalRequests := 0;
     nextCollectionTicker := 0; metrics := [] |}.

Definition first_record (text : string) : option Enh.T := head (parseEnhancedPmdOutput text).

(** ** The vocabulary of the further properties *)

(** The first line the scanner delivers is a thread header. *)
Definition starts_with_header (text : string) : Prop :=
  is_Some (head (scanLines text) ≫= FindStringSubmatch pmdHeaderRe).

(** A state of the basic scan loop with [pre] put in front of its
    finished records. *)
Definition perf_behind (pre : list Perf.T) (st : Perf.state) : Perf.state :=
  {| Perf.metrics := pre ++ Perf.metrics st; Perf.currentMetric := Perf.currentMetric st |}.

Definition enh_behind (pre : list Enh.T) (st : Enh.state) : Enh.state :=
  {| Enh.metrics := pre ++ Enh.metrics st; Enh.currentMetric := Enh.currentMetric st;
     Enh.currentHistogram := Enh.currentHistogram st |}.

(** The state of the enhanced scan loop at the end of a text. *)
Definition enh_scan (text : string) : Enh.state :=
  fold_left Enh.step (scanLines text) Enh.init.

Definition header_then_fields : string :=
  "pmd thread numa_id 1 core_id 7:
  iterations: 40 (1.0 us/it)
  idle cycles: 10.0% (1.0 Mcycles)
  pkts/it: 2.0
  rx batches: 9 (avg: 3.5, max: 32)".

Definition stray_fields : string :=
  "  iterations: 5 (1.0 us/it)
  vhost tx retries: 3".

#[export] Instance histogram_eq_dec : EqDecision Enh.histogram := ltac:(solve_decision).

(** The map [currentHistogram] points at. *)
Definition histogram_of (h : Enh.histogram) (m : Enh.T) : gmap string Z :=
  match h with
  | Enh.CyclesH => Enh.CyclesHistogram m
  | Enh.PacketsH => Enh.PacketsHistogram m
  | Enh.BatchSizeH => Enh.BatchSizeHistogram m
  end.

Definition enh_histograms (m : Enh.T) : gmap string Z * gmap string Z * gmap string Z :=
  (Enh.CyclesHistogram m, Enh.PacketsHistogram m, Enh.BatchSizeHistogram m).

(** A line is the heading of the histogram [h]: it matches the heading
    pattern and its word, in lower case, names [h]. *)
Definition histogram_heading (line : string) (h : Enh.histogram) : Prop :=
  ∃ matches, FindStringSubmatch Enh.histogramRe line = Some matches ∧
             Enh.select_histogram (ToLower (sub matches 1)) = Some h.

(** A line is a bucket line for [key] with count [v]. *)
Definition bucket_line (line key : string) (v : Z) : Prop :=
  ∃ matches, FindStringSubmatch Enh.histogramEntryRe line = Some matches ∧
             sub matches 1 = key ∧ ParseUint (sub matches 2) = Some v.

(** Every histogram entry of the record comes from a bucket line among
    [seen], and its histogram has a heading among [seen]. *)
Definition recorded (seen : list string) (m : Enh.T) : Prop :=
  ∀ h key v, histogram_of h m !! key = Some v ->
    (∃ heading, heading ∈ seen ∧ histogram_heading heading h) ∧
    (∃ entry, entry ∈ seen ∧ bucket_line entry key v).

Definition hist_inv (seen : list string) (st : Enh.state) : Prop :=
  Forall (recorded seen) (Enh.flush st) ∧
  ∀ h, Enh.currentHistogram st = Some h ->
       ∃ heading, heading ∈ seen ∧ histogram_heading heading h.

Definition histogram_sample : string :=
  "pmd thread numa_id 0 core_id 3:
  0-100: 7
Cycles histogram:
  0-100: 12
  100+: 3
Latency histogram:
  0-100: 99
".

(** Every byte of the string is in the class. *)
Fixpoint all_in (k : cclass) (s : string) : bool :=
  match s with
  | EmptyString => true
  | String c s' => in_class k c && all_in k s'
  end.

(** A non-empty string of decimal digits. *)
Definition decimal (s : string) : Prop := s ≠ EmptyString ∧ all_in Digit s = true.

(** The three iteration counters of a record. *)
Definition iteration_counts (m : Enh.T) : Z * Z * Z :=
  (Enh.Iterations m, Enh.SleepIterations m, Enh.BusyIterations m).

(** The position of the block of [sleepIterRe] among the field blocks. *)
Definition sleep_block_index : nat := 4.

(** The fields that both parsers read with the same pattern, and the
    thread identity. *)
Definition perf_shared (m : Perf.T) :=
  (Perf.NumaID m, Perf.PmdID m, Perf.CyclesPerIteration m, Perf.PacketsPerIteration m,
   Perf.CyclesPerPacket m, Perf.PacketsPerBatch m, Perf.Upcalls m, Perf.UpcallCycles m,
   Perf.TxRetries m, Perf.TxContention m, Perf.TxIrqs m).

Definition enh_shared (m : Enh.T) :=
  (Enh.NumaID m, Enh.PmdID m, Enh.CyclesPerIteration m, Enh.PacketsPerIteration m,
   Enh.CyclesPerPacket m, Enh.PacketsPerBatch m, Enh.Upcalls m, Enh.UpcallCycles m,
   Enh.VhostTxRetries m, Enh.VhostTxContention m, Enh.VhostTxIrqs m).

Definition agree (mp : Perf.T) (me : Enh.T) : Prop := perf_shared mp = enh_shared me.

(** Two lists of field blocks that act alike on the shared fields: a
    block of either list that keeps them may stand alone, the others come
    in pairs. *)
Inductive aligned :
    list (string -> Perf.T -> Perf.T) -> list (string -> Enh.T -> Enh.T) -> Prop :=
| aligned_nil : aligned [] []
| aligned_left b bs es :
    (∀ l, keeps perf_shared (b l)) -> aligned bs es -> aligned (b :: bs) es
| aligned_right bs e es :
    (∀ l, keeps enh_shared (e l)) -> aligned bs es -> aligned bs (e :: es)
| aligned_both b bs e es :
    (∀ l mp me, agree mp me -> agree (b l mp) (e l me)) ->
    aligned bs es -> aligned (b :: bs) (e :: es).

(** The loop states of the two parsers hold records that agree. *)
Definition states_agree (sp : Perf.state) (se : Enh.state) : Prop :=
  Forall2 agree (Perf.metrics sp) (Enh.metrics se) ∧
  option_Forall2 agree (Perf.currentMetric sp) (Enh.currentMetric se).

(** A value of type [uint64]. *)
Definition is_uint64 (z : Z) : Prop := 0 <= z <= U64.max.

(** The metric [collectDropCounters] appends for one map entry. *)
Definition drop_metric (id reason : string) (count : Z) : Metric :=
  MustNewConstMetric datapathDrops CounterValue (F64.of_Z count) [id; reason].

(** A metric with as many label values as its descriptor has labels:
    what [MustNewConstMetric] needs in order not to panic. *)
Definition well_labelled (m : Metric) : Prop :=
  length (labelValues m) = length (variableLabels (desc m)).



(** The records the basic path gets from the answer to its invocation. *)
Definition basic_records (out : cmd_output) : list Perf.T :=
  match cmd_err out with
  | None => (parsePmdPerfOutput (stdout out)).1
  | Some _ => []
  end.

Definition repeated_counter : string :=
  ("datapath_drop_meter 1" ++ nl ++ "datapath_drop_meter 2" ++ nl)%string.

Definition perf_show : list string := ["dpif-netdev/pmd-perf-show"].
Definition stats_show : list string := ["dpif-netdev/pmd-stats-show"].

(** The commands a scripted host was asked to run, oldest first. *)
Definition commands_run (os : Sim) : list (list string) :=
  omap (fun s => match s with Command argv => Some argv | Ovsdb => None end)
       (reverse (sim_log os)).

(** The four metrics about the exporter itself that a rebuild appends
    behind those of the OVSDB sub-collections. *)
Definition self_metrics (upValue : Z) (e : Exporter) : list Metric :=
  let id := System_ID (Client e) in
  [ MustNewConstMetric up GaugeValue (F64.of_Z upValue) [];
    MustNewConstMetric info GaugeValue (F64.of_Z 1)
      [id; System_RunDir (Client e); System_Hostname (Client e);
       System_Type (Client e); System_Version (Client e);
       Vswitch_Version (Client e); Vswitch_Schema_Version (Client e)];
    MustNewConstMetric requestErrors CounterValue (F64.of_Z (errors e)) [id];
    MustNewConstMetric requestsTotal CounterValue (F64.of_Z (totalRequests e)) [id] ].

Definition next_poll_metric (ticker : Z) (e : Exporter) : Metric :=
  MustNewConstMetric nextPoll GaugeValue (F64.of_Z ticker) [System_ID (Client e)].

(** What [Collect] sends when the exporter holds no metrics. *)
Definition no_metrics_reply (e : Exporter) : list Metric :=
  self_metrics 0 e ++ [next_poll_metric (nextCollectionTicker e) e].

(** The first line that is not blank, trimmed. *)
Definition first_nonblank (tf trf : string -> string) (ls : list string) : option string :=
  head (filter (fun s => is_empty s = false) (TrimSpace tf trf <$> ls)).

(** The first and the last byte of a string. *)
Definition first_byte (s : string) : option ascii :=
  match s with String c _ => Some c | EmptyString => None end.

Fixpoint last_byte (s : string) : option ascii :=
  match s with
  | EmptyString => None
  | String c EmptyString => Some c
  | String _ s' => last_byte s'
  end.

(** How [ovs-vsctl get] prints a string value: in double quotes, with a
    newline behind. *)
Definition quoted_line (s : string) : string :=
  String quote (s ++ String quote nl)%string.

(** Everything of the client but the system id. *)
Definition client_rest (c : ClientInfo) : string * string * string * string * string * string :=
  (System_RunDir c, System_Hostname c, System_Type c, System_Version c,
   Vswitch_Version c, Vswitch_Schema_Version c).

Definition id_file : string := ("  test-system-id-67890  " ++ nl)%string.

(** A file whose first line has 128 KiB and whose second line is an id. *)
Definition long_line_then_id : string :=
  (str_repeat "x" (2 * MaxScanTokenSize) ++ nl ++ "an-id" ++ nl)%string.

Definition database_id : string := "7c9a5d2e-1f4b-4c3a-9e8d-0123456789ab".

#[export] Instance Desc_eq_dec : EqDecision Desc := ltac:(solve_decision).

(** A metric that [Describe] announces and whose label values fit its
    descriptor. *)
Definition described (m : Metric) : Prop := desc m ∈ Describe ∧ well_labelled m.

(** The write lock is held by a call that refills the slice. *)
Definition writer_refills (c : config) : Prop :=
  writer (c_lock c) = true -> ∃ i todo, c_threads c !! i = Some (Refilling todo).

(** A call that has not returned. *)
Definition running (i : nat) (c : config) : Prop :=
  ∃ p, c_threads c !! i = Some p ∧ ∀ sent, p ≠ Returned sent.

(** The position of the block of [busyCyclesRe] among the field blocks of
    the enhanced parser. *)
Definition busy_block_index : nat := 2.

Definition utilization_then_busy : string :=
  "pmd thread numa_id 0 core_id 5:
  cpu utilization: 10.0%
  busy cycles: 75.0% (3.0 Mcycles)
".

(** * Properties *)

Arguments run_blocks {T} blocks line m : simpl never.
Arguments FindStringSubmatch re s : simpl never.
Arguments fits_buffer line : simpl never.

(** ** The scanner *)

Lemma scan_tokens_short ls :
  Forall (fun l => fits_buffer l = true) ls -> scan_tokens ls = map dropCR ls.
Proof.
  induction 1 as [|l ls Hl _ IH]; simpl; [done|].
  by rewrite Hl, IH.
Qed.

Lemma scanLines_short text : short_lines text -> scanLines text = text_lines text.
Proof. apply scan_tokens_short. Qed.

Lemma scan_tokens_sublist ls : ∃ k, scan_tokens ls = map dropCR (take k ls).
Proof.
  induction ls as [|l ls [k IH]]; simpl.
  - by exists 0%nat.
  - destruct (fits_buffer l).
    + exists (S k). simpl. by rewrite IH.
    + by exists 0%nat.
Qed.

Lemma scanLines_visits_text_lines text line :
  line ∈ scanLines text -> line ∈ text_lines text.
Proof.
  unfold scanLines, text_lines. destruct (scan_tokens_sublist (split_lines text)) as [k ->].
  rewrite !list_elem_of_fmap. intros (l & -> & Hl). exists l. split; [done|].
  by apply (subseteq_take k).
Qed.

(** ** Field blocks keep what they do not assign *)

Lemma keeps_run_blocks {T A : Type} (proj : T -> A) blocks line :
  Forall (fun b => ∀ l, keeps proj (b l)) blocks -> keeps proj (run_blocks blocks line).
Proof.
  unfold run_blocks. induction 1 as [|b bs Hb _ IH]; intros m; simpl; [done|].
  by rewrite IH, Hb.
Qed.

Ltac keep_block :=
  intros line0 m0; unfold when_match, on_uint, on_float;
  repeat match goal with
         | |- context [match ?x with Some _ => _ | None => _ end] => destruct x
         end;
  reflexivity.

Lemma perf_blocks_keep_identity :
  Forall (fun b => ∀ l, keeps perf_identity (b l)) Perf.blocks.
Proof.
  unfold Perf.blocks. repeat (apply Forall_cons; split; [keep_block|]). apply Forall_nil_2.
Qed.

Lemma enh_blocks_keep_frame :
  Forall (fun b => ∀ l, keeps enh_frame (b l)) Enh.blocks.
Proof.
  unfold Enh.blocks. repeat (apply Forall_cons; split; [keep_block|]). apply Forall_nil_2.
Qed.

(** ** The record builders, line by line *)

Lemma identities_cons {I : Type} (ident : list string -> I) line ls :
  identities ident (line :: ls) =
  match FindStringSubmatch pmdHeaderRe line with
  | Some matches => ident matches :: identities ident ls
  | None => identities ident ls
  end.
Proof.
  unfold identities, header_captures. simpl.
  by destruct (FindStringSubmatch pmdHeaderRe line).
Qed.

Lemma identities_app {I : Type} (ident : list string -> I) ls1 ls2 :
  identities ident (ls1 ++ ls2) = identities ident ls1 ++ identities ident ls2.
Proof. unfold identities, header_captures. by rewrite omap_app, fmap_app. Qed.

Lemma identities_take {I : Type} (ident : list string -> I) k ls :
  identities ident ls = [] -> identities ident (take k ls) = [].
Proof.
  rewrite <- (take_drop k ls) at 1. rewrite identities_app.
  by intros [? _]%app_eq_nil.
Qed.

Lemma perf_step_identities st line :
  perf_identity <$> Perf.flush (Perf.step st line) =
  (perf_identity <$> Perf.flush st) ++ identities perf_header [line].
Proof.
  rewrite identities_cons. unfold Perf.step, Perf.flush.
  destruct (FindStringSubmatch pmdHeaderRe line) as [matches|]; simpl.
  - rewrite fmap_app. reflexivity.
  - change (identities perf_header []) with (@nil (string * string)). rewrite app_nil_r.
    destruct (Perf.currentMetric st) as [m|] eqn:Hc; simpl; rewrite ?Hc; [|done].
    rewrite !fmap_app. simpl.
    by rewrite (keeps_run_blocks perf_identity _ _ perf_blocks_keep_identity).
Qed.

Lemma perf_fold_identities ls st :
  perf_identity <$> Perf.flush (fold_left Perf.step ls st) =
  (perf_identity <$> Perf.flush st) ++ identities perf_header ls.
Proof.
  revert st. induction ls as [|line ls IH]; intros st; simpl.
  - by rewrite app_nil_r.
  - rewrite IH, perf_step_identities. rewrite <- app_assoc.
    by rewrite <- identities_app.
Qed.

(** The records of [parsePmdPerfOutput] are, in order, those of the header
    lines the scanner delivers. *)
Lemma parsePmdPerfOutput_identities text :
  perf_identity <$> (parsePmdPerfOutput text).1 = identities perf_header (scanLines text).
Proof. unfold parsePmdPerfOutput. simpl. by rewrite perf_fold_identities. Qed.

(** ** The enhanced parser: an invariant of the scan *)

Lemma underived_frame m m' : enh_frame m' = enh_frame m -> underived m -> underived m'.
Proof.
  unfold enh_frame, underived. intros [= ? ? ? ? ?] (? & ? & ?).
  repeat split; congruence.
Qed.

Lemma identity_frame m m' : enh_frame m' = enh_frame m -> enh_identity m' = enh_identity m.
Proof. unfold enh_frame, enh_identity. intros [= ? ? ? _ _]. congruence. Qed.

Lemma histogram_store_frame h key val m :
  enh_frame (Enh.histogram_store h key val m) = enh_frame m.
Proof. by destruct h. Qed.

(** The current record after a line that is no header. *)
Lemma enh_step_body st line m0 :
  FindStringSubmatch pmdHeaderRe line = None ->
  Enh.currentMetric st = Some m0 ->
  Enh.metrics (Enh.step st line) = Enh.metrics st ∧
  ∃ m, Enh.currentMetric (Enh.step st line) = Some m ∧ enh_frame m = enh_frame m0.
Proof.
  intros Hh Hc. unfold Enh.step. rewrite Hh, Hc.
  pose proof (keeps_run_blocks enh_frame _ line enh_blocks_keep_frame m0) as Hb.
  destruct (FindStringSubmatch Enh.histogramRe line); simpl; [by eauto|].
  destruct (Enh.currentHistogram st) as [h|]; simpl; [|by eauto].
  split; [done|]. eexists; split; [done|].
  unfold when_match, on_uint.
  destruct (FindStringSubmatch Enh.histogramEntryRe line); [|done].
  destruct (ParseUint _); [|done].
  by rewrite histogram_store_frame.
Qed.

Lemma enh_step_identities st line :
  enh_identity <$> Enh.flush (Enh.step st line) =
  (enh_identity <$> Enh.flush st) ++ identities enh_header [line].
Proof.
  rewrite identities_cons.
  destruct (FindStringSubmatch pmdHeaderRe line) as [matches|] eqn:Hh.
  - unfold Enh.step. rewrite Hh. unfold Enh.flush at 1. simpl. rewrite fmap_app.
    reflexivity.
  - change (identities enh_header []) with (@nil (string * string * string)).
    rewrite app_nil_r. destruct (Enh.currentMetric st) as [m0|] eqn:Hc.
    + destruct (enh_step_body st line m0 Hh Hc) as (Hm & m & Hc' & Hf).
      unfold Enh.flush. rewrite Hc', Hc, Hm, !fmap_app. simpl.
      by rewrite (identity_frame _ _ Hf).
    + unfold Enh.step. by rewrite Hh, Hc.
Qed.

Lemma enh_fold_identities ls st :
  enh_identity <$> Enh.flush (fold_left Enh.step ls st) =
  (enh_identity <$> Enh.flush st) ++ identities enh_header ls.
Proof.
  revert st. induction ls as [|line ls IH]; intros st; simpl.
  - by rewrite app_nil_r.
  - rewrite IH, enh_step_identities. rewrite <- app_assoc.
    by rewrite <- identities_app.
Qed.

Lemma derive_frame m :
  (Enh.NumaID (Enh.derive m), Enh.CoreID (Enh.derive m), Enh.PmdID (Enh.derive m)) =
  (Enh.NumaID m, Enh.CoreID m, Enh.PmdID m).
Proof.
  unfold Enh.derive. destruct (Enh.TotalCycles m =? 0); simpl;
    destruct (_ && _); reflexivity.
Qed.

Lemma finish_identities st :
  enh_identity <$> Enh.finish st = enh_identity <$> Enh.flush st.
Proof.
  unfold Enh.finish, Enh.flush. destruct (Enh.currentMetric st) as [m|]; [|done].
  rewrite !fmap_app. simpl. f_equal. f_equal.
  pose proof (derive_frame m) as [= H1 H2 H3]. unfold enh_identity. by rewrite H1, H2, H3.
Qed.

Lemma parseEnhancedPmdOutput_identities text :
  enh_identity <$> parseEnhancedPmdOutput text = identities enh_header (scanLines text).
Proof. unfold parseEnhancedPmdOutput. by rewrite finish_identities, enh_fold_identities. Qed.

Lemma underived_fresh matches : underived (Enh.fresh matches).
Proof. done. Qed.

Lemma enh_step_inv st line : enh_inv st -> enh_inv (Enh.step st line).
Proof.
  unfold enh_inv. intros [Hinv Hnone].
  destruct (FindStringSubmatch pmdHeaderRe line) as [matches|] eqn:Hh.
  - unfold Enh.step. rewrite Hh. unfold Enh.flush at 1. simpl. split; [|done].
    apply Forall_app. split; [done|]. apply Forall_singleton, underived_fresh.
  - destruct (Enh.currentMetric st) as [m0|] eqn:Hc.
    + destruct (enh_step_body st line m0 Hh Hc) as (Hm & m & Hc' & Hf).
      split; [|by rewrite Hc'].
      revert Hinv. unfold Enh.flush. rewrite Hc', Hc, Hm, !Forall_app, !Forall_singleton.
      intros [? ?]. split; [done|]. by eapply underived_frame.
    + unfold Enh.step. rewrite Hh, Hc. split; [done|]. intros _. by apply Hnone.
Qed.

Lemma enh_fold_inv ls st : enh_inv st -> enh_inv (fold_left Enh.step ls st).
Proof. revert st. induction ls; simpl; auto using enh_step_inv. Qed.

Lemma enh_scan_inv text : enh_inv (fold_left Enh.step (scanLines text) Enh.init).
Proof. apply enh_fold_inv. split; [constructor|done]. Qed.

(** The shape of the result: the records appended at header lines,
    untouched, then the last record with its derived fields. *)
Lemma parseEnhancedPmdOutput_shape text :
  parseEnhancedPmdOutput text = [] ∨
  ∃ earlier m, parseEnhancedPmdOutput text = earlier ++ [Enh.derive m] ∧
               Forall underived earlier ∧ underived m.
Proof.
  destruct (enh_scan_inv text) as [Hinv Hnone]. unfold parseEnhancedPmdOutput.
  set (st := fold_left _ _ _) in *. unfold Enh.flush in Hinv. unfold Enh.finish.
  destruct (Enh.currentMetric st) as [m|] eqn:Hc.
  - right. exists (Enh.metrics st), m. apply Forall_app in Hinv as [? Hm].
    by rewrite Forall_singleton in Hm.
  - left. by apply Hnone.
Qed.

Lemma scanLines_prefix text : ∃ k, scanLines text = take k (text_lines text).
Proof.
  unfold scanLines, text_lines. destruct (scan_tokens_sublist (split_lines text)) as [k ->].
  exists k. by rewrite fmap_take.
Qed.

Lemma short_lines_spec text : short_linesb text = true -> short_lines text.
Proof.
  unfold short_linesb, short_lines. rewrite forallb_forall, Forall_forall.
  intros Hall l Hl. apply Hall. by apply list_elem_of_In.
Qed.

Example two_threads_parsed :
  (fun m => (Perf.NumaID m, Perf.PmdID m, Perf.Iterations m, Perf.BusyCycles m,
             Perf.MaxVhostQueueLength m, Perf.Upcalls m, Perf.UpcallCycles m,
             Perf.TxRetries m, Perf.TxContention m, Perf.TxIrqs m))
    <$> (parsePmdPerfOutput two_threads).1 =
  [ ("0", "2", 12345678, 2345670000, 128, 1234, 89000000, 567, 89, 123);
    ("1", "4", 87654321, 3456780000, 256, 2345, 123400000, 678, 123, 234) ].
Proof. vm_compute. reflexivity. Qed.

(** The scenario of the specification: one thread with 100 iterations and
    500.0 cycles per iteration. *)
Example one_thread_parsed :
  (fun m => (Enh.NumaID m, Enh.CoreID m, Enh.Iterations m, Enh.CyclesPerIteration m))
    <$> parseEnhancedPmdOutput one_thread = [("0", "2", 100, F64.of_Z 500)].
Proof. vm_compute. reflexivity. Qed.

(** Decimal fractions are read to the nearest binary64 number:
    1234567.8 is 5302428325694669 * 2^-32 and 234.5 is exact. *)
Example parse_float_samples :
  ParseFloat "1234567.8" = Some (S754_finite false 5302428325694669 (-32)) ∧
  ParseFloat "234.5" = Some (S754_finite false 8250735254831104 (-45)) ∧
  ParseFloat "1.2.3" = None ∧ ParseFloat "." = None.
Proof. vm_compute. done. Qed.

(** ** C1: one record per header line *)

(** C1, as stated, fails: a text whose first line is 128 KiB long and
    whose second line is a thread header has one header line, and both
    parsers return no record, because the scanner gives up at the long
    line. *)
Lemma C1_long_line_loses_records :
  header_captures (text_lines long_line_then_header)
    = [["pmd thread numa_id 0 core_id 1:"; "0"; "1"]] ∧
  (parsePmdPerfOutput long_line_then_header).1 = [] ∧
  parseEnhancedPmdOutput long_line_then_header = [].
Proof. vm_compute. done. Qed.

(** C1, amended: for every text whose lines are all shorter than the
    scanner's 64 KiB buffer, both parsers return exactly one record per
    line matching the thread-header pattern, in the order of those lines,
    and the i-th record carries the captures of the i-th header line:
    [NumaID] the first, [PmdID] (and [CoreID]) the second. *)
Theorem C1_records_follow_header_lines (text : string) :
  short_lines text ->
  perf_identity <$> (parsePmdPerfOutput text).1
    = perf_header <$> header_captures (text_lines text) ∧
  length (parsePmdPerfOutput text).1 = length (header_captures (text_lines text)) ∧
  enh_identity <$> parseEnhancedPmdOutput text
    = enh_header <$> header_captures (text_lines text) ∧
  length (parseEnhancedPmdOutput text) = length (header_captures (text_lines text)).
Proof.
  intros Hshort.
  pose proof (parsePmdPerfOutput_identities text) as Hp.
  pose proof (parseEnhancedPmdOutput_identities text) as He.
  rewrite (scanLines_short text Hshort) in Hp, He. unfold identities in Hp, He.
  repeat split; try done.
  - apply (f_equal length) in Hp. by rewrite !length_fmap in Hp.
  - apply (f_equal length) in He. by rewrite !length_fmap in He.
Qed.

Lemma C1_witness :
  short_lines two_threads ∧
  perf_identity <$> (parsePmdPerfOutput two_threads).1 = [("0", "2"); ("1", "4")] ∧
  enh_identity <$> parseEnhancedPmdOutput two_threads = [("0", "2", "2"); ("1", "4", "4")].
Proof.
  assert (Hshort : short_lines two_threads)
    by (apply short_lines_spec; vm_compute; reflexivity).
  destruct (C1_records_follow_header_lines two_threads Hshort) as (Hp & _ & He & _).
  split; [exact Hshort|]. split.
  - rewrite Hp. vm_compute. reflexivity.
  - rewrite He. vm_compute. reflexivity.
Defined.

(** ** C6: no header line, no record *)

(** C6: for every text that is empty or has no line matching the
    thread-header pattern, [parsePmdPerfOutput] returns the empty list
    with a nil error and [parseEnhancedPmdOutput] returns the empty list
    (it has no error result). *)
Theorem C6_no_header_no_records (text : string) :
  header_captures (text_lines text) = [] ->
  parsePmdPerfOutput text = ([], None) ∧ parseEnhancedPmdOutput text = [].
Proof.
  intros Hnone. destruct (scanLines_prefix text) as [k Hk].
  pose proof (parsePmdPerfOutput_identities text) as Hp.
  pose proof (parseEnhancedPmdOutput_identities text) as He.
  rewrite Hk in Hp, He.
  rewrite identities_take in Hp by (unfold identities; by rewrite Hnone).
  rewrite identities_take in He by (unfold identities; by rewrite Hnone).
  apply fmap_nil_inv in Hp. apply fmap_nil_inv in He. split; [|done].
  unfold parsePmdPerfOutput in *. simpl in Hp. by rewrite Hp.
Qed.

Lemma C6_witness :
  (header_captures (text_lines "") = [] ∧
   parsePmdPerfOutput "" = ([], None) ∧ parseEnhancedPmdOutput "" = []) ∧
  (header_captures (text_lines invalid_output) = [] ∧
   parsePmdPerfOutput invalid_output = ([], None) ∧
   parseEnhancedPmdOutput invalid_output = []).
Proof.
  split.
  - split; [reflexivity|]. apply (C6_no_header_no_records ""). reflexivity.
  - assert (H : header_captures (text_lines invalid_output) = [])
      by (vm_compute; reflexivity).
    split; [exact H|]. exact (C6_no_header_no_records invalid_output H).
Defined.

(** ** C10: PmdID and CoreID agree *)

Lemma derive_underived m : underived m -> Enh.PmdID (Enh.derive m) = Enh.CoreID (Enh.derive m).
Proof. intros (H & _ & _). pose proof (derive_frame m) as [= _ -> ->]. done. Qed.

Lemma parsed_ids_agree text r :
  r ∈ parseEnhancedPmdOutput text -> Enh.PmdID r = Enh.CoreID r.
Proof.
  destruct (parseEnhancedPmdOutput_shape text) as [->|(earlier & m & -> & Hall & Hm)].
  - by intros ?%elem_of_nil.
  - rewrite elem_of_app, list_elem_of_singleton. intros [Hr| ->].
    + rewrite Forall_forall in Hall. by destruct (Hall r Hr).
    + by apply derive_underived.
Qed.

(** In the metrics the collector derives from a record, a [pmd_id] label
    and a [core_id] label on the same metric carry [PmdID] and [CoreID]. *)
Lemma record_metrics_labels id r :
  Forall (fun m => ∀ a b, label m "pmd_id" = Some a -> label m "core_id" = Some b ->
                          a = Enh.PmdID r ∧ b = Enh.CoreID r)
         (record_metrics id r).
Proof.
  unfold record_metrics. rewrite Forall_app. split.
  - repeat (apply Forall_cons; split;
            [intros a b; cbn; try discriminate; intros [= <-] [= <-]; done|]).
    apply Forall_nil_2.
  - destruct (0 <? Enh.SuspiciousIterations r); [|apply Forall_nil_2].
    repeat (apply Forall_cons; split; [intros a b; cbn; discriminate|]).
    apply Forall_nil_2.
Qed.

(** C10: every record returned by [parseEnhancedPmdOutput] has
    [PmdID = CoreID]; hence on every metric the collector derives from such
    a record the values of the labels [pmd_id] and [core_id], when both are
    present, are equal. *)
Theorem C10_pmd_id_is_core_id (text : string) (r : Enh.T) :
  r ∈ parseEnhancedPmdOutput text ->
  Enh.PmdID r = Enh.CoreID r ∧
  ∀ id m a b, m ∈ record_metrics id r ->
              label m "pmd_id" = Some a -> label m "core_id" = Some b -> a = b.
Proof.
  intros Hr. pose proof (parsed_ids_agree text r Hr) as Heq. split; [done|].
  intros id m a b Hm Ha Hb.
  pose proof (record_metrics_labels id r) as Hall. rewrite Forall_forall in Hall.
  destruct (Hall m Hm a b Ha Hb) as [-> ->]. done.
Qed.

Lemma C10_witness :
  ∃ r, r ∈ parseEnhancedPmdOutput two_threads ∧
       Enh.PmdID r = "2" ∧ Enh.CoreID r = "2" ∧
       label (MustNewConstMetric pmdCPUUtilization GaugeValue F64.zero
                ["sys"; Enh.PmdID r; Enh.NumaID r; Enh.CoreID r]) "core_id" = Some "2".
Proof.
  destruct (first_record two_threads) as [r|] eqn:Hr; [|vm_compute in Hr; discriminate].
  assert (Hin : r ∈ parseEnhancedPmdOutput two_threads).
  { unfold first_record in Hr. destruct (parseEnhancedPmdOutput two_threads); [done|].
    injection Hr as ->. apply list_elem_of_here. }
  destruct (C10_pmd_id_is_core_id two_threads r Hin) as [Heq _].
  assert (Hid : Enh.PmdID r = "2") by (vm_compute in Hr; by injection Hr as <-).
  exists r. repeat split; [exact Hin|exact Hid|by rewrite <- Heq|].
  cbn. by rewrite <- Heq, Hid.
Defined.

(** ** C2: derived fields at finalization *)

(** What the scan leaves in the two derived fields.  The records that a
    later header line finalized keep both at zero; the last record, and
    only it, went through [derive]. *)
Lemma header_finalized_records_stay_underived text earlier last :
  parseEnhancedPmdOutput text = earlier ++ [last] ->
  Forall (fun r => Enh.TotalCycles r = 0 ∧ Enh.TotalPackets r = 0) earlier.
Proof.
  destruct (parseEnhancedPmdOutput_shape text) as [->|(earlier' & m & -> & Hall & _)].
  - intros Hnil. by destruct earlier.
  - intros [-> _]%app_inj_tail. eapply Forall_impl; [exact Hall|].
    by intros r (_ & ? & ?).
Qed.

Lemma last_record_is_derived text earlier last :
  parseEnhancedPmdOutput text = earlier ++ [last] ->
  Enh.TotalCycles last = U64.add (Enh.BusyCycles last) (Enh.IdleCycles last) ∧
  Enh.TotalPackets last =
    if 0 <? Enh.Iterations last
    then F64.to_uint64 (F64.mul (F64.of_Z (Enh.Iterations last)) (Enh.PacketsPerIteration last))
    else 0.
Proof.
  destruct (parseEnhancedPmdOutput_shape text) as [->|(earlier' & m & -> & _ & Hm)].
  - intros Hnil. by destruct earlier.
  - intros [_ <-]%app_inj_tail. destruct Hm as (_ & Hc & Hp).
    unfold Enh.derive. rewrite Hc. cbn [Z.eqb]. cbn. rewrite Hp. cbn [Z.eqb andb].
    destruct (0 <? Enh.Iterations m) eqn:Hi; cbn; rewrite ?Hi; done.
Qed.

(** C2 at a failing input: two threads report the same counters (busy
    3.0 Mcycles, idle 2.0 Mcycles, 100 iterations, 2.5 packets per
    iteration).  The record finalized by the second header line keeps
    [TotalCycles = 0] and [TotalPackets = 0]; only the record finalized at
    end of input gets busy + idle = 5000000 and 100 * 2.5 = 250. *)
Theorem C2_header_finalization_skips_derivation :
  (fun m => (Enh.CoreID m, Enh.BusyCycles m, Enh.IdleCycles m, Enh.Iterations m,
             Enh.TotalCycles m, Enh.TotalPackets m))
    <$> parseEnhancedPmdOutput twin_threads =
  [ ("1", 3000000, 2000000, 100, 0, 0);
    ("2", 3000000, 2000000, 100, 5000000, 250) ].
Proof. vm_compute. reflexivity. Qed.

(** ** C5: an unavailable command is an empty success *)

Lemma exit_status_recognised (code : string) :
  Contains ("exit status " ++ code)%string "exit status" = true.
Proof. reflexivity. Qed.

(** C5: when the invocation of [pmd-perf-show] fails with an error whose
    text contains "exit status" (the text of a non-zero exit), both
    [GetEnhancedPmdMetrics] and [GetPmdPerfMetrics] return the empty list
    and a nil error; when it fails with any other error, both return that
    error, wrapped, and no record. *)
Theorem C5_unavailable_command_is_empty_success {OS : Type} `{Host OS}
    (os os1 : OS) (out : cmd_output) (msg : string) :
  Output ovs_appctl ["dpif-netdev/pmd-perf-show"] os = (out, os1) ->
  cmd_err out = Some msg ->
  (Contains msg "exit status" = true ->
     GetEnhancedPmdMetrics os = (([], None), os1) ∧
     GetPmdPerfMetrics os = (([], None), os1)) ∧
  (Contains msg "exit status" = false ->
     GetEnhancedPmdMetrics os
       = (([], Some ("failed to execute pmd-perf-show: " ++ msg)%string), os1) ∧
     GetPmdPerfMetrics os
       = (([], Some ("failed to execute pmd-perf-show: " ++ msg)%string), os1)) ∧
  (∀ code, msg = ("exit status " ++ code)%string ->
     GetEnhancedPmdMetrics os = (([], None), os1) ∧
     GetPmdPerfMetrics os = (([], None), os1)).
Proof.
  intros Hout Herr.
  assert (Hyes : Contains msg "exit status" = true ->
            GetEnhancedPmdMetrics os = (([], None), os1) ∧
            GetPmdPerfMetrics os = (([], None), os1)).
  { intros Hc. unfold GetEnhancedPmdMetrics, GetPmdPerfMetrics.
    by rewrite Hout, Herr, Hc. }
  split; [exact Hyes|]. split.
  - intros Hc. unfold GetEnhancedPmdMetrics, GetPmdPerfMetrics.
    by rewrite Hout, Herr, Hc.
  - intros code ->. apply Hyes, exit_status_recognised.
Qed.

Lemma C5_witness :
  (let os := sim [100] (failed "exit status 2") (ok "") (ok "") in
   fst (GetEnhancedPmdMetrics os) = ([], None) ∧ fst (GetPmdPerfMetrics os) = ([], None)) ∧
  (let os := sim [100] (failed "fork/exec /usr/bin/ovs-appctl: permission denied")
               (ok "") (ok "") in
   fst (GetEnhancedPmdMetrics os)
     = ([], Some "failed to execute pmd-perf-show: fork/exec /usr/bin/ovs-appctl: permission denied") ∧
   fst (GetPmdPerfMetrics os)
     = ([], Some "failed to execute pmd-perf-show: fork/exec /usr/bin/ovs-appctl: permission denied")).
Proof.
  split.
  - intros os.
    destruct (Output ovs_appctl ["dpif-netdev/pmd-perf-show"] os) as [out os1] eqn:Hout.
    assert (Herr : cmd_err out = Some "exit status 2")
      by (vm_compute in Hout; by injection Hout as <- _).
    destruct (C5_unavailable_command_is_empty_success os os1 out _ Hout Herr)
      as ((-> & ->) & _); [reflexivity|]. done.
  - intros os.
    destruct (Output ovs_appctl ["dpif-netdev/pmd-perf-show"] os) as [out os1] eqn:Hout.
    assert (Herr : cmd_err out = Some "fork/exec /usr/bin/ovs-appctl: permission denied")
      by (vm_compute in Hout; by injection Hout as <- _).
    destruct (C5_unavailable_command_is_empty_success os os1 out _ Hout Herr)
      as (_ & (-> & ->) & _); [reflexivity|]. done.
Defined.

(** ** C4: the enrichment pass keeps the primary values *)

(** C4: when the primary command succeeds, the list returned by
    [GetEnhancedPmdMetrics] is the list built from the primary output,
    whatever the secondary command printed or whether it failed: every
    field of every base record keeps its primary value.  The enrichment
    pass itself, [enrichWithStats], changes no element of the slice. *)
Theorem C4_enrichment_keeps_primary_values {OS : Type} `{Host OS}
    (os os1 os2 : OS) (out statsOut : cmd_output) :
  Output ovs_appctl ["dpif-netdev/pmd-perf-show"] os = (out, os1) ->
  cmd_err out = None ->
  Output ovs_appctl ["dpif-netdev/pmd-stats-show"] os1 = (statsOut, os2) ->
  GetEnhancedPmdMetrics os = ((parseEnhancedPmdOutput (stdout out), None), os2) ∧
  (∀ i base, parseEnhancedPmdOutput (stdout out) !! i = Some base ->
             (GetEnhancedPmdMetrics os).1.1 !! i = Some base) ∧
  (∀ metrics statsOutput i base,
     metrics !! i = Some base -> enrichWithStats metrics statsOutput !! i = Some base).
Proof.
  intros Hout Herr Hstats.
  assert (Heq : GetEnhancedPmdMetrics os = ((parseEnhancedPmdOutput (stdout out), None), os2)).
  { unfold GetEnhancedPmdMetrics. rewrite Hout, Herr, Hstats.
    by destruct (cmd_err statsOut). }
  split; [exact Heq|]. split; [by rewrite Heq|done].
Qed.

Lemma C4_witness :
  let os := sim [100] (ok one_thread) (ok one_thread_stats) (ok "") in
  Enh.Iterations <$> parseEnhancedPmdOutput one_thread_stats = [999] ∧
  Enh.Iterations <$> (GetEnhancedPmdMetrics os).1.1 = [100].
Proof.
  intros os. split; [vm_compute; reflexivity|].
  destruct (Output ovs_appctl ["dpif-netdev/pmd-perf-show"] os) as [out os1] eqn:Hout.
  destruct (Output ovs_appctl ["dpif-netdev/pmd-stats-show"] os1) as [statsOut os2] eqn:Hstats.
  assert (Herr : cmd_err out = None) by (vm_compute in Hout; by injection Hout as <- _).
  destruct (C4_enrichment_keeps_primary_values os os1 os2 out statsOut Hout Herr Hstats)
    as (-> & _ & _).
  vm_compute in Hout. injection Hout as <- _. vm_compute. reflexivity.
Defined.

(** ** C7: only the enumerated drop reasons *)

Lemma dropTypes_count : length dropTypes = 24%nat ∧ NoDup dropTypes.
Proof.
  split; [reflexivity|]. apply (bool_decide_unpack (NoDup dropTypes)).
  vm_compute. exact I.
Qed.

Lemma fold_insert_true (l : list string) (m : gmap string bool) (k : string) :
  fold_left (fun acc dt => <[dt := true]> acc) l m !! k = Some true ->
  k ∈ l ∨ m !! k = Some true.
Proof.
  revert m. induction l as [|dt l IH]; intros m; simpl; [by right|].
  intros [Hin|Hm]%IH.
  - left. by right.
  - destruct (decide (dt = k)) as [->|Hne].
    + left. by left.
    + right. by rewrite lookup_insert_ne in Hm.
Qed.

Lemma is_drop_type_spec (eventName : string) :
  is_drop_type eventName = true -> eventName ∈ dropTypes.
Proof.
  unfold is_drop_type. intros H.
  destruct (dropTypeMap !! eventName) as [b|] eqn:Hl.
  - change (b = true) in H. subst b.
    apply fold_insert_true in Hl as [?|Hl]; [done|]. by rewrite lookup_empty in Hl.
  - exact (False_ind _ (Bool.diff_false_true H)).
Qed.

Section DropCounters.
Variable tf trf : string -> string.

Lemma drop_step_lookup d text k v :
  drop_step tf trf d text !! k = Some v ->
  d !! k = Some v ∨ (k ∈ dropTypes ∧ reports tf trf text k v).
Proof.
  unfold drop_step, reports.
  destruct (FindStringSubmatch coverageRe (TrimSpace tf trf text)) as [matches|]; [|by left].
  destruct (is_drop_type (sub matches 1)) eqn:Hd; [|by left].
  destruct (ParseUint (sub matches 2)) as [val|] eqn:Hv; [|by left].
  destruct (decide (sub matches 1 = k)) as [<-|Hne].
  - rewrite lookup_insert_eq. intros [= <-]. right.
    split; [exact (is_drop_type_spec _ Hd)|].
    exists matches. split; [reflexivity|]. split; [reflexivity|exact Hv].
  - rewrite lookup_insert_ne by exact Hne. intros Hl. left. exact Hl.
Qed.

Lemma drop_step_foreign d text token :
  leading_token tf trf text = Some token -> token ∉ dropTypes -> drop_step tf trf d text = d.
Proof.
  unfold leading_token, drop_step.
  destruct (FindStringSubmatch coverageRe (TrimSpace tf trf text)) as [matches|]; [|done].
  intros [= <-] Hnot. destruct (is_drop_type (sub matches 1)) eqn:Hd; [|done].
  by apply is_drop_type_spec in Hd.
Qed.

Lemma drop_fold_lookup ls d k v :
  fold_left (drop_step tf trf) ls d !! k = Some v ->
  d !! k = Some v ∨ (k ∈ dropTypes ∧ ∃ text, text ∈ ls ∧ reports tf trf text k v).
Proof.
  revert d. induction ls as [|text ls IH]; intros d; simpl; [by left|].
  intros [Hd|(Hk & t & Ht & Hr)]%IH.
  - apply drop_step_lookup in Hd as [?|[Hk Hr]]; [by left|].
    right. split; [done|]. exists text. split; [by left|done].
  - right. split; [done|]. exists t. split; [by right|done].
Qed.

Lemma parseDropCounters_lookup output k v :
  parseDropCounters tf trf output !! k = Some v ->
  k ∈ dropTypes ∧ ∃ text, text ∈ text_lines output ∧ reports tf trf text k v.
Proof.
  unfold parseDropCounters. intros [Hd|(Hk & t & Ht & Hr)]%drop_fold_lookup.
  - by rewrite lookup_empty in Hd.
  - split; [done|]. exists t. split; [|done]. by apply scanLines_visits_text_lines.
Qed.
End DropCounters.

(** C7: the map built by [GetDropCounters] has keys in the 24-element list
    [dropTypes] only, and every entry comes from a line of the output that
    reports that counter with that value; a line whose leading token is
    not in the list leaves the map as it is; a drop reason that no line
    reports is absent from the map; when the command succeeds the map is
    the one built from its output; the lines "datapath_drop_meter 42" and
    "other_counter 7" give the map with the one entry datapath_drop_meter
    = 42. *)
Theorem C7_only_enumerated_drop_reasons (tf trf : string -> string) :
  (length dropTypes = 24%nat ∧ NoDup dropTypes) ∧
  (∀ output k v,
     parseDropCounters tf trf output !! k = Some v ->
     k ∈ dropTypes ∧ ∃ text, text ∈ text_lines output ∧ reports tf trf text k v) ∧
  (∀ d text token,
     leading_token tf trf text = Some token -> token ∉ dropTypes ->
     drop_step tf trf d text = d) ∧
  (∀ output k,
     (∀ text v, text ∈ text_lines output -> ¬ reports tf trf text k v) ->
     parseDropCounters tf trf output !! k = None) ∧
  (∀ (OS : Type) (H : Host OS) (os : OS) k v,
     (GetDropCounters tf trf os).1.1 !! k = Some v -> k ∈ dropTypes) ∧
  (∀ (OS : Type) (H : Host OS) (os os1 : OS) out,
     Output ovs_appctl ["coverage/show"] os = (out, os1) -> cmd_err out = None ->
     GetDropCounters tf trf os = ((parseDropCounters tf trf (stdout out), None), os1)) ∧
  parseDropCounters tf trf coverage_sample = {[ "datapath_drop_meter" := 42 ]}.
Proof.
  split; [exact dropTypes_count|].
  split; [apply parseDropCounters_lookup|].
  split; [apply drop_step_foreign|].
  split.
  { intros output k Hno. destruct (_ !! k) as [v|] eqn:Hl; [|done].
    apply parseDropCounters_lookup in Hl as (_ & text & Hin & Hr).
    by destruct (Hno text v Hin). }
  split.
  { intros OS H os k v. unfold GetDropCounters.
    destruct (Output _ _ os) as [out os1]. destruct (cmd_err out); simpl.
    - by rewrite lookup_empty.
    - by intros [? _]%parseDropCounters_lookup. }
  split.
  { intros OS H os os1 out Hout Herr. unfold GetDropCounters. by rewrite Hout, Herr. }
  vm_compute. reflexivity.
Qed.

Lemma C7_witness :
  let counters := parseDropCounters id id coverage_sample in
  counters !! "datapath_drop_meter" = Some 42 ∧
  "datapath_drop_meter" ∈ dropTypes ∧
  counters !! "other_counter" = None ∧
  counters !! "datapath_drop_lock_error" = None.
Proof.
  intros counters.
  destruct (C7_only_enumerated_drop_reasons id id) as (_ & Hkeys & _ & _ & _ & _ & Hsample).
  assert (Hl : counters !! "datapath_drop_meter" = Some 42)
    by (unfold counters; rewrite Hsample; vm_compute; reflexivity).
  split; [exact Hl|]. split; [exact (proj1 (Hkeys _ _ _ Hl))|].
  unfold counters. rewrite Hsample. split; vm_compute; reflexivity.
Defined.

(** ** What the collectors leave alone *)

Lemma extends_refl e : extends e e.
Proof. split; [done|]. exists []. by rewrite app_nil_r. Qed.

Lemma extends_trans e1 e2 e3 : extends e1 e2 -> extends e2 e3 -> extends e1 e3.
Proof.
  intros [H1 [ms1 Hm1]] [H2 [ms2 Hm2]]. split; [congruence|].
  exists (ms1 ++ ms2). by rewrite Hm2, Hm1, app_assoc.
Qed.

Lemma extends_append ms e : extends e (append_metrics ms e).
Proof. split; [done|]. by exists ms. Qed.

Lemma extends_append_one m e : extends e (append_metric m e).
Proof. split; [done|]. by exists [m]. Qed.

Lemma extends_fold {A} (f : Exporter -> A -> Exporter) (l : list A) e :
  (∀ e x, extends e (f e x)) -> extends e (fold_left f l e).
Proof.
  intros Hf. revert e. induction l as [|x l IH]; intros e; simpl.
  - apply extends_refl.
  - eapply extends_trans; [apply Hf|apply IH].
Qed.

Section CollectorFrames.
Context {OS : Type} `{Host OS}.
Variable tf trf : string -> string.

Lemma collectDropCounters_extends e os : extends e (collectDropCounters tf trf e os).1.
Proof.
  unfold collectDropCounters. destruct (GetDropCounters tf trf os) as [[counters err] os1].
  destruct err; simpl; [apply extends_refl|].
  apply extends_fold. intros e' [reason count]. apply extends_append_one.
Qed.

Lemma collectBasicPMDMetrics_extends e os : extends e (collectBasicPMDMetrics e os).1.
Proof.
  unfold collectBasicPMDMetrics. destruct (GetPmdPerfMetrics os) as [[ms err] os1].
  destruct err; [apply extends_refl|]. destruct ms; [apply extends_refl|].
  cbn [fst]. apply extends_fold. intros e' pmd. apply extends_append.
Qed.

Lemma CollectPMDMetrics_extends e os : extends e (CollectPMDMetrics tf trf e os).1.
Proof.
  unfold CollectPMDMetrics. destruct (GetEnhancedPmdMetrics os) as [[ms err] os1].
  destruct err; [apply collectBasicPMDMetrics_extends|].
  destruct ms as [|pmd ms]; [apply extends_refl|].
  eapply extends_trans; [|apply collectDropCounters_extends].
  apply extends_fold. intros e' pmd'. apply extends_append.
Qed.

Lemma collect_all_interval e os :
  pollInterval (collect_all tf trf e os).1 = pollInterval e.
Proof.
  unfold collect_all.
  set (e0 := if (0 <? length (metrics e))%nat then set_metrics [] e else e).
  assert (He0 : pollInterval e0 = pollInterval e) by (subst e0; by destruct (_ <? _)%nat).
  destruct (ClientCollect os) as [rep os1].
  match goal with |- context [CollectPMDMetrics tf trf ?e1 os1] =>
    pose proof (CollectPMDMetrics_extends e1 os1) as [Hrest _];
    destruct (CollectPMDMetrics tf trf e1 os1) as [e2 os2] end.
  cbn in *. by injection Hrest as _ -> _ _ _.
Qed.
End CollectorFrames.

(** ** C3: a failing drop-counter source *)

(** C3, as stated, fails: in a rebuild whose primary command reports one
    thread and whose [coverage/show] invocation fails, the command is run
    and [GetDropCounters] returns an error, yet the error counter of the
    exporter is the same after the rebuild as before it. *)
Lemma C3_error_counter_not_incremented :
  let os0 := sim [100; 101] (ok one_thread) (ok "") (failed "exit status 2") in
  let e0 := exporter0 10 in
  let '(e1, os1) := GatherMetrics id id e0 os0 in
  Command [ovs_appctl; "coverage/show"] ∈ sim_log os1 ∧
  (GetDropCounters id id os0).1.2 = Some "failed to get coverage: exit status 2" ∧
  errors e1 = errors e0 ∧
  errors e1 ≠ I64.add (errors e0) 1.
Proof. vm_compute. repeat split; try done. apply list_elem_of_here. Qed.

(** C3, amended: when the invocation of [coverage/show] fails,
    [GetDropCounters] returns the wrapped error to its caller
    [collectDropCounters], which returns the exporter unchanged: no drop
    metric is appended, the metrics gathered before are kept, and the
    error counter is not incremented.  No path of [CollectPMDMetrics]
    changes anything of the exporter but the metrics it appends. *)
Theorem C3_drop_counter_failure_is_swallowed (tf trf : string -> string)
    {OS : Type} `{Host OS} (e : Exporter) (os os1 : OS) (out : cmd_output) (msg : string) :
  Output ovs_appctl ["coverage/show"] os = (out, os1) ->
  cmd_err out = Some msg ->
  GetDropCounters tf trf os = ((∅, Some ("failed to get coverage: " ++ msg)%string), os1) ∧
  collectDropCounters tf trf e os = (e, os1) ∧
  (∀ e' os', errors (CollectPMDMetrics tf trf e' os').1 = errors e' ∧
             ∃ ms, metrics (CollectPMDMetrics tf trf e' os').1 = metrics e' ++ ms).
Proof.
  intros Hout Herr.
  assert (Hget : GetDropCounters tf trf os
                 = ((∅, Some ("failed to get coverage: " ++ msg)%string), os1)).
  { unfold GetDropCounters. by rewrite Hout, Herr. }
  split; [exact Hget|]. split.
  - unfold collectDropCounters. by rewrite Hget.
  - intros e' os'. destruct (CollectPMDMetrics_extends tf trf e' os') as [Hrest Hms].
    split; [|exact Hms]. by injection Hrest as _ _ -> _ _.
Qed.

Lemma C3_witness :
  let os := sim [100] (ok one_thread) (ok "") (failed "exit status 2") in
  let e := exporter0 10 in
  (GetDropCounters id id os).1 = (∅, Some "failed to get coverage: exit status 2") ∧
  (collectDropCounters id id e os).1 = e.
Proof.
  intros os e.
  destruct (Output ovs_appctl ["coverage/show"] os) as [out os1] eqn:Hout.
  assert (Herr : cmd_err out = Some "exit status 2")
    by (vm_compute in Hout; by injection Hout as <- _).
  destruct (C3_drop_counter_failure_is_swallowed id id e os os1 out _ Hout Herr)
    as (-> & -> & _).
  done.
Defined.

(** ** C8: the rate limit *)

Lemma I64_wrap_in_range z : I64.in_range z -> I64.wrap z = z.
Proof.
  unfold I64.in_range, I64.wrap, I64.min, I64.max. intros Hz.
  rewrite Z.mod_small; lia.
Qed.

Lemma Time_Add_seconds now p :
  interval_fits p -> Unix (Time_Add now (I64.mul p Second)) = Unix now + p.
Proof.
  unfold interval_fits, I64.mul. intros Hfit.
  rewrite (I64_wrap_in_range _ Hfit). unfold Time_Add, Unix. cbn [UnixNano].
  by rewrite Z.div_add.
Qed.



(** ** Threads: what the lock guarantees and what it does not *)

Lemma sending_cons p ts : sending (p :: ts) = (is_sending p + sending ts)%nat.
Proof. by destruct p. Qed.

Lemma sending_insert ts i p q :
  ts !! i = Some p ->
  (sending (<[i := q]> ts) + is_sending p = sending ts + is_sending q)%nat.
Proof.
  revert i. induction ts as [|r ts IH]; intros i; [done|].
  destruct i as [|i]; simpl.
  - intros [= ->]. destruct p, q; simpl; lia.
  - intros Hi. specialize (IH i Hi). destruct r; simpl; lia.
Qed.

Lemma sending_replicate n : sending (replicate n AtTicker) = 0%nat.
Proof. by induction n. Qed.

Lemma insert_other (ts : list pc) i q j r :
  <[i := q]> ts !! j = Some r -> i ≠ j -> ts !! j = Some r.
Proof. intros Hl Hne. by rewrite list_lookup_insert_ne in Hl. Qed.

Lemma insert_same (ts : list pc) i q r :
  <[i := q]> ts !! i = Some r -> r = q.
Proof.
  intros Hl. destruct (decide (i < length ts)%nat).
  - rewrite list_lookup_insert_eq in Hl by done. congruence.
  - rewrite list_insert_ge in Hl by lia. apply lookup_lt_Some in Hl. lia.
Qed.

Ltac other_thread H j i :=
  destruct (decide (i = j)) as [<-|Hne];
  [apply insert_same in H; try discriminate H
  |apply insert_other in H; [|exact Hne]].

(** Two refilling threads after thread [i] moved to a state that is not
    refilling were two refilling threads before. *)
Ltac still_unique Hu i :=
  let j := fresh "j" in let k := fresh "k" in
  let Hj := fresh "Hj" in let Hk := fresh "Hk" in
  intros j k ? ? Hj Hk;
  destruct (decide (i = j)) as [<-|?];
    [apply insert_same in Hj; discriminate Hj|];
  destruct (decide (i = k)) as [<-|?];
    [apply insert_same in Hk; discriminate Hk|];
  apply insert_other in Hj; [|assumption];
  apply insert_other in Hk; [|assumption];
  exact (Hu _ _ _ _ Hj Hk).

Lemma thread_step_inv i c c' : thread_inv c -> thread_step i c c' -> thread_inv c'.
Proof.
  intros [Hr Hw Hp Hf Hu Hret] Hstep.
  destruct Hstep as [c Hi Hlt|c Hi Hge|c built Hi Hlock|c m todo Hi|c Hi|c Hi Hnow|c Hi];
    pose proof (sending_insert _ i _ AtRLock Hi) as Hs1;
    pose proof (sending_insert _ i _ AtLock Hi) as Hs2;
    pose proof (sending_insert _ i _ Sending Hi) as Hs3;
    pose proof (fun t => sending_insert _ i _ (Refilling t) Hi) as Hs4;
    pose proof (fun t => sending_insert _ i _ (Returned t) Hi) as Hs5;
    cbn [is_sending] in *; unfold with_thread;
    constructor; cbn [c_lock c_threads c_rebuilds c_metrics writer readers].
  (* ticker_ahead *)
  - lia.
  - done.
  - done.
  - intros j todo Hj. other_thread Hj j i. eauto.
  - still_unique Hu i.
  - intros j sent Hj. other_thread Hj j i. eauto.
  (* ticker_due *)
  - lia.
  - done.
  - done.
  - intros j todo Hj. other_thread Hj j i. eauto.
  - still_unique Hu i.
  - intros j sent Hj. other_thread Hj j i. eauto.
  (* lock_and_clear *)
  - rewrite Hlock in Hr. cbn in Hr. specialize (Hs4 built). lia.
  - done.
  - done.
  - done.
  - intros j k t1 t2 Hj Hk. rewrite Hlock in Hf. cbn in Hf.
    destruct (decide (i = j)) as [<-|?]; destruct (decide (i = k)) as [<-|?]; [done| | |].
    + apply insert_other in Hk; [|assumption]. by specialize (Hf _ _ Hk).
    + apply insert_other in Hj; [|assumption]. by specialize (Hf _ _ Hj).
    + apply insert_other in Hj; [|assumption]. by specialize (Hf _ _ Hj).
  - intros j sent Hj. other_thread Hj j i. eauto.
  (* append_one *)
  - specialize (Hs4 todo). lia.
  - done.
  - intros Hfalse. rewrite (Hf _ _ Hi) in Hfalse. discriminate.
  - intros j todo' Hj. destruct (decide (i = j)) as [<-|Hne]; [by eapply Hf|].
    apply insert_other in Hj; eauto.
  - intros j k t1 t2 Hj Hk.
    destruct (decide (i = j)) as [<-|?]; destruct (decide (i = k)) as [<-|?]; [done| | |].
    + apply insert_other in Hk; [|assumption]. exact (Hu _ _ _ _ Hi Hk).
    + apply insert_other in Hj; [|assumption]. exact (Hu _ _ _ _ Hj Hi).
    + apply insert_other in Hj; [|assumption]. apply insert_other in Hk; [|assumption].
      exact (Hu _ _ _ _ Hj Hk).
  - intros j sent Hj. other_thread Hj j i. eauto.
  (* tick_and_unlock *)
  - pose proof (Hw (Hf _ _ Hi)). lia.
  - done.
  - done.
  - intros j todo Hj. other_thread Hj j i. by destruct (Hne (Hu _ _ _ _ Hi Hj)).
  - still_unique Hu i.
  - intros j sent Hj. other_thread Hj j i. right. eauto.
  (* rlock *)
  - lia.
  - done.
  - intros _. apply Hp, Hnow.
  - intros j todo Hj. other_thread Hj j i. rewrite (Hf _ _ Hj) in Hnow. discriminate.
  - still_unique Hu i.
  - intros j sent Hj. other_thread Hj j i. eauto.
  (* send_and_runlock *)
  - specialize (Hs5 (c_metrics c)). lia.
  - intros Hwr. specialize (Hw Hwr). lia.
  - done.
  - intros j todo Hj. other_thread Hj j i. eauto.
  - still_unique Hu i.
  - intros j sent Hj. destruct (decide (i = j)) as [<-|Hne].
    + apply insert_same in Hj as [= ->].
      assert (Hwr : writer (c_lock c) = false).
      { destruct (writer (c_lock c)) eqn:Hwr; [|done]. specialize (Hw eq_refl).
        specialize (Hs5 (c_metrics c)). lia. }
      apply head_Some_elem_of. by apply Hp.
    + apply insert_other in Hj; eauto.
Qed.

Lemma step_inv c c' : thread_inv c -> step c c' -> thread_inv c'.
Proof.
  intros Hinv Hstep. destruct Hstep as [i c c' Hstep|c].
  - exact (thread_step_inv i c c' Hinv Hstep).
  - destruct Hinv. constructor; assumption.
Qed.

Lemma start_inv now interval ticker snapshot n :
  thread_inv (start now interval ticker snapshot n).
Proof.
  constructor; cbn.
  - by rewrite sending_replicate.
  - done.
  - done.
  - by intros i todo [[=] _]%lookup_replicate.
  - by intros i j t1 t2 [[=] _]%lookup_replicate.
  - by intros i sent [[=] _]%lookup_replicate.
Qed.

Lemma reachable_inv now interval ticker snapshot n c :
  rtc step (start now interval ticker snapshot n) c -> thread_inv c.
Proof.
  intros Hrun. eapply (rtc_ind_r (fun c => thread_inv c)); [|by eauto using step_inv|exact Hrun].
  apply start_inv.
Qed.

Lemma no_sending ts j : sending ts = 0%nat -> ts !! j ≠ Some Sending.
Proof.
  revert j. induction ts as [|p ts IH]; intros j Hs; [done|].
  destruct j as [|j]; simpl.
  - intros [= ->]. discriminate Hs.
  - apply IH. destruct p; simpl in Hs; try discriminate Hs; exact Hs.
Qed.

(** ** C9: publication of the rebuilt list *)

Ltac thread_moves i rule :=
  eapply rtc_l;
  [apply (step_thread i); eapply rule; cbn; first [reflexivity | lia | done]|cbn].

Ltac thread_locks i todo :=
  eapply rtc_l;
  [apply (step_thread i); apply lock_and_clear with (built := todo); cbn;
   first [reflexivity | done]|cbn].

Ltac clock_moves := eapply rtc_l; [apply step_clock|cbn].

(** C9, as stated, fails.  Two calls of [Collect] on an exporter whose
    last rebuild left one metric: the second call finds the ticker ahead
    and reaches [RLock]; the clock reaches the ticker; the first call
    passes the test, takes the write lock and clears the slice.  Now a
    rebuild is in progress, the shared slice is empty, which is not the
    result of any finished rebuild, and the second call cannot move: the
    reader blocks until the rebuild has released the lock. *)
Lemma C9_reader_blocks_during_rebuild :
  ∃ c, (rtc step (start 5 10 10 [m_up 1] 2) c) ∧
       c_threads c = [Refilling [m_up 1; m_up 0]; AtRLock] ∧
       c_metrics c = [] ∧
       (c_metrics c ∉ c_rebuilds c) ∧
       blocked 1 c.
Proof.
  eexists. split.
  { thread_moves 1%nat ticker_ahead.
    do 5 clock_moves.
    thread_moves 0%nat ticker_due.
    thread_locks 0%nat [m_up 1; m_up 0].
    apply rtc_refl. }
  cbn. split; [reflexivity|]. split; [reflexivity|]. split.
  - intros [[=]|[]%elem_of_nil]%elem_of_cons.
  - split.
    + exists AtRLock. split; [reflexivity|discriminate].
    + intros c' Hstep. inversion Hstep; subst; cbn in *; discriminate.
Qed.

(** C9, amended: the metrics slice is shared and guarded by the
    exporter's read/write lock.  In every state that concurrent calls of
    [Collect] can reach, what a returned call has sent is the complete
    result of a finished rebuild (or the list the exporter held at the
    start); no call reads while a rebuild refills the slice, and at most
    one rebuild refills it at a time. *)
Theorem C9_readers_see_finished_rebuilds
    (now interval ticker : Z) (snapshot : list Metric) (n : nat) (c : config) :
  rtc step (start now interval ticker snapshot n) c ->
  (∀ i sent, c_threads c !! i = Some (Returned sent) -> sent ∈ c_rebuilds c) ∧
  (∀ i j todo, c_threads c !! i = Some (Refilling todo) ->
               c_threads c !! j ≠ Some Sending) ∧
  (∀ i j todo todo', c_threads c !! i = Some (Refilling todo) ->
                     c_threads c !! j = Some (Refilling todo') -> i = j).
Proof.
  intros Hrun. destruct (reachable_inv _ _ _ _ _ _ Hrun) as [Hr Hw Hp Hf Hu Hret].
  split; [exact Hret|]. split; [|exact Hu].
  intros i j todo Hi. apply no_sending. rewrite <- Hr. apply Hw. by eapply Hf.
Qed.

Lemma one_reader_run : rtc step (start 5 10 10 [m_up 1] 1) one_reader_done.
Proof.
  thread_moves 0%nat ticker_ahead.
  thread_moves 0%nat rlock.
  thread_moves 0%nat send_and_runlock.
  apply rtc_refl.
Qed.

Lemma C9_witness :
  rtc step (start 5 10 10 [m_up 1] 1) one_reader_done ∧
  [m_up 1] ∈ c_rebuilds one_reader_done.
Proof.
  split; [exact one_reader_run|].
  destruct (C9_readers_see_finished_rebuilds 5 10 10 [m_up 1] 1 one_reader_done
              one_reader_run) as (Hsent & _ & _).
  exact (Hsent 0%nat [m_up 1] eq_refl).
Defined.

(** ** C8, as stated, fails *)


(** * Further properties *)

(** ** Texts put one after the other *)

Lemma split_lines_nl t : split_lines (t ++ nl)%string ≠ [].
Proof.
  induction t as [|c t IH]; simpl; [done|].
  destruct (Ascii.eqb c newline); [done|].
  by destruct (split_lines (t ++ nl)%string).
Qed.

Lemma split_lines_app t rest :
  split_lines (t ++ nl ++ rest)%string = split_lines (t ++ nl)%string ++ split_lines rest.
Proof.
  induction t as [|c t IH]; simpl; [done|].
  destruct (Ascii.eqb c newline); [by rewrite IH|].
  rewrite IH. pose proof (split_lines_nl t) as Hne.
  by destruct (split_lines (t ++ nl)%string).
Qed.

Lemma scan_tokens_app ls1 ls2 :
  Forall (fun l => fits_buffer l = true) ls1 ->
  scan_tokens (ls1 ++ ls2) = scan_tokens ls1 ++ scan_tokens ls2.
Proof.
  induction 1 as [|l ls Hl _ IH]; simpl; [done|].
  by rewrite Hl, IH.
Qed.

Lemma scanLines_app t rest :
  short_lines (t ++ nl)%string ->
  scanLines (t ++ nl ++ rest)%string = scanLines (t ++ nl)%string ++ scanLines rest.
Proof.
  intros Hshort. unfold scanLines. rewrite split_lines_app. by apply scan_tokens_app.
Qed.

(** ** The basic parser, block by block *)

Lemma perf_step_behind pre st line :
  Perf.step (perf_behind pre st) line = perf_behind pre (Perf.step st line).
Proof.
  destruct st as [ms cur]. unfold Perf.step, perf_behind, Perf.flush.
  cbn [Perf.metrics Perf.currentMetric].
  destruct (FindStringSubmatch pmdHeaderRe line); destruct cur;
    cbn [Perf.metrics Perf.currentMetric]; by rewrite ?app_assoc.
Qed.

Lemma perf_fold_behind ls pre st :
  fold_left Perf.step ls (perf_behind pre st) = perf_behind pre (fold_left Perf.step ls st).
Proof.
  revert st. induction ls as [|line ls IH]; intros st; simpl; [done|].
  by rewrite perf_step_behind, IH.
Qed.

Lemma perf_flush_behind pre st :
  Perf.flush (perf_behind pre st) = pre ++ Perf.flush st.
Proof.
  destruct st as [ms cur]. unfold Perf.flush, perf_behind. cbn.
  destruct cur; by rewrite ?app_assoc.
Qed.

(** A header line closes what came before it: the records built from it
    on do not depend on the state it found. *)
Lemma perf_fold_header line matches ls st :
  FindStringSubmatch pmdHeaderRe line = Some matches ->
  Perf.flush (fold_left Perf.step (line :: ls) st) =
  Perf.flush st ++ Perf.flush (fold_left Perf.step (line :: ls) Perf.init).
Proof.
  intros Hh. cbn [fold_left].
  assert (Hs : ∀ st0, Perf.step st0 line
             = perf_behind (Perf.flush st0)
                 {| Perf.metrics := []; Perf.currentMetric := Some (Perf.fresh matches) |}).
  { intros st0. unfold Perf.step, perf_behind. rewrite Hh.
    cbn [Perf.metrics Perf.currentMetric]. by rewrite app_nil_r. }
  rewrite (Hs st), (Hs Perf.init), !perf_fold_behind, !perf_flush_behind.
  reflexivity.
Qed.

Lemma perf_fold_no_header ls :
  header_captures ls = [] -> fold_left Perf.step ls Perf.init = Perf.init.
Proof.
  induction ls as [|line ls IH]; [done|].
  unfold header_captures. simpl. unfold Perf.step at 2.
  destruct (FindStringSubmatch pmdHeaderRe line); [done|]. exact IH.
Qed.

Lemma starts_with_header_inv text :
  starts_with_header text ->
  ∃ line matches ls, scanLines text = line :: ls ∧
                     FindStringSubmatch pmdHeaderRe line = Some matches.
Proof.
  unfold starts_with_header. destruct (scanLines text) as [|line ls]; simpl.
  - by intros [? ?].
  - intros [matches Hm]. by exists line, matches, ls.
Qed.

(** ** The enhanced parser, block by block *)

Lemma enh_step_behind pre st line :
  Enh.step (enh_behind pre st) line = enh_behind pre (Enh.step st line).
Proof.
  destruct st as [ms cur h]. unfold Enh.step, enh_behind, Enh.flush.
  cbn [Enh.metrics Enh.currentMetric Enh.currentHistogram].
  destruct (FindStringSubmatch pmdHeaderRe line).
  { destruct cur; cbn [Enh.metrics Enh.currentMetric Enh.currentHistogram];
      by rewrite ?app_assoc. }
  destruct cur; [|reflexivity].
  destruct (FindStringSubmatch Enh.histogramRe line); [reflexivity|].
  destruct h; reflexivity.
Qed.

Lemma enh_fold_behind ls pre st :
  fold_left Enh.step ls (enh_behind pre st) = enh_behind pre (fold_left Enh.step ls st).
Proof.
  revert st. induction ls as [|line ls IH]; intros st; simpl; [done|].
  by rewrite enh_step_behind, IH.
Qed.

Lemma enh_finish_behind pre st :
  Enh.finish (enh_behind pre st) = pre ++ Enh.finish st.
Proof.
  destruct st as [ms cur h]. unfold Enh.finish, enh_behind.
  cbn [Enh.metrics Enh.currentMetric]. destruct cur; by rewrite ?app_assoc.
Qed.

Lemma enh_fold_header line matches ls st :
  FindStringSubmatch pmdHeaderRe line = Some matches ->
  Enh.finish (fold_left Enh.step (line :: ls) st) =
  Enh.flush st ++ Enh.finish (fold_left Enh.step (line :: ls) Enh.init).
Proof.
  intros Hh. cbn [fold_left].
  assert (Hs : ∀ st0, Enh.step st0 line
             = enh_behind (Enh.flush st0)
                 {| Enh.metrics := []; Enh.currentMetric := Some (Enh.fresh matches);
                    Enh.currentHistogram := None |}).
  { intros st0. unfold Enh.step, enh_behind. rewrite Hh.
    cbn [Enh.metrics Enh.currentMetric Enh.currentHistogram]. by rewrite app_nil_r. }
  rewrite (Hs st), (Hs Enh.init), !enh_fold_behind, !enh_finish_behind.
  reflexivity.
Qed.

Lemma enh_fold_no_header ls :
  header_captures ls = [] -> fold_left Enh.step ls Enh.init = Enh.init.
Proof.
  induction ls as [|line ls IH]; [done|].
  unfold header_captures. simpl. unfold Enh.step at 2.
  destruct (FindStringSubmatch pmdHeaderRe line); [done|]. exact IH.
Qed.

Lemma starts_with_header_spec text :
  (head (scanLines text) ≫= FindStringSubmatch pmdHeaderRe) ≠ None ->
  starts_with_header text.
Proof.
  unfold starts_with_header. destruct (_ ≫= _) as [matches|]; [by exists matches|done].
Qed.

(** X1: the basic parser works block by block.  When a text of complete
    lines that all fit the scanner is followed by a text that starts with
    a thread header, the records of the whole are the records of the first
    text followed by the records of the second: what precedes a header
    line has no influence on the records from that line on. *)
Theorem parsePmdPerfOutput_app (block rest : string) :
  short_lines (block ++ nl)%string ->
  starts_with_header rest ->
  parsePmdPerfOutput (block ++ nl ++ rest)%string =
  ((parsePmdPerfOutput (block ++ nl)%string).1 ++ (parsePmdPerfOutput rest).1, None).
Proof.
  intros Hshort (line & matches & ls & Hrest & Hh)%starts_with_header_inv.
  unfold parsePmdPerfOutput. cbn [fst]. f_equal.
  rewrite (scanLines_app _ _ Hshort), fold_left_app, Hrest.
  exact (perf_fold_header line matches ls _ Hh).
Qed.

Lemma parsePmdPerfOutput_app_witness :
  (Perf.PmdID <$> (parsePmdPerfOutput (one_thread ++ nl ++ two_threads)%string).1)
  = ["2"; "2"; "4"].
Proof.
  assert (Hshort : short_lines (one_thread ++ nl)%string)
    by (apply short_lines_spec; vm_compute; reflexivity).
  assert (Hhead : starts_with_header two_threads)
    by (apply starts_with_header_spec; vm_compute; discriminate).
  rewrite (parsePmdPerfOutput_app one_thread two_threads Hshort Hhead).
  vm_compute. reflexivity.
Defined.

(** X2: the enhanced parser under the same composition.  The records of
    the first text come out as the scan loop holds them at its end, with
    [TotalCycles] and [TotalPackets] still zero: the block after the loop
    runs once, on the last record of the whole text. *)
Theorem parseEnhancedPmdOutput_app (block rest : string) :
  short_lines (block ++ nl)%string ->
  starts_with_header rest ->
  parseEnhancedPmdOutput (block ++ nl ++ rest)%string =
    Enh.flush (enh_scan (block ++ nl)%string) ++ parseEnhancedPmdOutput rest ∧
  parseEnhancedPmdOutput (block ++ nl)%string = Enh.finish (enh_scan (block ++ nl)%string) ∧
  Forall (fun r => Enh.TotalCycles r = 0 ∧ Enh.TotalPackets r = 0)
         (Enh.flush (enh_scan (block ++ nl)%string)).
Proof.
  intros Hshort (line & matches & ls & Hrest & Hh)%starts_with_header_inv.
  split; [|split; [reflexivity|]].
  - unfold parseEnhancedPmdOutput, enh_scan.
    rewrite (scanLines_app _ _ Hshort), fold_left_app, Hrest.
    exact (enh_fold_header line matches ls _ Hh).
  - destruct (enh_scan_inv (block ++ nl)%string) as [Hall _].
    eapply Forall_impl; [exact Hall|]. by intros r (_ & ? & ?).
Qed.

Lemma parseEnhancedPmdOutput_app_witness :
  (fun r => (Enh.PmdID r, Enh.IdleCycles r, Enh.TotalCycles r))
    <$> parseEnhancedPmdOutput (header_then_fields ++ nl ++ header_then_fields)%string
  = [("7", 1000000, 0); ("7", 1000000, 1000000)].
Proof.
  assert (Hshort : short_lines (header_then_fields ++ nl)%string)
    by (apply short_lines_spec; vm_compute; reflexivity).
  assert (Hhead : starts_with_header header_then_fields)
    by (apply starts_with_header_spec; vm_compute; discriminate).
  destruct (parseEnhancedPmdOutput_app header_then_fields header_then_fields Hshort Hhead)
    as (-> & _ & _).
  vm_compute. reflexivity.
Defined.

(** X3: what stands before the first thread header is ignored.  Field
    lines that precede every header line reach no record, in either
    parser: the result is that of the text from the next line on. *)
Theorem text_before_first_header_is_ignored (block rest : string) :
  short_lines (block ++ nl)%string ->
  header_captures (text_lines (block ++ nl)%string) = [] ->
  parsePmdPerfOutput (block ++ nl ++ rest)%string = parsePmdPerfOutput rest ∧
  parseEnhancedPmdOutput (block ++ nl ++ rest)%string = parseEnhancedPmdOutput rest.
Proof.
  intros Hshort Hnone. rewrite <- (scanLines_short _ Hshort) in Hnone.
  unfold parsePmdPerfOutput, parseEnhancedPmdOutput.
  rewrite (scanLines_app _ _ Hshort), !fold_left_app.
  by rewrite (perf_fold_no_header _ Hnone), (enh_fold_no_header _ Hnone).
Qed.

Lemma text_before_first_header_is_ignored_witness :
  Perf.TxRetries <$> (parsePmdPerfOutput (stray_fields ++ nl ++ one_thread)%string).1 = [0] ∧
  Enh.Iterations <$> parseEnhancedPmdOutput (stray_fields ++ nl ++ one_thread)%string = [100].
Proof.
  assert (Hshort : short_lines (stray_fields ++ nl)%string)
    by (apply short_lines_spec; vm_compute; reflexivity).
  assert (Hnone : header_captures (text_lines (stray_fields ++ nl)%string) = [])
    by (vm_compute; reflexivity).
  destruct (text_before_first_header_is_ignored stray_fields one_thread Hshort Hnone)
    as [-> ->].
  split; vm_compute; reflexivity.
Defined.

(** ** Histograms *)

Lemma enh_blocks_keep_histograms :
  Forall (fun b => ∀ l, keeps enh_histograms (b l)) Enh.blocks.
Proof.
  unfold Enh.blocks. repeat (apply Forall_cons; split; [keep_block|]). apply Forall_nil_2.
Qed.

Lemma histogram_of_frame h m m' :
  enh_histograms m' = enh_histograms m -> histogram_of h m' = histogram_of h m.
Proof. unfold enh_histograms. intros [= ? ? ?]. by destruct h. Qed.

Lemma recorded_frame seen m m' :
  enh_histograms m' = enh_histograms m -> recorded seen m -> recorded seen m'.
Proof.
  intros Hf Hm h key v. rewrite (histogram_of_frame h _ _ Hf). apply Hm.
Qed.

Lemma recorded_mono seen seen' m : seen ⊆ seen' -> recorded seen m -> recorded seen' m.
Proof.
  intros Hsub Hm h key v Hl. destruct (Hm h key v Hl) as [(a & ? & ?) (b & ? & ?)].
  split; [exists a|exists b]; split; auto.
Qed.

Lemma recorded_fresh seen matches : recorded seen (Enh.fresh matches).
Proof. intros h key v. destruct h; cbn; by rewrite lookup_empty. Qed.

Lemma histogram_of_store h h' key val m :
  histogram_of h' (Enh.histogram_store h key val m) =
  if decide (h' = h) then <[key := val]> (histogram_of h' m) else histogram_of h' m.
Proof. destruct h, h'; reflexivity. Qed.

Lemma derive_histograms m : enh_histograms (Enh.derive m) = enh_histograms m.
Proof.
  unfold Enh.derive. destruct (Enh.TotalCycles m =? 0); cbn;
    destruct (_ && _); reflexivity.
Qed.

Lemma hist_step_inv seen st line :
  hist_inv seen st -> hist_inv (seen ++ [line]) (Enh.step st line).
Proof.
  intros [Hall Hcur].
  assert (Hsub : seen ⊆ seen ++ [line]) by (intros x; rewrite elem_of_app; auto).
  assert (Hin : line ∈ seen ++ [line])
    by (rewrite elem_of_app, list_elem_of_singleton; auto).
  assert (Hall' : Forall (recorded (seen ++ [line])) (Enh.flush st)).
  { eapply Forall_impl; [exact Hall|]. intros m. by apply recorded_mono. }
  assert (Hcur' : ∀ h, Enh.currentHistogram st = Some h ->
            ∃ heading, heading ∈ seen ++ [line] ∧ histogram_heading heading h).
  { intros h Hh. destruct (Hcur h Hh) as (a & ? & ?). exists a. auto. }
  clear Hall Hcur. unfold Enh.step.
  destruct (FindStringSubmatch pmdHeaderRe line) as [matches|].
  { split; [|done]. unfold Enh.flush at 1. cbn [Enh.metrics Enh.currentMetric].
    apply Forall_app. split; [exact Hall'|].
    apply Forall_singleton, recorded_fresh. }
  destruct (Enh.currentMetric st) as [m0|] eqn:Hc; [|by split].
  pose proof (keeps_run_blocks enh_histograms _ line enh_blocks_keep_histograms m0) as Hb.
  unfold Enh.flush in Hall'. rewrite Hc in Hall'.
  apply Forall_app in Hall' as [Hms Hm0]. rewrite Forall_singleton in Hm0.
  pose proof (recorded_frame _ _ _ Hb Hm0) as Hm.
  destruct (FindStringSubmatch Enh.histogramRe line) as [hm|] eqn:Hhead.
  { split.
    - unfold Enh.flush. cbn [Enh.metrics Enh.currentMetric].
      apply Forall_app. split; [exact Hms|]. by apply Forall_singleton.
    - cbn [Enh.currentHistogram]. intros h Hsel. exists line. split; [exact Hin|].
      by exists hm. }
  destruct (Enh.currentHistogram st) as [h|] eqn:Hh.
  2:{ split; [|done]. unfold Enh.flush. cbn [Enh.metrics Enh.currentMetric].
      apply Forall_app. split; [exact Hms|]. by apply Forall_singleton. }
  split; [|cbn [Enh.currentHistogram]; intros h' [= <-]; by apply Hcur'].
  unfold Enh.flush. cbn [Enh.metrics Enh.currentMetric].
  apply Forall_app. split; [exact Hms|]. apply Forall_singleton.
  unfold when_match, on_uint.
  destruct (FindStringSubmatch Enh.histogramEntryRe line) as [em|] eqn:Hentry; [|exact Hm].
  destruct (ParseUint (sub em 2)) as [val|] eqn:Hval; [|exact Hm].
  intros h' key v. rewrite histogram_of_store.
  destruct (decide (h' = h)) as [->|Hne]; [|apply Hm].
  destruct (decide (sub em 1 = key)) as [<-|Hk].
  - rewrite lookup_insert_eq. intros [= <-]. split; [by apply Hcur'|].
    exists line. split; [exact Hin|]. by exists em.
  - rewrite lookup_insert_ne by exact Hk. apply Hm.
Qed.

Lemma hist_fold_inv ls seen st :
  hist_inv seen st -> hist_inv (seen ++ ls) (fold_left Enh.step ls st).
Proof.
  revert seen st. induction ls as [|line ls IH]; intros seen st Hinv; simpl.
  - by rewrite app_nil_r.
  - rewrite (cons_middle line seen ls), app_assoc. apply IH. by apply hist_step_inv.
  Qed.

Lemma hist_scan_inv text : hist_inv (scanLines text) (enh_scan text).
Proof.
  apply (hist_fold_inv (scanLines text) [] Enh.init). split; [constructor|done].
Qed.

(** X4: where histogram entries come from.  Every entry of a histogram of
    a record of [parseEnhancedPmdOutput] was stored from a line of the text
    that matches the bucket pattern, with that key and that count, and the
    text has a heading line for that histogram; so a text without a heading
    for the cycles, packets or batch histogram leaves that histogram of
    every record empty, whatever bucket lines it holds. *)
Theorem histogram_entries_come_from_bucket_lines (text : string) (r : Enh.T) :
  r ∈ parseEnhancedPmdOutput text ->
  (∀ h key v, histogram_of h r !! key = Some v ->
     (∃ heading, heading ∈ text_lines text ∧ histogram_heading heading h) ∧
     (∃ entry, entry ∈ text_lines text ∧ bucket_line entry key v)) ∧
  (∀ h, (∀ line, line ∈ text_lines text -> ¬ histogram_heading line h) ->
        histogram_of h r = ∅).
Proof.
  intros Hr.
  assert (Hrec : recorded (scanLines text) r).
  { destruct (hist_scan_inv text) as [Hall _]. revert Hr.
    unfold parseEnhancedPmdOutput. fold (enh_scan text).
    unfold Enh.finish. unfold Enh.flush in Hall.
    destruct (Enh.currentMetric (enh_scan text)) as [m|].
    - apply Forall_app in Hall as [Hms Hm]. rewrite Forall_singleton in Hm.
      rewrite elem_of_app, list_elem_of_singleton. intros [Hin| ->].
      + rewrite Forall_forall in Hms. by apply Hms.
      + eapply recorded_frame; [apply derive_histograms|exact Hm].
    - rewrite Forall_forall in Hall. apply Hall. }
  assert (Hlines : ∀ h key v, histogram_of h r !! key = Some v ->
     (∃ heading, heading ∈ text_lines text ∧ histogram_heading heading h) ∧
     (∃ entry, entry ∈ text_lines text ∧ bucket_line entry key v)).
  { intros h key v Hl. destruct (Hrec h key v Hl) as [(a & Ha & ?) (b & Hb & ?)].
    split; [exists a|exists b]; split; auto using scanLines_visits_text_lines. }
  split; [exact Hlines|].
  intros h Hno. apply map_empty. intros key.
  destruct (histogram_of h r !! key) as [v|] eqn:Hl; [|done].
  destruct (Hlines h key v Hl) as [(a & Ha & Hhead) _]. by destruct (Hno a Ha).
Qed.

Lemma histogram_entries_come_from_bucket_lines_witness :
  ∃ r, r ∈ parseEnhancedPmdOutput histogram_sample ∧
       Enh.CyclesHistogram r = {[ "0-100" := 12; "100+" := 3 ]} ∧
       ∃ entry, entry ∈ text_lines histogram_sample ∧ bucket_line entry "100+" 3.
Proof.
  destruct (first_record histogram_sample) as [r|] eqn:Hr; [|vm_compute in Hr; discriminate].
  assert (Hin : r ∈ parseEnhancedPmdOutput histogram_sample).
  { unfold first_record in Hr. destruct (parseEnhancedPmdOutput histogram_sample); [done|].
    injection Hr as ->. apply list_elem_of_here. }
  assert (Hc : Enh.CyclesHistogram r = {[ "0-100" := 12; "100+" := 3 ]})
    by (vm_compute in Hr; by injection Hr as <-).
  exists r. split; [exact Hin|]. split; [exact Hc|].
  destruct (histogram_entries_come_from_bucket_lines histogram_sample r Hin) as [Hlines _].
  refine (proj2 (Hlines Enh.CyclesH "100+" 3 _)).
  cbn [histogram_of]. rewrite Hc. vm_compute. reflexivity.
Defined.

(** ** The sleep-iterations line *)

Lemma run_blocks_app {T : Type} (b1 b2 : list (string -> T -> T)) line m :
  run_blocks (b1 ++ b2) line m = run_blocks b2 line (run_blocks b1 line m).
Proof. unfold run_blocks. apply fold_left_app. Qed.

Lemma enh_later_blocks_keep_iteration_counts :
  Forall (fun b => ∀ l, keeps iteration_counts (b l)) (drop (S sleep_block_index) Enh.blocks).
Proof.
  unfold Enh.blocks, sleep_block_index. cbn [drop].
  repeat (apply Forall_cons; split; [keep_block|]). apply Forall_nil_2.
Qed.

Lemma histogram_store_iteration_counts h key val m :
  iteration_counts (Enh.histogram_store h key val m) = iteration_counts m.
Proof. by destruct h. Qed.

Lemma sleep_block_counts line m matches val :
  FindStringSubmatch Enh.sleepIterRe line = Some matches ->
  ParseUint (sub matches 1) = Some val ->
  let m' := run_blocks Enh.blocks line m in
  Enh.SleepIterations m' = val ∧
  Enh.BusyIterations m' = U64.sub (Enh.Iterations m') val.
Proof.
  intros Hm Hv.
  assert (Hsplit : Enh.blocks =
            take sleep_block_index Enh.blocks ++
            [when_match Enh.sleepIterRe (fun matches =>
               on_uint (sub matches 1) (fun val m =>
                 let m := Enh.set_SleepIterations val m in
                 Enh.set_BusyIterations (U64.sub (Enh.Iterations m) val) m))] ++
            drop (S sleep_block_index) Enh.blocks) by reflexivity.
  cbv zeta. rewrite Hsplit, !run_blocks_app.
  set (m1 := run_blocks (take sleep_block_index Enh.blocks) line m).
  pose proof (keeps_run_blocks iteration_counts _ line
                enh_later_blocks_keep_iteration_counts) as Hkeep.
  unfold keeps in Hkeep.
  match goal with |- context [run_blocks (drop _ _) line ?x] =>
    specialize (Hkeep x); set (m2 := x) in * end.
  assert (H2 : Enh.SleepIterations m2 = val ∧
               Enh.BusyIterations m2 = U64.sub (Enh.Iterations m2) val).
  { subst m2. unfold run_blocks. cbn [fold_left]. unfold when_match, on_uint.
    rewrite Hm, Hv. split; reflexivity. }
  set (m3 := run_blocks (drop (S sleep_block_index) Enh.blocks) line m2) in *.
  clearbody m3 m2. unfold iteration_counts in Hkeep.
  injection Hkeep as Hi Hsl Hbu. rewrite Hi, Hsl, Hbu. exact H2.
Qed.

(** X5: a line that matches the sleep-iterations pattern sets
    [SleepIterations] to its count and [BusyIterations] to [Iterations]
    minus that count in unsigned 64-bit arithmetic, with [Iterations] as
    the record holds it after that line.  When the count is larger (the
    iterations line comes later, or reports less), the difference wraps
    around to [2^64 - (count - Iterations)]. *)
Theorem sleep_line_sets_busy_iterations (st : Enh.state) (line : string) (m0 : Enh.T)
    (matches : list string) (val : Z) :
  FindStringSubmatch pmdHeaderRe line = None ->
  Enh.currentMetric st = Some m0 ->
  FindStringSubmatch Enh.sleepIterRe line = Some matches ->
  ParseUint (sub matches 1) = Some val ->
  ∃ m, Enh.currentMetric (Enh.step st line) = Some m ∧
       Enh.SleepIterations m = val ∧
       Enh.BusyIterations m = (Enh.Iterations m - val) mod 2 ^ 64 ∧
       (0 <= Enh.Iterations m < val -> val < 2 ^ 64 ->
        Enh.BusyIterations m = 2 ^ 64 - (val - Enh.Iterations m)).
Proof.
  intros Hh Hc Hm Hv.
  destruct (sleep_block_counts line m0 matches val Hm Hv) as [Hs Hb].
  set (m1 := run_blocks Enh.blocks line m0) in *.
  assert (Hstep : ∃ m, Enh.currentMetric (Enh.step st line) = Some m ∧
                       iteration_counts m = iteration_counts m1).
  { unfold Enh.step. rewrite Hh, Hc. fold m1.
    destruct (FindStringSubmatch Enh.histogramRe line); [by eexists|].
    destruct (Enh.currentHistogram st) as [h|]; [|by eexists].
    eexists. split; [reflexivity|]. unfold when_match, on_uint.
    destruct (FindStringSubmatch Enh.histogramEntryRe line) as [em|]; [|done].
    destruct (ParseUint (sub em 2)); [|done]. apply histogram_store_iteration_counts. }
  destruct Hstep as (m & Hcur & Hcounts). exists m. split; [exact Hcur|].
  unfold iteration_counts in Hcounts. injection Hcounts as -> -> ->.
  split; [exact Hs|]. split; [exact Hb|].
  intros Hlt Hval. rewrite Hb. unfold U64.sub, U64.wrap, U64.modulus.
  rewrite <- (Z.mod_add _ 1) by lia. rewrite Z.mod_small; lia.
Qed.

Lemma sleep_line_sets_busy_iterations_witness :
  let st := fold_left Enh.step ["pmd thread numa_id 0 core_id 5:"] Enh.init in
  ∃ m, Enh.currentMetric (Enh.step st "  sleep iterations: 5 (50.0%)") = Some m ∧
       Enh.SleepIterations m = 5 ∧ Enh.BusyIterations m = 2 ^ 64 - 5.
Proof.
  intros st.
  destruct (Enh.currentMetric st) as [m0|] eqn:Hc; [|vm_compute in Hc; discriminate].
  destruct (FindStringSubmatch Enh.sleepIterRe "  sleep iterations: 5 (50.0%)")
    as [matches|] eqn:Hm; [|vm_compute in Hm; discriminate].
  assert (Hv : ParseUint (sub matches 1) = Some 5)
    by (vm_compute in Hm; injection Hm as <-; reflexivity).
  assert (Hh : FindStringSubmatch pmdHeaderRe "  sleep iterations: 5 (50.0%)" = None)
    by (vm_compute; reflexivity).
  destruct (sleep_line_sets_busy_iterations st _ m0 matches 5 Hh Hc Hm Hv)
    as (m & Hcur & Hsleep & _ & Hwrap).
  assert (Hit : Enh.Iterations m = 0)
    by (vm_compute in Hcur; injection Hcur as <-; reflexivity).
  exists m. split; [exact Hcur|]. split; [exact Hsleep|].
  rewrite Hwrap; rewrite ?Hit; lia.
Defined.

(** ** The thread identity is numeric *)

Lemma star_sound {R : Type} k pos s caps (next : kont) (x : R) :
  star k pos s caps next = Some x ->
  ∃ n, all_in k (str_take n s) = true ∧
       next (pos + n)%nat (str_drop n s) caps = Some x.
Proof.
  revert pos. induction s as [|a s IH]; intros pos; simpl.
  - intros Hx. exists 0%nat. by rewrite Nat.add_0_r.
  - destruct (in_class k a) eqn:Ha.
    + destruct (star k (S pos) s caps next) as [r|] eqn:Hs.
      * intros [= ->]. destruct (IH _ Hs) as (n & Hall & Hn).
        exists (S n). simpl. rewrite Ha, Hall. split; [done|].
        by rewrite Nat.add_succ_r.
      * intros Hx. exists 0%nat. by rewrite Nat.add_0_r.
    + intros Hx. exists 0%nat. by rewrite Nat.add_0_r.
Qed.

Lemma plus_digit_sound {R : Type} pos s caps (next : kont) (x : R) :
  rx (Plus Digit) pos s caps next = Some x ->
  ∃ n, decimal (str_take (S n) s) ∧
       next (pos + S n)%nat (str_drop (S n) s) caps = Some x.
Proof.
  cbn [rx]. destruct s as [|a s]; [done|]. destruct (in_class Digit a) eqn:Ha; [|done].
  intros (n & Hall & Hn)%star_sound. exists n. split.
  - split; [done|]. simpl. simpl in Ha. by rewrite Ha, Hall.
  - by rewrite Nat.add_succ_r.
Qed.

Lemma header_rx_sound pos s m :
  rx pmdHeaderRe pos s (replicate (S (groups pmdHeaderRe)) EmptyString)
     (fun pos' _ caps => Some (<[0%nat := str_take (pos' - pos) s]> caps)) = Some m ->
  decimal (sub m 1) ∧ decimal (sub m 2).
Proof.
  unfold pmdHeaderRe. cbn [cat rx groups Nat.add replicate].
  destruct (str_prefix "pmd thread numa_id " s); [|done].
  set (s1 := str_drop _ s). set (p1 := (pos + _)%nat).
  intros (n1 & Hd1 & H1)%plus_digit_sound. revert H1.
  replace (p1 + S n1 - p1)%nat with (S n1) by lia.
  set (s2 := str_drop (S n1) s1). set (p2 := (p1 + S n1)%nat).
  destruct (str_prefix " core_id " s2); [|done].
  set (s3 := str_drop _ s2). set (p3 := (p2 + _)%nat).
  intros (n2 & Hd2 & H2)%plus_digit_sound. revert H2.
  replace (p3 + S n2 - p3)%nat with (S n2) by lia.
  set (s4 := str_drop (S n2) s3).
  destruct (str_prefix ":" s4); [|done].
  intros [= <-]. split; assumption.
Qed.

Lemma find_from_sound re pos s m :
  find_from re pos s = Some m ->
  ∃ pos0 s0,
    rx re pos0 s0 (replicate (S (groups re)) EmptyString)
       (fun pos' _ caps => Some (<[0%nat := str_take (pos' - pos0) s0]> caps)) = Some m.
Proof.
  revert pos. induction s as [|a s IH]; intros pos; cbn [find_from].
  - destruct (rx re pos _ _ _) as [m'|] eqn:Hrx; [|done]. intros [= ->]. eauto.
  - destruct (rx re pos _ _ _) as [m'|] eqn:Hrx.
    + intros [= ->]. eauto.
    + apply IH.
Qed.

Lemma header_captures_decimal line matches :
  FindStringSubmatch pmdHeaderRe line = Some matches ->
  decimal (sub matches 1) ∧ decimal (sub matches 2).
Proof.
  unfold FindStringSubmatch. intros (pos0 & s0 & Hrx)%find_from_sound.
  by apply header_rx_sound in Hrx.
Qed.

Lemma identities_decimal {I : Type} (ident : list string -> I) (P : I -> Prop) ls :
  (∀ matches, decimal (sub matches 1) -> decimal (sub matches 2) -> P (ident matches)) ->
  Forall P (identities ident ls).
Proof.
  intros HP. unfold identities, header_captures. rewrite Forall_fmap.
  apply Forall_forall. intros matches (line & _ & Hm)%list_elem_of_omap.
  destruct (header_captures_decimal line matches Hm). by apply HP.
Qed.

(** X6: the thread identity is numeric.  In every record of either parser
    [NumaID] and [PmdID] (and [CoreID] of the enhanced record) are
    non-empty strings of decimal digits, whatever the text. *)
Theorem thread_identity_is_decimal (text : string) :
  Forall (fun r => decimal (Perf.NumaID r) ∧ decimal (Perf.PmdID r))
         (parsePmdPerfOutput text).1 ∧
  Forall (fun r => decimal (Enh.NumaID r) ∧ decimal (Enh.PmdID r) ∧ decimal (Enh.CoreID r))
         (parseEnhancedPmdOutput text).
Proof.
  split.
  - pose proof (parsePmdPerfOutput_identities text) as Hid.
    pose proof (identities_decimal perf_header
                  (fun i => decimal i.1 ∧ decimal i.2) (scanLines text)) as Hall.
    rewrite <- Hid, Forall_fmap in Hall. apply Hall. by intros matches ? ?.
  - pose proof (parseEnhancedPmdOutput_identities text) as Hid.
    pose proof (identities_decimal enh_header
                  (fun i => decimal i.1.1 ∧ decimal i.1.2 ∧ decimal i.2)
                  (scanLines text)) as Hall.
    rewrite <- Hid, Forall_fmap in Hall. apply Hall. by intros matches ? ?.
Qed.

(** ** The two parsers agree on what both read *)

Lemma aligned_run bs es line mp me :
  aligned bs es -> agree mp me ->
  agree (run_blocks bs line mp) (run_blocks es line me).
Proof.
  intros Hal. revert mp me.
  induction Hal as [|b bs es Hb _ IH|bs e es He _ IH|b bs e es Hbe _ IH];
    intros mp me Hag; unfold run_blocks in *; cbn [fold_left].
  - exact Hag.
  - apply IH. unfold agree. by rewrite Hb.
  - apply IH. unfold agree. by rewrite He.
  - apply IH. by apply Hbe.
Qed.

Ltac pair_block :=
  intros line0 mp0 me0 Hag0;
  unfold Enh.cyclesPerItRe, Enh.pktsPerItRe, Enh.cyclesPerPktRe, Enh.pktsPerBatchRe,
    Enh.upcallsRe, Enh.txRetriesRe, Enh.txContentionRe, Enh.txIrqsRe;
  unfold when_match, on_uint, on_float;
  repeat match goal with
         | |- context [match ?x with Some _ => _ | None => _ end] => destruct x
         end;
  unfold agree, perf_shared, enh_shared in *; cbn in *; congruence.

Lemma blocks_aligned : aligned Perf.blocks Enh.blocks.
Proof.
  unfold Perf.blocks, Enh.blocks.
  repeat first
    [ apply aligned_nil
    | apply aligned_left; [keep_block|]
    | apply aligned_right; [keep_block|]
    | apply aligned_both; [pair_block|] ].
Qed.

Lemma agree_fresh matches : agree (Perf.fresh matches) (Enh.fresh matches).
Proof. reflexivity. Qed.

Lemma flush_agree sp se :
  states_agree sp se -> Forall2 agree (Perf.flush sp) (Enh.flush se).
Proof.
  intros [Hms Hcur]. unfold Perf.flush, Enh.flush.
  inversion Hcur as [mp me Hag Hp He|Hp He]; [|exact Hms].
  apply Forall2_app; [exact Hms|]. by apply Forall2_cons.
Qed.

Lemma step_agree sp se line :
  states_agree sp se -> states_agree (Perf.step sp line) (Enh.step se line).
Proof.
  intros Hst. pose proof (flush_agree sp se Hst) as Hfl. destruct Hst as [Hms Hcur].
  unfold Perf.step, Enh.step.
  destruct (FindStringSubmatch pmdHeaderRe line) as [matches|].
  { split; [exact Hfl|]. constructor. apply agree_fresh. }
  inversion Hcur as [mp me Hag Hp He|Hp He]; [|split; assumption].
  pose proof (aligned_run _ _ line mp me blocks_aligned Hag) as Hrun.
  destruct (FindStringSubmatch Enh.histogramRe line); [by split; [|constructor]|].
  destruct (Enh.currentHistogram se) as [h|]; [|by split; [|constructor]].
  split; [exact Hms|]. constructor. cbn [Enh.currentMetric].
  unfold when_match, on_uint.
  destruct (FindStringSubmatch Enh.histogramEntryRe line); [|exact Hrun].
  destruct (ParseUint _); [|exact Hrun].
  unfold agree in *. rewrite Hrun. by destruct h.
Qed.

Lemma fold_agree ls sp se :
  states_agree sp se ->
  states_agree (fold_left Perf.step ls sp) (fold_left Enh.step ls se).
Proof. revert sp se. induction ls; simpl; auto using step_agree. Qed.

Lemma derive_shared m : enh_shared (Enh.derive m) = enh_shared m.
Proof.
  unfold Enh.derive. destruct (Enh.TotalCycles m =? 0); cbn;
    destruct (_ && _); reflexivity.
Qed.

(** X7: the basic parser (the fallback of the collector) and the enhanced
    parser agree on what both read.  On every text they return the same
    number of records, and the i-th records carry the same [NumaID] and
    [PmdID] and the same values of cycles and packets per iteration,
    cycles per packet, packets per batch, upcalls, upcall cycles and the
    three vhost transmit counters. *)
Theorem parsers_agree_on_shared_fields (text : string) :
  perf_shared <$> (parsePmdPerfOutput text).1 = enh_shared <$> parseEnhancedPmdOutput text.
Proof.
  assert (Hst : states_agree (fold_left Perf.step (scanLines text) Perf.init)
                             (fold_left Enh.step (scanLines text) Enh.init)).
  { apply fold_agree. split; constructor. }
  unfold parsePmdPerfOutput, parseEnhancedPmdOutput. cbn [fst].
  set (sp := fold_left Perf.step _ _) in *. set (se := fold_left Enh.step _ _) in *.
  assert (Hfin : Forall2 agree (Perf.flush sp) (Enh.finish se)).
  { destruct Hst as [Hms Hcur]. unfold Perf.flush, Enh.finish.
    inversion Hcur as [mp me Hag Hp He|Hp He]; [|exact Hms].
    apply Forall2_app; [exact Hms|]. constructor; [|constructor].
    unfold agree. by rewrite derive_shared. }
  clear Hst. induction Hfin as [|mp me lp le Hag _ IH]; [done|].
  rewrite !fmap_cons. by rewrite Hag, IH.
Qed.

(** ** Drop counters: the last report wins *)

Lemma digits_value_nonneg s acc v : digits_value acc s = Some v -> 0 <= acc -> 0 <= v.
Proof.
  revert acc. induction s as [|c s IH]; intros acc; simpl.
  - by intros [= ->].
  - destruct (is_digit c) eqn:Hc; [|done]. intros Hv Hacc. apply (IH _ Hv).
    unfold is_digit in Hc. apply andb_true_iff in Hc as [H1 _].
    apply Nat.leb_le in H1. unfold digit_val. lia.
Qed.

Lemma ParseUint_range s v : ParseUint s = Some v -> is_uint64 v.
Proof.
  unfold ParseUint, is_uint64. destruct s as [|c s]; [done|].
  destruct (digits_value 0 (String c s)) as [w|] eqn:Hw; [|done].
  destruct (w <=? U64.max) eqn:Hle; [|done]. intros [= <-].
  apply Z.leb_le in Hle. split; [|done]. by apply (digits_value_nonneg _ _ _ Hw).
Qed.

Lemma fold_insert_elem (l : list string) (m : gmap string bool) (k : string) :
  k ∈ l ∨ m !! k = Some true ->
  fold_left (fun acc dt => <[dt := true]> acc) l m !! k = Some true.
Proof.
  revert m. induction l as [|dt l IH]; intros m; simpl.
  - intros [Hin|Hm]; [by apply elem_of_nil in Hin|exact Hm].
  - intros Hk. apply IH. destruct (decide (dt = k)) as [->|Hne].
    + right. apply lookup_insert_eq.
    + rewrite lookup_insert_ne by exact Hne.
      destruct Hk as [[Heq|Hin]%elem_of_cons|Hm]; [by destruct Hne|by left|by right].
Qed.

Lemma in_dropTypes_is_drop_type k : k ∈ dropTypes -> is_drop_type k = true.
Proof.
  intros Hk. unfold is_drop_type, dropTypeMap.
  rewrite (fold_insert_elem dropTypes ∅ k) by (by left). reflexivity.
Qed.

Section DropSteps.
Variable tf trf : string -> string.

Lemma drop_step_reports d text k v :
  k ∈ dropTypes -> reports tf trf text k v -> drop_step tf trf d text = <[k := v]> d.
Proof.
  intros Hk (matches & Hm & <- & Hv). unfold drop_step.
  by rewrite Hm, (in_dropTypes_is_drop_type _ Hk), Hv.
Qed.

Lemma drop_step_silent d text k :
  (∀ v, ¬ reports tf trf text k v) -> drop_step tf trf d text !! k = d !! k.
Proof.
  intros Hno. unfold drop_step.
  destruct (FindStringSubmatch coverageRe (TrimSpace tf trf text)) as [matches|] eqn:Hm;
    [|done].
  destruct (is_drop_type (sub matches 1)); [|done].
  destruct (ParseUint (sub matches 2)) as [val|] eqn:Hv; [|done].
  destruct (decide (sub matches 1 = k)) as [Heq|Hne].
  - destruct (Hno val). by exists matches.
  - by rewrite lookup_insert_ne.
Qed.

Lemma drop_fold_silent ls d k :
  (∀ text v, text ∈ ls -> ¬ reports tf trf text k v) ->
  fold_left (drop_step tf trf) ls d !! k = d !! k.
Proof.
  revert d. induction ls as [|text ls IH]; intros d Hno; simpl; [done|].
  rewrite IH by (intros t v Ht; apply Hno; by right).
  apply drop_step_silent. intros v. apply Hno. by left.
Qed.
End DropSteps.

(** X8: the last report wins.  When several lines of the coverage output
    report the same drop reason, the map of [GetDropCounters] holds the
    count of the last of them: an entry is overwritten, never summed and
    never kept from an earlier line. *)
Theorem drop_counter_last_report_wins (tf trf : string -> string)
    (output : string) (before after : list string) (text k : string) (v : Z) :
  scanLines output = before ++ text :: after ->
  k ∈ dropTypes ->
  reports tf trf text k v ->
  (∀ later v', later ∈ after -> ¬ reports tf trf later k v') ->
  parseDropCounters tf trf output !! k = Some v.
Proof.
  intros Hscan Hk Hrep Hlast. unfold parseDropCounters.
  rewrite Hscan, fold_left_app. cbn [fold_left].
  rewrite drop_fold_silent by exact Hlast.
  rewrite (drop_step_reports tf trf _ text k v Hk Hrep). apply lookup_insert_eq.
Qed.

Lemma drop_counter_last_report_wins_witness :
  parseDropCounters id id repeated_counter !! "datapath_drop_meter" = Some 2.
Proof.
  apply (drop_counter_last_report_wins id id repeated_counter
           ["datapath_drop_meter 1"] [] "datapath_drop_meter 2").
  - vm_compute. reflexivity.
  - apply is_drop_type_spec. vm_compute. reflexivity.
  - eexists. split; [vm_compute; reflexivity|]. split; vm_compute; reflexivity.
  - intros later v' Hin. by apply elem_of_nil in Hin.
Defined.

(** ** What the collectors append *)

Lemma append_metrics_nil e : append_metrics [] e = e.
Proof. destruct e. unfold append_metrics, set_metrics. cbn. by rewrite app_nil_r. Qed.

Lemma append_metrics_app ms1 ms2 e :
  append_metrics ms2 (append_metrics ms1 e) = append_metrics (ms1 ++ ms2) e.
Proof. destruct e. unfold append_metrics, set_metrics. cbn. by rewrite app_assoc. Qed.

(** A loop that appends to [e.metrics] for every element, reading the
    system id on the way, appends the concatenation. *)
Lemma fold_append_metrics {A : Type} (g : Exporter -> A -> Exporter)
    (f : string -> A -> list Metric) (l : list A) e :
  (∀ e x, g e x = append_metrics (f (System_ID (Client e)) x) e) ->
  fold_left g l e = append_metrics (concat (f (System_ID (Client e)) <$> l)) e.
Proof.
  intros Hg. revert e. induction l as [|x l IH]; intros e; simpl.
  - by rewrite append_metrics_nil.
  - rewrite IH, Hg, append_metrics_app. reflexivity.
Qed.

(** X9: one metric per drop reason.  When [coverage/show] succeeds,
    [collectDropCounters] appends exactly one [datapath_drops_total]
    metric for every entry of the map of [GetDropCounters], with the
    system id and the drop reason as labels and the count as value; no
    drop reason appears twice, each is one of the 24 known reasons, each
    count is a 64-bit value, and nothing else of the exporter changes. *)
Theorem collectDropCounters_one_metric_per_reason (tf trf : string -> string)
    {OS : Type} `{Host OS} (e : Exporter) (os os1 : OS) (out : cmd_output) :
  Output ovs_appctl ["coverage/show"] os = (out, os1) ->
  cmd_err out = None ->
  ∃ ms, collectDropCounters tf trf e os = (append_metrics ms e, os1) ∧
        (∀ m, m ∈ ms ↔ ∃ k v, parseDropCounters tf trf (stdout out) !! k = Some v ∧
                              m = drop_metric (System_ID (Client e)) k v) ∧
        NoDup ((fun m => label m "drop_reason") <$> ms) ∧
        (length ms <= 24)%nat ∧
        Forall (fun m => well_labelled m ∧
                         ∃ k v, m = drop_metric (System_ID (Client e)) k v ∧
                                k ∈ dropTypes ∧ is_uint64 v) ms.
Proof.
  intros Hout Herr.
  set (counters := parseDropCounters tf trf (stdout out)).
  set (id := System_ID (Client e)).
  exists ((fun kv => drop_metric id kv.1 kv.2) <$> map_to_list counters).
  assert (Hkeys : ∀ k v, counters !! k = Some v -> k ∈ dropTypes ∧ is_uint64 v).
  { intros k v Hl. apply parseDropCounters_lookup in Hl as (Hk & text & _ & Hrep).
    split; [exact Hk|]. destruct Hrep as (matches & _ & _ & Hv).
    by apply ParseUint_range in Hv. }
  split; [|split; [|split; [|split]]].
  - unfold collectDropCounters, GetDropCounters. rewrite Hout, Herr. f_equal.
    rewrite (fold_append_metrics _ (fun id kv => [drop_metric id kv.1 kv.2])).
    + fold id counters. f_equal. induction (map_to_list counters) as [|kv l IH]; [done|].
      cbn [fmap list_fmap concat app]. f_equal. exact IH.
    + by intros e' [k v].
  - intros m. rewrite list_elem_of_fmap. split.
    + intros ([k v] & -> & Hin). apply elem_of_map_to_list in Hin. by exists k, v.
    + intros (k & v & Hl & ->). exists (k, v). split; [done|].
      by apply elem_of_map_to_list.
  - rewrite <- list_fmap_compose.
    assert (Heq : (fun m => label m "drop_reason") ∘ (fun kv => drop_metric id kv.1 kv.2)
                  = Some ∘ fst (A:=string) (B:=Z)) by reflexivity.
    rewrite Heq, list_fmap_compose. apply NoDup_fmap; [apply _|].
    apply NoDup_fst_map_to_list.
  - rewrite length_fmap.
    rewrite <- (length_fmap fst (map_to_list counters)).
    change 24%nat with (length dropTypes).
    apply submseteq_length, NoDup_submseteq; [apply NoDup_fst_map_to_list|].
    intros k ([k' v] & -> & Hin)%list_elem_of_fmap. apply elem_of_map_to_list in Hin.
    by destruct (Hkeys _ _ Hin).
  - apply Forall_fmap, Forall_forall. intros [k v] Hin.
    apply elem_of_map_to_list in Hin. split; [reflexivity|].
    exists k, v. split; [reflexivity|]. by apply Hkeys.
Qed.

Lemma collectDropCounters_one_metric_per_reason_witness :
  let os := sim [100] (ok one_thread) (ok "") (ok coverage_sample) in
  ∃ ms, (collectDropCounters id id (exporter0 10) os).1 = append_metrics ms (exporter0 10) ∧
        drop_metric "sys" "datapath_drop_meter" 42 ∈ ms ∧ (length ms <= 24)%nat.
Proof.
  intros os.
  destruct (Output ovs_appctl ["coverage/show"] os) as [out os1] eqn:Hout.
  assert (Herr : cmd_err out = None) by (vm_compute in Hout; by injection Hout as <- _).
  destruct (collectDropCounters_one_metric_per_reason id id (exporter0 10) os os1 out
              Hout Herr) as (ms & Hrun & Hms & _ & Hlen & _).
  exists ms. split; [by rewrite Hrun|]. split; [|exact Hlen].
  apply Hms. exists "datapath_drop_meter", 42. split; [|reflexivity].
  vm_compute in Hout. injection Hout as <- _. vm_compute. reflexivity.
Defined.

(** ** The metrics of one thread *)




(** ** The paths of [CollectPMDMetrics] that append nothing *)

Lemma no_header_no_enhanced_records text :
  header_captures (text_lines text) = [] -> parseEnhancedPmdOutput text = [].
Proof.
  intros Hnone. destruct (scanLines_prefix text) as [k Hk].
  pose proof (parseEnhancedPmdOutput_identities text) as He. rewrite Hk in He.
  rewrite identities_take in He by (unfold identities; by rewrite Hnone).
  by apply fmap_nil_inv in He.
Qed.

(** X11: without PMD records there are no drop counters.  When
    [pmd-perf-show] exits with a non-zero status, [CollectPMDMetrics]
    returns after that one command; when it succeeds with an output that
    has no thread header, it returns after the second command
    ([pmd-stats-show]).  In both cases the exporter is left as it was and
    [coverage/show] is not run: the datapath drop counters are collected
    only behind at least one PMD record. *)
Theorem no_pmd_records_no_drop_counters (tf trf : string -> string)
    {OS : Type} `{Host OS} (e : Exporter) (os os1 : OS) (out : cmd_output) :
  Output ovs_appctl perf_show os = (out, os1) ->
  (∀ msg, cmd_err out = Some msg -> Contains msg "exit status" = true ->
          CollectPMDMetrics tf trf e os = (e, os1)) ∧
  (∀ statsOut os2,
     cmd_err out = None -> header_captures (text_lines (stdout out)) = [] ->
     Output ovs_appctl stats_show os1 = (statsOut, os2) ->
     CollectPMDMetrics tf trf e os = (e, os2)).
Proof.
  intros Hout. split.
  - intros msg Herr Hexit. unfold CollectPMDMetrics, GetEnhancedPmdMetrics.
    fold perf_show. by rewrite Hout, Herr, Hexit.
  - intros statsOut os2 Herr Hnone Hstats.
    unfold CollectPMDMetrics, GetEnhancedPmdMetrics. fold perf_show stats_show.
    rewrite Hout, Herr, Hstats, (no_header_no_enhanced_records _ Hnone).
    unfold enrichWithStats. by destruct (cmd_err statsOut).
Qed.

Lemma no_pmd_records_no_drop_counters_witness :
  let os := sim [100] (ok invalid_output) (ok "") (ok coverage_sample) in
  let e := exporter0 10 in
  (CollectPMDMetrics id id e os).1 = e ∧
  commands_run (CollectPMDMetrics id id e os).2
    = [ovs_appctl :: perf_show; ovs_appctl :: stats_show].
Proof.
  intros os e.
  destruct (Output ovs_appctl perf_show os) as [out os1] eqn:Hout.
  destruct (Output ovs_appctl stats_show os1) as [statsOut os2] eqn:Hstats.
  destruct (no_pmd_records_no_drop_counters id id e os os1 out Hout) as [_ Hempty].
  assert (Herr : cmd_err out = None) by (vm_compute in Hout; by injection Hout as <- _).
  assert (Hnone : header_captures (text_lines (stdout out)) = [])
    by (vm_compute in Hout; injection Hout as <- _; vm_compute; reflexivity).
  rewrite (Hempty statsOut os2 Herr Hnone Hstats). split; [reflexivity|].
  vm_compute in Hout. injection Hout as _ <-. vm_compute in Hstats.
  injection Hstats as _ <-. vm_compute. reflexivity.
Defined.

(** ** The fallback to the basic metrics *)

(** X12: the fallback runs the failed command again.  When the first
    invocation of [pmd-perf-show] fails without the words "exit status"
    in its error, [CollectPMDMetrics] falls back to
    [collectBasicPMDMetrics], which invokes the same command a second
    time.  What is appended are the twelve basic metrics of every record
    of that second output, in order; when the second invocation fails too,
    in whatever way, nothing is appended.  No error is counted either way. *)
Theorem fallback_runs_the_failed_command_again (tf trf : string -> string)
    {OS : Type} `{Host OS} (e : Exporter) (os os1 os2 : OS) (out1 out2 : cmd_output)
    (msg : string) :
  Output ovs_appctl perf_show os = (out1, os1) ->
  cmd_err out1 = Some msg ->
  Contains msg "exit status" = false ->
  Output ovs_appctl perf_show os1 = (out2, os2) ->
  CollectPMDMetrics tf trf e os =
    (append_metrics
       (concat (basic_metrics (System_ID (Client e)) <$> basic_records out2)) e, os2) ∧
  (∀ msg2, cmd_err out2 = Some msg2 -> CollectPMDMetrics tf trf e os = (e, os2)) ∧
  errors (CollectPMDMetrics tf trf e os).1 = errors e.
Proof.
  intros Hout1 Herr1 Hother Hout2.
  assert (Hrun : CollectPMDMetrics tf trf e os =
            (append_metrics
               (concat (basic_metrics (System_ID (Client e)) <$> basic_records out2)) e, os2)).
  { unfold CollectPMDMetrics, GetEnhancedPmdMetrics. fold perf_show.
    rewrite Hout1, Herr1, Hother.
    unfold collectBasicPMDMetrics, GetPmdPerfMetrics, basic_records. fold perf_show.
    rewrite Hout2. destruct (cmd_err out2) as [msg2|].
    - destruct (Contains msg2 "exit status"); cbn; by rewrite append_metrics_nil.
    - unfold parsePmdPerfOutput. cbn [fst snd].
      destruct (Perf.flush _) as [|pmd pmds] eqn:Hrecords.
      + cbn. by rewrite append_metrics_nil.
      + f_equal. by apply fold_append_metrics. }
  split; [exact Hrun|]. split.
  - intros msg2 Herr2. rewrite Hrun. unfold basic_records. rewrite Herr2. cbn.
    by rewrite append_metrics_nil.
  - by rewrite Hrun.
Qed.

Lemma fallback_runs_the_failed_command_again_witness :
  let os := sim [100] (failed "signal: killed") (ok "") (ok coverage_sample) in
  let e := exporter0 10 in
  (CollectPMDMetrics id id e os).1 = e ∧
  commands_run (CollectPMDMetrics id id e os).2
    = [ovs_appctl :: perf_show; ovs_appctl :: perf_show].
Proof.
  intros os e.
  destruct (Output ovs_appctl perf_show os) as [out1 os1] eqn:Hout1.
  destruct (Output ovs_appctl perf_show os1) as [out2 os2] eqn:Hout2.
  assert (Herr1 : cmd_err out1 = Some "signal: killed")
    by (vm_compute in Hout1; by injection Hout1 as <- _).
  assert (Herr2 : cmd_err out2 = Some "signal: killed")
    by (vm_compute in Hout1; injection Hout1 as _ <-; vm_compute in Hout2;
        by injection Hout2 as <- _).
  destruct (fallback_runs_the_failed_command_again id id e os os1 os2 out1 out2 _
              Hout1 Herr1 eq_refl Hout2) as (_ & Hagain & _).
  rewrite (Hagain _ Herr2). split; [reflexivity|].
  vm_compute in Hout1. injection Hout1 as _ <-. vm_compute in Hout2.
  injection Hout2 as _ <-. vm_compute. reflexivity.
Defined.

(** ** The list a rebuild leaves *)

Section Rebuild.
Context {OS : Type} `{Host OS}.
Variable tf trf : string -> string.

Lemma cleared_metrics e :
  (if (0 <? length (metrics e))%nat then set_metrics [] e else e) = set_metrics [] e.
Proof. destruct e as [c p er t n old]. by destruct old. Qed.

(** The exporter as [CollectPMDMetrics] finds it in a rebuild. *)
Lemma collect_all_eq e os :
  collect_all tf trf e os =
  let '(rep, os1) := ClientCollect os in
  let e8 :=
    {| Client := rep_client rep; pollInterval := pollInterval e;
       errors := I64.wrap (errors e + rep_errors rep);
       totalRequests := I64.wrap (totalRequests e + rep_requests rep);
       nextCollectionTicker := nextCollectionTicker e;
       metrics := rep_metrics rep |} in
  let e8 := append_metrics (self_metrics (rep_up rep) e8) e8 in
  let '(e9, os2) := CollectPMDMetrics tf trf e8 os1 in
  (append_metric (next_poll_metric (nextCollectionTicker e9) e8) e9, os2).
Proof.
  unfold collect_all. rewrite cleared_metrics.
  destruct (ClientCollect os) as [rep os1]. destruct e as [c p er t n old].
  cbv beta iota zeta delta
    [set_Client set_errors set_totalRequests append_metrics append_metric set_metrics
     Client pollInterval errors totalRequests nextCollectionTicker metrics
     self_metrics next_poll_metric].
  rewrite app_nil_l, <- !app_assoc. reflexivity.
Qed.

Lemma collect_all_shape e os rep os1 :
  ClientCollect os = (rep, os1) ->
  let e' := (collect_all tf trf e os).1 in
  exporter_rest e' =
    (rep_client rep, pollInterval e, I64.wrap (errors e + rep_errors rep),
     I64.wrap (totalRequests e + rep_requests rep), nextCollectionTicker e) ∧
  ∃ pmd, metrics e' =
           rep_metrics rep ++ self_metrics (rep_up rep) e' ++ pmd
           ++ [next_poll_metric (nextCollectionTicker e) e'].
Proof.
  intros Hrep. rewrite collect_all_eq, Hrep. cbv zeta.
  match goal with |- context [CollectPMDMetrics tf trf ?e1 os1] =>
    pose proof (CollectPMDMetrics_extends tf trf e1 os1) as [Hrest [pmd Hms]];
    destruct (CollectPMDMetrics tf trf e1 os1) as [e2 os2] end.
  cbn [fst] in *. unfold exporter_rest in Hrest.
  cbn [Client pollInterval errors totalRequests nextCollectionTicker metrics
       append_metrics set_metrics] in Hrest, Hms.
  injection Hrest as HC HP HE HT HN.
  split.
  - unfold exporter_rest, append_metric, set_metrics.
    cbn [Client pollInterval errors totalRequests nextCollectionTicker metrics].
    by rewrite HC, HP, HE, HT, HN.
  - exists pmd. unfold append_metric, set_metrics.
    cbn [Client pollInterval errors totalRequests nextCollectionTicker metrics].
    rewrite Hms. unfold self_metrics, next_poll_metric.
    cbn [Client pollInterval errors totalRequests nextCollectionTicker metrics].
    rewrite HC, HE, HT, HN. rewrite <- !app_assoc. reflexivity.
Qed.

Lemma collect_all_forgets ms e os :
  collect_all tf trf (set_metrics ms e) os = collect_all tf trf e os.
Proof.
  rewrite !collect_all_eq. destruct e. reflexivity.
Qed.

Lemma rebuild_fields e os :
  let c := collect_all tf trf e os in
  let e' := (rebuild tf trf e os).1 in
  (Client e', pollInterval e', errors e', totalRequests e', metrics e')
  = (Client c.1, pollInterval c.1, errors c.1, totalRequests c.1, metrics c.1) ∧
  nextCollectionTicker e' = next_ticker (Now c.2).1 c.1.
Proof.
  cbv zeta. unfold rebuild. destruct (collect_all tf trf e os) as [e1 os1].
  cbn [fst snd]. destruct (Now os1) as [now os2]. cbn [fst snd]. by destruct e1.
Qed.
End Rebuild.

(** X13: a rebuild replaces the list.  The list [GatherMetrics] leaves
    does not depend on the metrics held before (the slice is cleared
    first).  It holds, in this order, the metrics of the OVSDB
    sub-collections, then [up], [info], the failed-request and the
    request counter, whose values are the counters after this rebuild,
    then the PMD metrics and last the next-poll metric. *)
Theorem rebuild_replaces_the_list (tf trf : string -> string) {OS : Type} `{Host OS}
    (e : Exporter) (os os1 : OS) (rep : client_report) :
  ClientCollect os = (rep, os1) ->
  let e' := (rebuild tf trf e os).1 in
  (∀ ms, rebuild tf trf (set_metrics ms e) os = rebuild tf trf e os) ∧
  Client e' = rep_client rep ∧
  errors e' = I64.wrap (errors e + rep_errors rep) ∧
  totalRequests e' = I64.wrap (totalRequests e + rep_requests rep) ∧
  ∃ pmd, metrics e' =
           rep_metrics rep ++ self_metrics (rep_up rep) e' ++ pmd
           ++ [next_poll_metric (nextCollectionTicker e) e'].
Proof.
  intros Hrep e'.
  destruct (collect_all_shape tf trf e os rep os1 Hrep) as [Hrest [pmd Hms]].
  destruct (rebuild_fields tf trf e os) as [Hf _]. fold e' in Hf.
  cbv zeta in Hf. injection Hf as HC HP HE HT HM.
  unfold exporter_rest in Hrest. injection Hrest as HC' _ HE' HT' _.
  split; [|split; [|split; [|split]]].
  - intros ms. unfold rebuild. by rewrite collect_all_forgets.
  - congruence.
  - congruence.
  - congruence.
  - exists pmd. rewrite HM, Hms. unfold self_metrics, next_poll_metric.
    by rewrite HC, HE, HT.
Qed.

Lemma rebuild_replaces_the_list_witness :
  let os := sim [100; 101] (failed "exit status 2") (ok "") (ok "") in
  let e := set_metrics [m_up 0; m_up 0] (exporter0 10) in
  metrics (rebuild id id e os).1
  = self_metrics 1 (exporter0 10) ++ [next_poll_metric 0 (exporter0 10)].
Proof.
  intros os e.
  destruct (ClientCollect os) as [rep os1] eqn:Hrep.
  destruct (rebuild_replaces_the_list id id (exporter0 10) os os1 rep Hrep) as (Hforget & _).
  unfold e. rewrite Hforget. vm_compute. reflexivity.
Defined.

(** X14: the next-poll metric lags by one rebuild.  A call of [Collect]
    that finds the ticker reached rebuilds and sends the rebuilt list,
    whose last element is the next-poll metric; its value is the ticker
    the call found, which is not after the clock reading of the call, and
    not the ticker the call sets (the rebuild appends the metric before it
    moves the ticker). *)
Theorem next_poll_metric_is_stale (tf trf : string -> string) {OS : Type} `{Host OS}
    (e : Exporter) (os os1 : OS) (now : Time) :
  Now os = (now, os1) ->
  nextCollectionTicker e <= Unix now ->
  let sent := (Collect tf trf e os).1 in
  let e' := (Collect tf trf e os).2.1 in
  last sent = Some (next_poll_metric (nextCollectionTicker e) e') ∧
  nextCollectionTicker e' = next_ticker (Now (collect_all tf trf e os1).2).1 e'.
Proof.
  intros Hnow Hdue.
  assert (Hg : GatherMetrics tf trf e os = rebuild tf trf e os1).
  { unfold GatherMetrics. rewrite Hnow. by apply Z.ltb_ge in Hdue as ->. }
  destruct (ClientCollect os1) as [rep os2] eqn:Hrep.
  destruct (collect_all_shape tf trf e os1 rep os2 Hrep) as [_ [pmd Hms]].
  destruct (rebuild_fields tf trf e os1) as [Hf Hticker].
  cbv zeta in Hf, Hticker. injection Hf as HC HP HE HT HM.
  unfold Collect. rewrite Hg.
  destruct (rebuild tf trf e os1) as [e1 os3]. cbn [fst snd] in *.
  assert (Hlist : metrics e1 =
            (rep_metrics rep ++ self_metrics (rep_up rep) e1 ++ pmd)
            ++ [next_poll_metric (nextCollectionTicker e) e1]).
  { rewrite HM, Hms. unfold self_metrics, next_poll_metric.
    rewrite HC, HE, HT. by rewrite <- !app_assoc. }
  assert (Hlen : (length (metrics e1) =? 0)%nat = false).
  { rewrite Hlist, length_app. cbn. apply Nat.eqb_neq. lia. }
  rewrite Hlen. cbn [fst snd]. split.
  - rewrite Hlist. apply last_snoc.
  - rewrite Hticker. unfold next_ticker. by rewrite HP.
Qed.

Lemma next_poll_metric_is_stale_witness :
  let os := sim [100; 101] (failed "exit status 2") (ok "") (ok "") in
  let e := set_nextCollectionTicker 90 (exporter0 10) in
  value <$> last (Collect id id e os).1 = Some (F64.of_Z 90) ∧
  nextCollectionTicker (Collect id id e os).2.1 = 111.
Proof.
  intros os e.
  destruct (Now os) as [now os1] eqn:Hnow.
  assert (Hdue : nextCollectionTicker e <= Unix now)
    by (vm_compute in Hnow; injection Hnow as <- _; vm_compute; discriminate).
  destruct (next_poll_metric_is_stale id id e os os1 now Hnow Hdue) as [-> _].
  split; [reflexivity|]. vm_compute. reflexivity.
Defined.

(** X15: with a poll interval of zero nothing is cached.  [NewExporter]
    leaves the interval at zero; until [SetPollInterval] is called, a
    rebuild sets the ticker to the second in which it ended, and every
    call of [GatherMetrics] whose clock reading is not before that second
    rebuilds again. *)
Theorem zero_poll_interval_always_rebuilds (tf trf : string -> string)
    {OS : Type} `{Host OS} (e : Exporter) (os : OS) :
  pollInterval e = 0 ->
  let e1 := (rebuild tf trf e os).1 in
  nextCollectionTicker e1 = Unix (Now (collect_all tf trf e os).2).1 ∧
  pollInterval e1 = 0 ∧
  ∀ os' now os1,
    Now os' = (now, os1) -> nextCollectionTicker e1 <= Unix now ->
    GatherMetrics tf trf e1 os' = rebuild tf trf e1 os1.
Proof.
  intros Hzero e1.
  destruct (rebuild_fields tf trf e os) as [Hf Hticker]. fold e1 in Hf, Hticker.
  cbv zeta in Hf, Hticker. injection Hf as _ HP _ _ _.
  pose proof (collect_all_interval tf trf e os) as Hint.
  split; [|split].
  - rewrite Hticker. unfold next_ticker. rewrite Hint, Hzero.
    rewrite Time_Add_seconds; [lia|]. unfold interval_fits, I64.in_range, I64.min, I64.max.
    lia.
  - by rewrite HP, Hint.
  - intros os' now os1 Hnow Hdue. unfold GatherMetrics. rewrite Hnow.
    by apply Z.ltb_ge in Hdue as ->.
Qed.

Lemma zero_poll_interval_always_rebuilds_witness :
  let os := sim [100; 100; 100; 100] (failed "exit status 2") (ok "") (ok "") in
  let e1 := (rebuild id id (NewExporter no_client) os).1 in
  nextCollectionTicker e1 = 100 ∧ pollInterval e1 = 0.
Proof.
  intros os e1.
  destruct (zero_poll_interval_always_rebuilds id id (NewExporter no_client) os eq_refl)
    as (Hticker & Hzero & _).
  fold e1 in Hticker, Hzero. split; [|exact Hzero].
  rewrite Hticker. vm_compute. reflexivity.
Defined.

(** X16: when [Collect] answers without a list.  [Collect] sends the
    five stand-in metrics with [up] at 0 exactly when the call finds the
    ticker ahead of the clock and the exporter holds no metrics; then it
    changes nothing.  In every other case it sends the list the exporter
    holds after [GatherMetrics], which is not empty.  An exporter fresh
    from [NewExporter] is in the second case as soon as its clock does not
    read before the epoch: its first call rebuilds. *)
Theorem collect_reply (tf trf : string -> string) {OS : Type} `{Host OS}
    (e : Exporter) (os os1 : OS) (now : Time) :
  Now os = (now, os1) ->
  (metrics e = [] -> Unix now < nextCollectionTicker e ->
   Collect tf trf e os = (no_metrics_reply e, (e, os1))) ∧
  (metrics e ≠ [] ∨ nextCollectionTicker e <= Unix now ->
   Collect tf trf e os = (metrics (GatherMetrics tf trf e os).1, GatherMetrics tf trf e os) ∧
   metrics (GatherMetrics tf trf e os).1 ≠ []) ∧
  (∀ client, e = NewExporter client -> 0 <= UnixNano now ->
             GatherMetrics tf trf e os = rebuild tf trf e os1).
Proof.
  intros Hnow. split; [|split].
  - intros Hnil Hahead. unfold Collect, GatherMetrics. rewrite Hnow.
    apply Z.ltb_lt in Hahead as ->. by rewrite Hnil.
  - intros Hcase.
    assert (Hne : metrics (GatherMetrics tf trf e os).1 ≠ []).
    { unfold GatherMetrics. rewrite Hnow.
      destruct (Unix now <? nextCollectionTicker e) eqn:Hlt.
      - destruct Hcase as [Hne|Hdue]; [exact Hne|]. apply Z.ltb_lt in Hlt. lia.
      - destruct (ClientCollect os1) as [rep os2] eqn:Hrep.
        destruct (collect_all_shape tf trf e os1 rep os2 Hrep) as [_ [pmd Hms]].
        destruct (rebuild_fields tf trf e os1) as [Hf _].
        cbv zeta in Hf. injection Hf as _ _ _ _ ->. rewrite Hms.
        rewrite !app_assoc. intros Hnil. by apply app_nil in Hnil as [_ [=]]. }
    split; [|exact Hne]. unfold Collect.
    destruct (GatherMetrics tf trf e os) as [e1 os2]. cbn [fst] in *.
    destruct (metrics e1); [done|reflexivity].
  - intros client -> Hepoch. unfold GatherMetrics. rewrite Hnow.
    assert (Hdue : (Unix now <? nextCollectionTicker (NewExporter client)) = false).
    { apply Z.ltb_ge. unfold Unix, Second. cbn. apply Z.div_pos; lia. }
    by rewrite Hdue.
Qed.

Lemma collect_reply_witness :
  (let os := sim [100; 101] (failed "exit status 2") (ok "") (ok "") in
   let e := set_nextCollectionTicker 200 (exporter0 10) in
   (Collect id id e os).1 = no_metrics_reply e) ∧
  (let os := sim [100; 101] (failed "exit status 2") (ok "") (ok "") in
   let e := NewExporter no_client in
   (Collect id id e os).1 = metrics (GatherMetrics id id e os).1 ∧
   length (Collect id id e os).1 = 5%nat).
Proof.
  split.
  - intros os e. destruct (Now os) as [now os1] eqn:Hnow.
    destruct (collect_reply id id e os os1 now Hnow) as (Hnone & _ & _).
    rewrite Hnone; [reflexivity|reflexivity|].
    vm_compute in Hnow. injection Hnow as <- _. vm_compute. reflexivity.
  - intros os e. destruct (Now os) as [now os1] eqn:Hnow.
    destruct (collect_reply id id e os os1 now Hnow) as (_ & Hlist & _).
    destruct Hlist as [-> _].
    + right. vm_compute in Hnow. injection Hnow as <- _. vm_compute. discriminate.
    + split; [reflexivity|]. vm_compute. reflexivity.
Defined.

(** ** The system id *)

Lemma is_empty_true s : is_empty s = true -> s = EmptyString.
Proof. by destruct s. Qed.

Lemma is_empty_false s : is_empty s = false -> s ≠ EmptyString.
Proof. by destruct s. Qed.

Section SystemIDFacts.
Context {OS : Type} `{Host OS} `{Files OS}.
Variable tf trf : string -> string.

Lemma scan_system_id_result ls open_end read_err :
  let r := scan_system_id tf trf ls open_end read_err in
  r.1 = EmptyString ∨
  ∃ l, l ∈ ls ∧ r.1 = TrimSpace tf trf (dropCR l).
Proof.
  induction ls as [|l ls IH]; cbn [scan_system_id]; [by left|].
  destruct (fits_buffer l); [|by left].
  destruct (is_empty (TrimSpace tf trf (dropCR l))) eqn:He.
  - destruct IH as [IH|(l' & Hin & IH)]; [by left|].
    right. exists l'. split; [by right|done].
  - right. exists l. split; [by left|done].
Qed.

Lemma GetSystemIDFromDatabase_result os :
  let r := (GetSystemIDFromDatabase tf trf os).1 in
  (r.2 = None -> r.1 ≠ EmptyString) ∧ (r.2 ≠ None -> r.1 = EmptyString).
Proof.
  unfold GetSystemIDFromDatabase. destruct (Output _ _ os) as [out os1].
  destruct (cmd_err out); [by split|].
  destruct (is_empty _) eqn:He; cbn; [by split|].
  split; [intros _; by apply is_empty_false|done].
Qed.

Lemma GetSystemIDFromFile_result path os :
  let r := (GetSystemIDFromFile tf trf path os).1 in
  (r.2 = None -> r.1 ≠ EmptyString) ∧ (r.2 ≠ None -> r.1 = EmptyString).
Proof.
  unfold GetSystemIDFromFile. destruct (Open path os) as [[f|msg] os1]; [|by split].
  destruct (scan_system_id _ _ _ _ _) as [systemID [msg|]]; [by split|].
  destruct (is_empty systemID) eqn:He; cbn; [by split|].
  split; [intros _; by apply is_empty_false|done].
Qed.

Lemma scan_system_id_plain ls open_end :
  Forall (fun l => fits_buffer l = true) ls ->
  scan_system_id tf trf ls open_end None =
  (default EmptyString (first_nonblank tf trf (map dropCR ls)), None).
Proof.
  unfold first_nonblank.
  induction 1 as [|l ls Hl _ IH]; cbn [scan_system_id]; [done|].
  rewrite Hl. destruct (is_empty (TrimSpace tf trf (dropCR l))) eqn:He.
  - rewrite IH. cbn [map]. rewrite fmap_cons, filter_cons.
    by rewrite decide_False by (rewrite He; discriminate).
  - cbn [map]. rewrite fmap_cons, filter_cons, decide_True by exact He.
    cbn [head default]. by destruct ls, open_end.
Qed.

Lemma scan_system_id_blank ls open_end read_err :
  Forall (fun l => fits_buffer l = true) ls ->
  first_nonblank tf trf (map dropCR ls) = None ->
  scan_system_id tf trf ls open_end read_err = (EmptyString, read_err).
Proof.
  unfold first_nonblank.
  induction 1 as [|l ls Hl _ IH]; cbn [scan_system_id map]; [done|].
  rewrite Hl. destruct (is_empty (TrimSpace tf trf (dropCR l))) eqn:He.
  - rewrite fmap_cons, filter_cons, decide_False by (rewrite He; discriminate). exact IH.
  - rewrite fmap_cons, filter_cons, decide_True by exact He. discriminate.
Qed.

Lemma first_nonblank_nonempty ls id :
  first_nonblank tf trf ls = Some id -> id ≠ EmptyString.
Proof.
  unfold first_nonblank. intros Hh. apply head_Some_elem_of in Hh.
  apply list_elem_of_filter in Hh as [He _]. by apply is_empty_false.
Qed.
End SystemIDFacts.

(** X17: the system id of a file is its first line that is not blank.
    For a file that opens and reads without error and whose lines fit the
    scanner, [GetSystemIDFromFile] returns the first line that is not
    empty after [strings.TrimSpace], trimmed, and stops reading there; when
    every line is blank (or the file is empty) it returns the error
    "system-id is empty in file". *)
Theorem GetSystemIDFromFile_first_nonblank (tf trf : string -> string)
    {OS : Type} `{Host OS} `{Files OS} (path : string) (os os1 : OS) (f : file) :
  Open path os = (inl f, os1) ->
  file_err f = None ->
  short_lines (file_bytes f) ->
  GetSystemIDFromFile tf trf path os =
  (match first_nonblank tf trf (text_lines (file_bytes f)) with
   | Some id => (id, None)
   | None => (EmptyString, Some "system-id is empty in file")
   end, os1).
Proof.
  intros Hopen Herr Hshort. unfold GetSystemIDFromFile. rewrite Hopen, Herr.
  rewrite (scan_system_id_plain tf trf _ _ Hshort). fold (text_lines (file_bytes f)).
  destruct (first_nonblank tf trf (text_lines (file_bytes f))) as [id|] eqn:Hid; cbn.
  - apply first_nonblank_nonempty in Hid. by destruct id.
  - reflexivity.
Qed.

Lemma GetSystemIDFromFile_first_nonblank_witness :
  (GetSystemIDFromFile id id "system-id.conf" (disk (failed "exit status 1") (plain_file id_file))).1
    = ("test-system-id-67890", None) ∧
  (GetSystemIDFromFile id id "system-id.conf" (disk (failed "exit status 1") (plain_file ""))).1
    = ("", Some "system-id is empty in file").
Proof.
  split.
  - set (d := disk (failed "exit status 1") (plain_file id_file)).
    destruct (Open "system-id.conf" d) as [opened os1] eqn:Hopen.
    assert (Hf : opened = plain_file id_file)
      by (vm_compute in Hopen; by injection Hopen as <- _).
    rewrite Hf in Hopen. unfold plain_file in Hopen.
    rewrite (GetSystemIDFromFile_first_nonblank id id "system-id.conf" d os1 _ Hopen eq_refl).
    + vm_compute. reflexivity.
    + apply short_lines_spec. vm_compute. reflexivity.
  - set (d := disk (failed "exit status 1") (plain_file "")).
    destruct (Open "system-id.conf" d) as [opened os1] eqn:Hopen.
    assert (Hf : opened = plain_file "")
      by (vm_compute in Hopen; by injection Hopen as <- _).
    rewrite Hf in Hopen. unfold plain_file in Hopen.
    rewrite (GetSystemIDFromFile_first_nonblank id id "system-id.conf" d os1 _ Hopen eq_refl).
    + vm_compute. reflexivity.
    + apply short_lines_spec. vm_compute. reflexivity.
Defined.

(** X18: a lookup of the system id returns an id or an error, never
    both and never neither.  [GetSystemIDFromDatabase] and
    [GetSystemIDFromFile] return a nil error exactly when the id they
    return is not empty (the test [systemID != ""] that [GetSystemID]
    makes behind [err == nil] never fails). *)
Theorem system_id_lookup_returns_id_or_error (tf trf : string -> string)
    {OS : Type} `{Host OS} `{Files OS} (path : string) (os : OS) :
  let db := (GetSystemIDFromDatabase tf trf os).1 in
  let fl := (GetSystemIDFromFile tf trf path os).1 in
  (db.2 = None ↔ db.1 ≠ EmptyString) ∧ (fl.2 = None ↔ fl.1 ≠ EmptyString).
Proof.
  intros db fl.
  destruct (GetSystemIDFromDatabase_result tf trf os) as [Hd1 Hd2].
  destruct (GetSystemIDFromFile_result tf trf path os) as [Hf1 Hf2].
  fold db in Hd1, Hd2. fold fl in Hf1, Hf2. split; split; auto.
  - intros Hne. destruct (db.2) eqn:He; [|done]. by destruct Hne, Hd2.
  - intros Hne. destruct (fl.2) eqn:He; [|done]. by destruct Hne, Hf2.
Qed.

(** X19: how [GetSystemIDFromFile] fails.  When the file cannot be
    opened the error of [os.Open] comes back wrapped.  When the first line
    does not fit the 64 KiB buffer of the scanner, the scan stops there
    and the function returns the scanner's error, although a later line
    may hold an id.  When the reads end in an error and only blank lines
    came before it, that error comes back wrapped. *)
Theorem GetSystemIDFromFile_failures (tf trf : string -> string)
    {OS : Type} `{Files OS} (path : string) (os os1 : OS) :
  (∀ msg, Open path os = (inr msg, os1) ->
     GetSystemIDFromFile tf trf path os
     = ((EmptyString, Some ("failed to open system-id file: " ++ msg)%string), os1)) ∧
  (∀ f l ls, Open path os = (inl f, os1) ->
     split_lines (file_bytes f) = l :: ls -> fits_buffer l = false ->
     GetSystemIDFromFile tf trf path os
     = ((EmptyString,
         Some "error reading system-id file: bufio.Scanner: token too long"), os1)) ∧
  (∀ f msg, Open path os = (inl f, os1) ->
     file_err f = Some msg -> short_lines (file_bytes f) ->
     first_nonblank tf trf (text_lines (file_bytes f)) = None ->
     GetSystemIDFromFile tf trf path os
     = ((EmptyString, Some ("error reading system-id file: " ++ msg)%string), os1)).
Proof.
  split; [|split].
  - intros msg Hopen. unfold GetSystemIDFromFile. by rewrite Hopen.
  - intros f l ls Hopen Hlines Hlong. unfold GetSystemIDFromFile.
    rewrite Hopen, Hlines. cbn [scan_system_id]. by rewrite Hlong.
  - intros f msg Hopen Herr Hshort Hblank. unfold GetSystemIDFromFile.
    rewrite Hopen, Herr.
    by rewrite (scan_system_id_blank tf trf _ _ _ Hshort Hblank).
Qed.

Lemma GetSystemIDFromFile_failures_witness :
  (GetSystemIDFromFile id id "/non/existent/file"
     (disk (failed "exit status 1") (inr "open /non/existent/file: no such file or directory"))).1
    = ("", Some "failed to open system-id file: open /non/existent/file: no such file or directory") ∧
  (GetSystemIDFromFile id id "system-id.conf"
     (disk (failed "exit status 1") (plain_file long_line_then_id))).1
    = ("", Some "error reading system-id file: bufio.Scanner: token too long").
Proof.
  split.
  - set (d := disk _ _).
    destruct (Open "/non/existent/file" d) as [opened os1] eqn:Hopen.
    assert (Hf : opened = inr "open /non/existent/file: no such file or directory")
      by (vm_compute in Hopen; by injection Hopen as <- _).
    rewrite Hf in Hopen.
    destruct (GetSystemIDFromFile_failures id id "/non/existent/file" d os1) as (Hfail & _ & _).
    by rewrite (Hfail _ Hopen).
  - set (d := disk _ _). set (os1 := (Open "system-id.conf" d).2).
    assert (Hopen : Open "system-id.conf" d
                    = (inl {| file_bytes := long_line_then_id; file_err := None |}, os1))
      by reflexivity.
    destruct (GetSystemIDFromFile_failures id id "system-id.conf" d os1) as (_ & Hlong & _).
    assert (Hlen : length (split_lines long_line_then_id) = 2%nat)
      by (vm_compute; reflexivity).
    assert (Hfits : fits_buffer (default EmptyString (head (split_lines long_line_then_id)))
                    = false) by (vm_compute; reflexivity).
    destruct (split_lines long_line_then_id) as [|l ls] eqn:Hlines; [discriminate Hlen|].
    by rewrite (Hlong _ l ls Hopen Hlines Hfits).
Defined.

(** X20: the database comes first.  When [GetSystemIDFromDatabase]
    succeeds, [GetSystemID] stores its id and does not open any file.
    Otherwise it reads the configured file, or
    [/etc/openvswitch/system-id.conf] when no path is configured, and
    stores the id found there.  When both fail it returns the wrapped
    error of the file and leaves the exporter as it was.  After a
    successful call the system id of the client is not empty, and nothing
    else of the client has changed. *)
Theorem GetSystemID_prefers_the_database (tf trf : string -> string)
    {OS : Type} `{Host OS} `{Files OS} (configured : string) (e : Exporter) (os : OS) :
  let db := GetSystemIDFromDatabase tf trf os in
  let path := if is_empty configured then default_system_id_path else configured in
  let fl := GetSystemIDFromFile tf trf path db.2 in
  let r := GetSystemID tf trf configured e os in
  (db.1.2 = None -> r = (None, (set_System_ID db.1.1 e, db.2))) ∧
  (db.1.2 ≠ None -> fl.1.2 = None -> r = (None, (set_System_ID fl.1.1 e, fl.2))) ∧
  (db.1.2 ≠ None -> ∀ msg, fl.1.2 = Some msg ->
     r = (Some ("failed to get system-id from both database and file: " ++ msg)%string,
          (e, fl.2))) ∧
  (r.1 = None -> System_ID (Client r.2.1) ≠ EmptyString ∧
                 client_rest (Client r.2.1) = client_rest (Client e) ∧
                 exporter_rest (set_Client (Client e) r.2.1) = exporter_rest e ∧
                 metrics r.2.1 = metrics e) ∧
  (r.1 ≠ None -> r.2.1 = e).
Proof.
  intros db path fl r.
  destruct (GetSystemIDFromDatabase_result tf trf os) as [Hd1 Hd2].
  destruct (GetSystemIDFromFile_result tf trf path db.2) as [Hf1 Hf2].
  fold db in Hd1, Hd2. fold fl in Hf1, Hf2.
  assert (Hr : r = if match db.1.2 with None => true | Some _ => false end
                   then (None, (set_System_ID db.1.1 e, db.2))
                   else match fl.1.2 with
                        | Some msg =>
                            (Some (wrap_error
                                     "failed to get system-id from both database and file" msg),
                             (e, fl.2))
                        | None => (None, (set_System_ID fl.1.1 e, fl.2))
                        end).
  { subst r fl path. unfold GetSystemID. fold db.
    destruct db as [[dbid dberr] os1]. cbn [fst snd] in *.
    destruct dberr as [msg|]; cbn [andb].
    - by destruct (GetSystemIDFromFile tf trf _ os1) as [[flid flerr] os2].
    - specialize (Hd1 eq_refl). by destruct dbid. }
  clearbody r. subst r.
  split; [|split; [|split; [|split]]].
  - by intros ->.
  - intros Hdb Hfl. destruct (db.1.2); [|done]. by rewrite Hfl.
  - intros Hdb msg Hfl. destruct (db.1.2); [|done]. by rewrite Hfl.
  - destruct (db.1.2) as [dmsg|].
    + destruct (fl.1.2) as [fmsg|]; [done|]. intros _. cbn [fst snd].
      split; [by apply Hf1|]. by destruct e.
    + intros _. cbn [fst snd]. split; [by apply Hd1|]. by destruct e.
  - destruct (db.1.2) as [dmsg|]; [|done]. by destruct (fl.1.2).
Qed.

Lemma GetSystemID_prefers_the_database_witness :
  (let d := disk (ok (quoted_line database_id)) (plain_file id_file) in
   let r := GetSystemID id id "" (NewExporter no_client) d in
   r.1 = None ∧ System_ID (Client r.2.1) = database_id ∧ disk_opened r.2.2 = []) ∧
  (let d := disk (failed "exit status 1") (plain_file id_file) in
   let r := GetSystemID id id "" (NewExporter no_client) d in
   r.1 = None ∧ System_ID (Client r.2.1) = "test-system-id-67890" ∧
   disk_opened r.2.2 = [default_system_id_path]).
Proof.
  split.
  - intros d r.
    destruct (GetSystemID_prefers_the_database id id "" (NewExporter no_client) d)
      as (Hdb & _).
    fold r in Hdb. rewrite Hdb by (vm_compute; reflexivity).
    vm_compute. repeat split; reflexivity.
  - intros d r.
    destruct (GetSystemID_prefers_the_database id id "" (NewExporter no_client) d)
      as (_ & Hfile & _).
    fold r in Hfile. rewrite Hfile; [|vm_compute; discriminate|vm_compute; reflexivity].
    vm_compute. repeat split; reflexivity.
Defined.

(** ** Quotes around the id of the database *)

Lemma trim_right_quoted s :
  trim_right (s ++ String quote nl)%string = ((s ++ String quote EmptyString)%string, false).
Proof.
  induction s as [|c s IH]; [reflexivity|].
  change (String c s ++ String quote nl)%string with (String c (s ++ String quote nl)%string).
  change (String c s ++ String quote EmptyString)%string
    with (String c (s ++ String quote EmptyString)%string).
  cbn [trim_right]. rewrite IH. by destruct s.
Qed.

Lemma TrimSpace_quoted tf trf s :
  TrimSpace tf trf (quoted_line s) = String quote (s ++ String quote EmptyString)%string.
Proof.
  unfold quoted_line. cbn [TrimSpace]. change (RuneSelf <=? nat_of_ascii quote)%nat with false.
  change (asciiSpace quote) with false. cbv iota.
  change (String quote (s ++ String quote nl)%string)
    with ((String quote s) ++ String quote nl)%string.
  by rewrite trim_right_quoted.
Qed.

Lemma trimRightByte_keeps s c : last_byte s ≠ Some c -> trimRightByte s c = s.
Proof.
  induction s as [|a s IH]; [done|]. cbn [last_byte trimRightByte].
  destruct s as [|b s].
  - cbn. intros Hne. destruct (Ascii.eqb_spec a c); congruence.
  - intros Hne. rewrite (IH Hne). reflexivity.
Qed.

Lemma trimRightByte_snoc s c :
  trimRightByte (s ++ String c EmptyString)%string c = trimRightByte s c.
Proof.
  induction s as [|a s IH].
  - change (EmptyString ++ String c EmptyString)%string with (String c EmptyString).
    cbn [trimRightByte]. by rewrite Ascii.eqb_refl.
  - change (String a s ++ String c EmptyString)%string
      with (String a (s ++ String c EmptyString)%string).
    cbn [trimRightByte]. by rewrite IH.
Qed.

Lemma trimLeftByte_first s c : first_byte (trimLeftByte s c) ≠ Some c.
Proof.
  induction s as [|a s IH]; [done|]. cbn [trimLeftByte].
  destruct (Ascii.eqb_spec a c); [exact IH|]. cbn. congruence.
Qed.

Lemma trimLeftByte_last s c :
  last_byte s ≠ Some c -> last_byte (trimLeftByte s c) ≠ Some c.
Proof.
  induction s as [|a s IH]; [done|]. cbn [trimLeftByte].
  destruct (Ascii.eqb_spec a c) as [->|Hne]; [|done].
  intros Hl. apply IH. destruct s; [done|exact Hl].
Qed.

Lemma trimRightByte_last s c : last_byte (trimRightByte s c) ≠ Some c.
Proof.
  induction s as [|a s IH]; [done|]. cbn [trimRightByte].
  destruct (trimRightByte s c) as [|b t] eqn:Ht.
  - destruct (Ascii.eqb_spec a c); [done|]. cbn. congruence.
  - exact IH.
Qed.

(** X21: the quotes around the id of the database.  [ovs-vsctl get]
    prints a string value in double quotes; for every id that is not empty
    and neither begins nor ends with a double quote,
    [GetSystemIDFromDatabase] gives the id back from that output.
    Whatever the command prints, an id returned without error neither
    begins nor ends with a double quote. *)
Theorem GetSystemIDFromDatabase_strips_quotes (tf trf : string -> string)
    {OS : Type} `{Host OS} (os os1 : OS) (out : cmd_output) :
  Output ovs_vsctl get_system_id os = (out, os1) ->
  cmd_err out = None ->
  (∀ systemID, stdout out = quoted_line systemID ->
     systemID ≠ EmptyString ->
     first_byte systemID ≠ Some quote -> last_byte systemID ≠ Some quote ->
     GetSystemIDFromDatabase tf trf os = ((systemID, None), os1)) ∧
  (first_byte (GetSystemIDFromDatabase tf trf os).1.1 ≠ Some quote ∧
   last_byte (GetSystemIDFromDatabase tf trf os).1.1 ≠ Some quote).
Proof.
  intros Hout Herr. split.
  - intros systemID Hstd Hne Hfirst Hlast. unfold GetSystemIDFromDatabase.
    rewrite Hout, Herr, Hstd, TrimSpace_quoted. unfold Trim_byte.
    change (String quote (systemID ++ String quote EmptyString)%string)
      with ((String quote systemID) ++ String quote EmptyString)%string.
    rewrite trimRightByte_snoc. rewrite trimRightByte_keeps.
    + cbn [trimLeftByte]. rewrite Ascii.eqb_refl.
      destruct systemID as [|a s]; [done|]. cbn [trimLeftByte].
      destruct (Ascii.eqb_spec a quote) as [->|_]; [by destruct Hfirst|reflexivity].
    + destruct systemID; [done|exact Hlast].
  - unfold GetSystemIDFromDatabase. rewrite Hout, Herr.
    destruct (is_empty _); cbn [fst snd]; [by split|].
    split; [apply trimLeftByte_first|apply trimLeftByte_last, trimRightByte_last].
Qed.

Lemma GetSystemIDFromDatabase_strips_quotes_witness :
  (GetSystemIDFromDatabase id id
     (disk (ok (quoted_line database_id)) (plain_file ""))).1 = (database_id, None).
Proof.
  set (d := disk _ _).
  destruct (Output ovs_vsctl get_system_id d) as [out os1] eqn:Hout.
  assert (Hstd : out = ok (quoted_line database_id))
    by (vm_compute in Hout; injection Hout as <- _; reflexivity).
  rewrite Hstd in Hout.
  destruct (GetSystemIDFromDatabase_strips_quotes id id d os1 _ Hout eq_refl) as [Hround _].
  rewrite (Hround database_id); [reflexivity|reflexivity|discriminate
                                |vm_compute; discriminate|vm_compute; discriminate].
Defined.

(** ** Every metric sent is described *)

Lemma fold_left_preserves {A B : Type} (Q : A -> Prop) (g : A -> B -> A) (l : list B) a :
  (∀ a x, Q a -> Q (g a x)) -> Q a -> Q (fold_left g l a).
Proof. intros Hg. revert a. induction l; simpl; auto. Qed.

Lemma append_metrics_Forall (P : Metric -> Prop) ms e :
  Forall P (metrics e) -> Forall P ms -> Forall P (metrics (append_metrics ms e)).
Proof. intros He Hms. destruct e. cbn in *. by apply Forall_app. Qed.

Section Described.
Context {OS : Type} `{Host OS}.
Variable tf trf : string -> string.
Variable P : Metric -> Prop.
Hypothesis P_record : ∀ id pmd, Forall P (record_metrics id pmd).
Hypothesis P_flow_cache : ∀ id pmd, Forall P (FlowCacheBlock id pmd).
Hypothesis P_basic : ∀ id pmd, Forall P (basic_metrics id pmd).
Hypothesis P_drop : ∀ id reason count, P (drop_metric id reason count).

Lemma collectDropCounters_Forall e os :
  Forall P (metrics e) -> Forall P (metrics (collectDropCounters tf trf e os).1).
Proof.
  intros He. unfold collectDropCounters.
  destruct (GetDropCounters tf trf os) as [[counters err] os1].
  destruct err; [exact He|]. cbn [fst].
  apply (fold_left_preserves (fun e => Forall P (metrics e))); [|exact He].
  intros e' [reason count] He'. apply (append_metrics_Forall P [_]); [exact He'|].
  apply Forall_singleton, P_drop.
Qed.

Lemma collectBasicPMDMetrics_Forall e os :
  Forall P (metrics e) -> Forall P (metrics (collectBasicPMDMetrics e os).1).
Proof.
  intros He. unfold collectBasicPMDMetrics.
  destruct (GetPmdPerfMetrics os) as [[ms err] os1].
  destruct err; [exact He|]. destruct ms as [|pmd ms]; [exact He|]. cbn [fst].
  apply (fold_left_preserves (fun e => Forall P (metrics e))); [|exact He].
  intros e' pmd' He'. by apply append_metrics_Forall.
Qed.

Lemma CollectPMDMetrics_Forall e os :
  Forall P (metrics e) -> Forall P (metrics (CollectPMDMetrics tf trf e os).1).
Proof.
  intros He. unfold CollectPMDMetrics.
  destruct (GetEnhancedPmdMetrics os) as [[ms err] os1].
  destruct err; [by apply collectBasicPMDMetrics_Forall|].
  destruct ms as [|pmd ms]; [exact He|].
  apply collectDropCounters_Forall.
  apply (fold_left_preserves (fun e => Forall P (metrics e))); [|exact He].
  intros e' pmd' He'. apply append_metrics_Forall; [exact He'|].
  unfold enhanced_metrics. apply Forall_app. split; [apply P_record|apply P_flow_cache].
Qed.

Lemma collect_all_Forall e os :
  Forall P (rep_metrics (ClientCollect os).1) ->
  (∀ upValue e', Forall P (self_metrics upValue e')) ->
  (∀ ticker e', P (next_poll_metric ticker e')) ->
  Forall P (metrics (collect_all tf trf e os).1).
Proof.
  intros Hrep Hself Hnext. rewrite collect_all_eq.
  destruct (ClientCollect os) as [rep os1]. cbn [fst] in Hrep. cbv zeta.
  match goal with |- context [CollectPMDMetrics tf trf ?e1 os1] =>
    assert (He1 : Forall P (metrics e1))
      by (apply append_metrics_Forall; [exact Hrep|apply Hself]);
    pose proof (CollectPMDMetrics_Forall e1 os1 He1) as He2;
    destruct (CollectPMDMetrics tf trf e1 os1) as [e2 os2] end.
  cbn [fst] in *. apply (append_metrics_Forall P [_]); [exact He2|].
  apply Forall_singleton, Hnext.
Qed.
End Described.

Ltac is_described :=
  split; [apply (bool_decide_unpack _); vm_compute; exact I|reflexivity].

Ltac all_described :=
  repeat (apply Forall_cons; split; [is_described|]); apply Forall_nil_2.

Lemma record_metrics_described id pmd : Forall described (record_metrics id pmd).
Proof.
  unfold record_metrics. rewrite Forall_app. split; [all_described|].
  destruct (0 <? Enh.SuspiciousIterations pmd); all_described.
Qed.

Lemma basic_metrics_described id pmd : Forall described (basic_metrics id pmd).
Proof. unfold basic_metrics. all_described. Qed.

Lemma self_metrics_described upValue e : Forall described (self_metrics upValue e).
Proof. unfold self_metrics. all_described. Qed.

(** X22: every metric sent is described.  [Describe] announces 92
    descriptors with pairwise different names.  Every metric that a
    rebuild leaves in the list, and every metric of the reply [Collect]
    sends when the list is empty, uses one of these descriptors and has as
    many label values as its descriptor has labels, provided the same
    holds for the metrics of the OVSDB sub-collections and of the
    flow-cache block. *)
Theorem rebuilt_metrics_are_described (tf trf : string -> string) {OS : Type} `{Host OS}
    (e : Exporter) (os : OS) :
  Forall described (rep_metrics (ClientCollect os).1) ->
  (∀ id pmd, Forall described (FlowCacheBlock id pmd)) ->
  Forall described (metrics (rebuild tf trf e os).1) ∧
  Forall described (no_metrics_reply e) ∧
  length Describe = 92%nat ∧ NoDup (fqName <$> Describe).
Proof.
  intros Hrep Hflow. split; [|split; [|split]].
  - destruct (rebuild_fields tf trf e os) as [Hf _]. cbv zeta in Hf.
    injection Hf as _ _ _ _ ->.
    apply (collect_all_Forall tf trf described); auto using record_metrics_described,
      basic_metrics_described, self_metrics_described.
    + intros id reason count. is_described.
    + intros ticker e'. is_described.
  - unfold no_metrics_reply. apply Forall_app. split; [apply self_metrics_described|].
    apply Forall_singleton. is_described.
  - reflexivity.
  - apply (bool_decide_unpack _). vm_compute. exact I.
Qed.

Lemma rebuilt_metrics_are_described_witness :
  let os := sim [100; 101] (ok two_threads) (ok "") (ok coverage_sample) in
  Forall described (metrics (rebuild id id (exporter0 10) os).1) ∧
  length (metrics (rebuild id id (exporter0 10) os).1) = 62%nat.
Proof.
  intros os.
  destruct (rebuilt_metrics_are_described id id (exporter0 10) os) as (Hall & _).
  - vm_compute. apply Forall_nil_2.
  - intros id0 pmd. apply Forall_nil_2.
  - split; [exact Hall|]. vm_compute. reflexivity.
Defined.

(** ** No deadlock *)

Lemma thread_step_writer_refills i c c' :
  writer_refills c -> thread_step i c c' -> writer_refills c'.
Proof.
  intros Hw Hstep.
  destruct Hstep as [c Hi Hlt|c Hi Hge|c built Hi Hlock|c m todo Hi|c Hi|c Hi Hnow|c Hi];
    unfold writer_refills, with_thread in *;
    cbn [c_lock c_threads writer]; try done.
  - intros (j & todo & Hj)%Hw. exists j, todo.
    rewrite list_lookup_insert_ne; [done|]. intros <-. congruence.
  - intros (j & todo & Hj)%Hw. exists j, todo.
    rewrite list_lookup_insert_ne; [done|]. intros <-. congruence.
  - intros _. exists i, built. apply list_lookup_insert_eq. by eapply lookup_lt_Some.
  - intros _. exists i, todo. apply list_lookup_insert_eq. by eapply lookup_lt_Some.
  - intros (j & todo & Hj)%Hw. exists j, todo.
    rewrite list_lookup_insert_ne; [done|]. intros <-. congruence.
Qed.

Lemma reachable_writer_refills now interval ticker snapshot n c :
  rtc step (start now interval ticker snapshot n) c -> writer_refills c.
Proof.
  intros Hrun.
  eapply (rtc_ind_r (fun c => writer_refills c)); [| |exact Hrun].
  - intros Hw. discriminate Hw.
  - intros c1 c2 _ Hstep Hw. destruct Hstep as [i c1 c2 Hstep|c1]; [|exact Hw].
    by eapply thread_step_writer_refills.
Qed.

Lemma some_sending ts : sending ts ≠ 0%nat -> ∃ j, ts !! j = Some Sending.
Proof.
  induction ts as [|p ts IH]; [done|]. intros Hs.
  destruct p; try (destruct IH as [j Hj]; [exact Hs|]; by exists (S j)).
  by exists 0%nat.
Qed.

Lemma refilling_moves c j todo :
  c_threads c !! j = Some (Refilling todo) -> ∃ c', thread_step j c c'.
Proof.
  intros Hj. destruct todo as [|m todo]; eexists.
  - by apply tick_and_unlock.
  - by eapply append_one.
Qed.

(** X23: no deadlock.  In every state that concurrent calls of [Collect]
    can reach, as long as one call has not returned some call can take a
    step: a call waiting for the write lock waits for a rebuild or for
    readers that can finish, and a call waiting for the read lock waits
    for a rebuild that can finish.  A call that cannot move stands at
    [Lock] or at [RLock]. *)
Theorem collect_calls_never_deadlock
    (now interval ticker : Z) (snapshot : list Metric) (n : nat) (c : config) (i : nat) :
  rtc step (start now interval ticker snapshot n) c ->
  running i c ->
  (∃ j c', thread_step j c c') ∧
  (blocked i c -> c_threads c !! i = Some AtLock ∨ c_threads c !! i = Some AtRLock).
Proof.
  intros Hrun (p & Hi & Hp).
  pose proof (reachable_inv _ _ _ _ _ _ Hrun) as [Hr _ _ _ _ _].
  pose proof (reachable_writer_refills _ _ _ _ _ _ Hrun) as Hw.
  assert (Hwriter : writer (c_lock c) = true -> ∃ j c', thread_step j c c').
  { intros (j & todo & Hj)%Hw. exists j. by eapply refilling_moves. }
  split.
  - destruct p as [| |todo| | |sent].
    + exists i. destruct (decide (c_now c < c_ticker c)); eexists.
      * by apply ticker_ahead.
      * by apply ticker_due.
    + destruct (c_lock c) as [w r] eqn:Hlock. destruct w; [by apply Hwriter|].
      destruct r as [|r].
      * exists i. eexists. by apply lock_and_clear with (built := []).
      * destruct (some_sending (c_threads c)) as [j Hj]; [cbn in Hr; lia|].
        exists j. eexists. by apply send_and_runlock.
    + exists i. by eapply refilling_moves.
    + destruct (writer (c_lock c)) eqn:Hwr; [by apply Hwriter|].
      exists i. eexists. by apply rlock.
    + exists i. eexists. by apply send_and_runlock.
    + by destruct (Hp sent).
  - intros [_ Hstuck]. destruct p as [| |todo| | |sent]; [|by left| |by right| |].
    + destruct (decide (c_now c < c_ticker c)).
      * edestruct Hstuck. by apply ticker_ahead.
      * edestruct Hstuck. by apply ticker_due.
    + destruct (refilling_moves c i todo Hi) as [c' Hstep]. by destruct (Hstuck c').
    + edestruct Hstuck. by apply send_and_runlock.
    + by destruct (Hp sent).
Qed.

Lemma collect_calls_never_deadlock_witness :
  ∃ c, (rtc step (start 5 10 10 [m_up 1] 2) c) ∧
       c_threads c = [Refilling [m_up 1; m_up 0]; AtRLock] ∧
       (∃ j c', thread_step j c c').
Proof.
  eexists. split; [|split].
  - thread_moves 1%nat ticker_ahead.
    do 5 clock_moves.
    thread_moves 0%nat ticker_due.
    thread_locks 0%nat [m_up 1; m_up 0].
    apply rtc_refl.
  - reflexivity.
  - refine (proj1 (collect_calls_never_deadlock 5 10 10 [m_up 1] 2 _ 1%nat _ _)).
    + thread_moves 1%nat ticker_ahead.
      do 5 clock_moves.
      thread_moves 0%nat ticker_due.
      thread_locks 0%nat [m_up 1; m_up 0].
      apply rtc_refl.
    + exists AtRLock. split; [reflexivity|discriminate].
Defined.

(** ** The busy-cycles line *)

Lemma enh_later_blocks_keep_utilization :
  Forall (fun b => ∀ l, keeps Enh.CPUUtilization (b l)) (drop (S busy_block_index) Enh.blocks).
Proof.
  unfold Enh.blocks, busy_block_index. cbn [drop].
  repeat (apply Forall_cons; split; [keep_block|]). apply Forall_nil_2.
Qed.

Lemma busy_block_utilization line m matches percent :
  FindStringSubmatch Enh.busyCyclesRe line = Some matches ->
  ParseFloat (sub matches 1) = Some percent ->
  Enh.CPUUtilization (run_blocks Enh.blocks line m) = percent.
Proof.
  intros Hm Hp.
  assert (Hsplit : Enh.blocks =
            take busy_block_index Enh.blocks ++
            [when_match Enh.busyCyclesRe (fun matches m =>
               let m := on_float (sub matches 1) Enh.set_CPUUtilization m in
               on_float (sub matches 2) (fun val => Enh.set_BusyCycles (mcycles val)) m)] ++
            drop (S busy_block_index) Enh.blocks) by reflexivity.
  rewrite Hsplit, !run_blocks_app.
  rewrite (keeps_run_blocks Enh.CPUUtilization _ line enh_later_blocks_keep_utilization).
  unfold run_blocks at 1. cbn [fold_left]. unfold when_match, on_float.
  rewrite Hm, Hp. by destruct (ParseFloat (sub matches 2)).
Qed.

(** X24: the busy-cycles line sets the CPU utilization.  A line that
    matches the busy-cycles pattern with a readable percentage stores that
    percentage in [CPUUtilization], over whatever a CPU-utilization line
    stored before, also one on the same line; the collector exports it
    divided by 100 as the first metric of the record. *)
Theorem busy_cycles_line_sets_cpu_utilization (st : Enh.state) (line : string)
    (m0 : Enh.T) (matches : list string) (percent : float64) :
  FindStringSubmatch pmdHeaderRe line = None ->
  Enh.currentMetric st = Some m0 ->
  FindStringSubmatch Enh.busyCyclesRe line = Some matches ->
  ParseFloat (sub matches 1) = Some percent ->
  ∃ m, Enh.currentMetric (Enh.step st line) = Some m ∧
       Enh.CPUUtilization m = percent ∧
       ∀ id, value <$> head (record_metrics id m) = Some (F64.div percent F64.hundred).
Proof.
  intros Hh Hc Hm Hp.
  pose proof (busy_block_utilization line m0 matches percent Hm Hp) as Hu.
  set (m1 := run_blocks Enh.blocks line m0) in *.
  assert (Hstep : ∃ m, Enh.currentMetric (Enh.step st line) = Some m ∧
                       Enh.CPUUtilization m = Enh.CPUUtilization m1).
  { unfold Enh.step. rewrite Hh, Hc. fold m1.
    destruct (FindStringSubmatch Enh.histogramRe line); [by eexists|].
    destruct (Enh.currentHistogram st) as [h|]; [|by eexists].
    eexists. split; [reflexivity|]. unfold when_match, on_uint.
    destruct (FindStringSubmatch Enh.histogramEntryRe line) as [em|]; [|done].
    destruct (ParseUint (sub em 2)); [|done]. by destruct h. }
  destruct Hstep as (m & Hcur & Hsame). exists m. split; [exact Hcur|].
  rewrite Hsame, Hu. split; [reflexivity|]. intros id. cbn. by rewrite Hsame, Hu.
Qed.

Lemma busy_cycles_line_sets_cpu_utilization_witness :
  Enh.CPUUtilization <$> parseEnhancedPmdOutput utilization_then_busy = [F64.of_Z 75] ∧
  let st := fold_left Enh.step
              ["pmd thread numa_id 0 core_id 5:"; "  cpu utilization: 10.0%"] Enh.init in
  ∃ m, Enh.currentMetric (Enh.step st "  busy cycles: 75.0% (3.0 Mcycles)") = Some m ∧
       Enh.CPUUtilization m = F64.of_Z 75.
Proof.
  split; [vm_compute; reflexivity|]. intros st.
  destruct (Enh.currentMetric st) as [m0|] eqn:Hc; [|vm_compute in Hc; discriminate].
  destruct (FindStringSubmatch Enh.busyCyclesRe "  busy cycles: 75.0% (3.0 Mcycles)")
    as [matches|] eqn:Hm; [|vm_compute in Hm; discriminate].
  assert (Hp : ParseFloat (sub matches 1) = Some (F64.of_Z 75))
    by (vm_compute in Hm; injection Hm as <-; vm_compute; reflexivity).
  assert (Hh : FindStringSubmatch pmdHeaderRe "  busy cycles: 75.0% (3.0 Mcycles)" = None)
    by (vm_compute; reflexivity).
  destruct (busy_cycles_line_sets_cpu_utilization st _ m0 matches _ Hh Hc Hm Hp)
    as (m & Hcur & Hu & _).
  exists m. split; [exact Hcur|exact Hu].
Defined.
